(** * TechTorch formatter: the content classification pipeline

    Shallow embedding of [src/app/page.tsx]: the signal analyzers
    ([analyzeHeaderProbability], [analyzeCodeProbability],
    [analyzeBulletProbability], [getHeadingLevel]), the segmentation scan of
    [extractContent] and the corrective pass [postProcessContent].

    JavaScript strings are sequences of UTF-16 code units; regular
    expressions are run by a backtracking matcher that follows the
    ECMAScript pattern semantics (greedy quantifiers, ordered alternation,
    first match from the leftmost start index). Numbers are integers:
    the scores are sums of small integers, and the two places where the
    source leaves the integers ([parseInt] and a product by 0.7) are
    discussed where they are modelled. The Unicode case tables behind
    [toLowerCase] and [toUpperCase] are a parameter ([UnicodeCase]).

    Around the pipeline, the file also embeds what brings the lines in
    and what takes the items out: [parseHtmlToLines] with the global
    replacements it is made of, the statistics of [handleFormat], the
    file name of [handleDownload], and the blocks [createFormattedDocument]
    and [createCodeBlockTable] build.

    The definitions come first; the facts about the matcher, the scan
    and the post-processing pass follow, then the properties of the
    pipeline, and the properties of the code around it close the file. *)

From Stdlib Require Import String Ascii ZArith NArith Lia Bool List DecimalString.
Import ListNotations.

Set Implicit Arguments.

(* ------------------------------------------------------------------ *)
(** ** JavaScript strings                                              *)
(* ------------------------------------------------------------------ *)

(** A string is its list of UTF-16 code units. *)
Definition jsstring := list N.

(** An ASCII literal as a JavaScript string (one code unit per character). *)
Definition str (s : string) : jsstring :=
  map N_of_ascii (list_ascii_of_string s).

(** The code unit of a one-character ASCII literal. *)
Definition chr (s : string) : N := hd 0%N (str s).

Definition jslength (s : jsstring) : Z := Z.of_nat (length s).

Definition jseqb (a b : jsstring) : bool :=
  if list_eq_dec N.eq_dec a b then true else false.

Fixpoint startsWith (s p : jsstring) : bool :=
  match p, s with
  | [], _ => true
  | c :: p', d :: s' => N.eqb c d && startsWith s' p'
  | _ :: _, [] => false
  end.

Definition endsWith (s p : jsstring) : bool := startsWith (rev s) (rev p).

Fixpoint includes (s p : jsstring) : bool :=
  startsWith s p ||
  match s with
  | [] => false
  | _ :: s' => includes s' p
  end.

(** WhiteSpace and LineTerminator code units of ECMAScript: what
    [String.prototype.trim] strips and what [\s] matches. *)
Definition isWhiteSpace (c : N) : bool :=
  ((9 <=? c) && (c <=? 13) || (c =? 32) || (c =? 160) || (c =? 5760)
   || (8192 <=? c) && (c <=? 8202) || (c =? 8232) || (c =? 8233)
   || (c =? 8239) || (c =? 8287) || (c =? 12288) || (c =? 65279))%N.

(** LineTerminator: the code units [.] does not match. *)
Definition isLineTerminator (c : N) : bool :=
  ((c =? 10) || (c =? 13) || (c =? 8232) || (c =? 8233))%N.

Definition isDigit (c : N) : bool := ((48 <=? c) && (c <=? 57))%N.

Definition isUpper (c : N) : bool := ((65 <=? c) && (c <=? 90))%N.

Definition isLower (c : N) : bool := ((97 <=? c) && (c <=? 122))%N.

(** [\w]: ASCII letters, digits and underscore. *)
Definition isWordChar (c : N) : bool :=
  isUpper c || isLower c || isDigit c || (c =? 95)%N.

Fixpoint trimStart (s : jsstring) : jsstring :=
  match s with
  | c :: s' => if isWhiteSpace c then trimStart s' else s
  | [] => []
  end.

Definition trimEnd (s : jsstring) : jsstring := rev (trimStart (rev s)).

Definition trim (s : jsstring) : jsstring := trimEnd (trimStart s).

(** A line as the scan sees it: not empty, no white space at either end. *)
Definition cleanStart (s : jsstring) : Prop :=
  match s with
  | c :: _ => isWhiteSpace c = false
  | [] => True
  end.

Definition Trimmed (s : jsstring) : Prop :=
  s <> [] /\ cleanStart s /\ cleanStart (rev s).

Fixpoint takeWhile (p : N -> bool) (s : list N) : list N :=
  match s with
  | c :: s' => if p c then c :: takeWhile p s' else []
  | [] => []
  end.

Fixpoint dropWhile (p : N -> bool) (s : list N) : list N :=
  match s with
  | c :: s' => if p c then dropWhile p s' else s
  | [] => []
  end.

Definition notLineTerminator (c : N) : bool := negb (isLineTerminator c).

(** What is left of a list line once its marker is removed: the white
    space after the marker is skipped and the text runs to the end of the
    string, or to its first line terminator. *)
Definition afterMarker (rest : list N) : jsstring :=
  takeWhile notLineTerminator (dropWhile isWhiteSpace rest).

(** A one-glyph bullet marker removed. *)
Definition stripBullet (line : jsstring) : jsstring := afterMarker (tl line).

(** A numeral and its [.] or [)] removed. *)
Definition stripNumbered (line : jsstring) : jsstring :=
  afterMarker (tl (dropWhile isDigit line)).

(** ASCII case mapping of one code unit. *)
Definition upperA (c : N) : N := if isLower c then (c - 32)%N else c.
Definition lowerA (c : N) : N := if isUpper c then (c + 32)%N else c.

(** [String.prototype.toLowerCase] and [toUpperCase] follow the Unicode
    case tables of the runtime; the classifier is parametric in them. *)
Class UnicodeCase := {
  toLowerCase : jsstring -> jsstring;
  toUpperCase : jsstring -> jsstring
}.

(** The case tables restricted to ASCII; exact on ASCII strings. *)
Definition asciiCase : UnicodeCase :=
  {| toLowerCase := map lowerA; toUpperCase := map upperA |}.

(** [s.split(/\s+/)]: cut at every maximal run of white space; a run at
    either end leaves an empty first or last piece, and the empty string
    gives one empty piece. [cur] is the piece being read, reversed. *)
Fixpoint splitWs (s : jsstring) (cur : jsstring) (inSep : bool) : list jsstring :=
  match s with
  | [] => [rev cur]
  | c :: s' =>
      if isWhiteSpace c
      then if inSep then splitWs s' cur true
           else rev cur :: splitWs s' [] true
      else splitWs s' (c :: cur) false
  end.

Definition split_ws (s : jsstring) : list jsstring := splitWs s [] false.

(** [parseInt] of a string of decimal digits. JavaScript numbers are
    doubles, so this is exact below 2^53; a numbered run can only reach
    such a value after that many lines. *)
Definition parseInt (digits : jsstring) : Z :=
  fold_left (fun acc c => 10 * acc + (Z.of_N c - 48))%Z digits 0%Z.

(* ------------------------------------------------------------------ *)
(** ** Regular expressions                                             *)
(* ------------------------------------------------------------------ *)

Inductive regex : Type :=
| Eps                              (* the empty pattern *)
| Chr (p : N -> bool)              (* one code unit of a class *)
| Seq (r1 r2 : regex)
| Alt (r1 r2 : regex)              (* r1|r2, r1 tried first *)
| Star (r : regex)                 (* greedy r* *)
| Bol                              (* ^ *)
| Eol                              (* $ (no m flag) *)
| Wordb                            (* \b *)
| Grp (n : nat) (r : regex).       (* capturing group number n *)

(** A position in the subject: the code units already passed, nearest
    first, and the ones ahead. *)
Definition cursor := (list N * list N)%type.

Definition captures := list (nat * jsstring).

Fixpoint capture (n : nat) (c : captures) : option jsstring :=
  match c with
  | [] => None
  | (k, s) :: c' => if Nat.eqb k n then Some s else capture n c'
  end.

Definition wordAt (l : list N) : bool :=
  match l with
  | c :: _ => isWordChar c
  | [] => false
  end.

(** The iterations of a greedy star whose body is run by [body]: one more
    iteration is tried first, the continuation [k] after it. An iteration
    that consumes nothing is rejected, as in ECMAScript, so the number of
    iterations is bounded by the code units ahead. *)
Fixpoint starIter
         (body : cursor -> captures ->
                 (cursor -> captures -> option captures) -> option captures)
         (k : cursor -> captures -> option captures)
         (fuel : nat) (x : cursor) (c : captures) : option captures :=
  match fuel with
  | O => k x c
  | S fuel' =>
      match body x c
              (fun x' c' =>
                 if Nat.eqb (length (snd x')) (length (snd x))
                 then None else starIter body k fuel' x' c') with
      | Some y => Some y
      | None => k x c
      end
  end.

(** The matcher in continuation-passing style: [k] is what remains to be
    matched after [r]. *)
Fixpoint rmatch (r : regex) (x : cursor) (c : captures)
         (k : cursor -> captures -> option captures) : option captures :=
  match r with
  | Eps => k x c
  | Chr p =>
      match snd x with
      | a :: rest => if p a then k (a :: fst x, rest) c else None
      | [] => None
      end
  | Seq r1 r2 => rmatch r1 x c (fun x' c' => rmatch r2 x' c' k)
  | Alt r1 r2 =>
      match rmatch r1 x c k with
      | Some y => Some y
      | None => rmatch r2 x c k
      end
  | Star r1 => starIter (rmatch r1) k (S (length (snd x))) x c
  | Bol => match fst x with [] => k x c | _ :: _ => None end
  | Eol => match snd x with [] => k x c | _ :: _ => None end
  | Wordb => if xorb (wordAt (fst x)) (wordAt (snd x)) then k x c else None
  | Grp n r1 =>
      rmatch r1 x c
        (fun x' c' =>
           k x' ((n, firstn (length (snd x) - length (snd x')) (snd x)) :: c'))
  end.

(** The continuation that ends a match. *)
Definition accept : cursor -> captures -> option captures := fun _ c => Some c.

(** [exec]: try every start index from the left, as a non-global,
    non-sticky [RegExp.prototype.exec] does. *)
Fixpoint search (r : regex) (passed ahead : list N) : option captures :=
  match rmatch r (passed, ahead) [] accept with
  | Some c => Some c
  | None =>
      match ahead with
      | [] => None
      | a :: rest => search r (a :: passed) rest
      end
  end.

Definition exec (r : regex) (s : jsstring) : option captures := search r [] s.

Definition test (r : regex) (s : jsstring) : bool :=
  match exec r s with Some _ => true | None => false end.

(** *** What a pattern matches

    [matches r x y]: [r] can match the code units between the positions
    [x] and [y] of one subject. This is the set of matches the
    backtracking matcher searches; it says nothing about the order in
    which they are tried. *)
Inductive matches : regex -> cursor -> cursor -> Prop :=
| m_eps x : matches Eps x x
| m_chr p a passed ahead :
    p a = true -> matches (Chr p) (passed, a :: ahead) (a :: passed, ahead)
| m_seq r1 r2 x y z :
    matches r1 x y -> matches r2 y z -> matches (Seq r1 r2) x z
| m_alt_l r1 r2 x y : matches r1 x y -> matches (Alt r1 r2) x y
| m_alt_r r1 r2 x y : matches r2 x y -> matches (Alt r1 r2) x y
| m_star_stop r x : matches (Star r) x x
| m_star_more r x y z :
    matches r x y -> matches (Star r) y z -> matches (Star r) x z
| m_bol ahead : matches Bol ([], ahead) ([], ahead)
| m_eol passed : matches Eol (passed, []) (passed, [])
| m_wordb x :
    xorb (wordAt (fst x)) (wordAt (snd x)) = true -> matches Wordb x x
| m_grp n r x y : matches r x y -> matches (Grp n r) x y.

(** The position [n] code units further on. *)
Definition advance (n : nat) (x : cursor) : cursor :=
  (rev (firstn n (snd x)) ++ fst x, skipn n (snd x)).

(** *** Pattern syntax *)

Declare Scope re_scope.
Delimit Scope re_scope with re.
Bind Scope re_scope with regex.
Infix "++" := Seq (right associativity, at level 60) : re_scope.
Infix "<|>" := Alt (right associativity, at level 70) : re_scope.

Definition Plus (r : regex) : regex := Seq r (Star r).
Definition Opt (r : regex) : regex := Alt r Eps.

Definition ch (s : string) : regex := Chr (N.eqb (chr s)).

(** A character under the [i] flag. The patterns of this program are
    ASCII, and without the [u] flag a code unit above 127 never
    canonicalizes to an ASCII one, so ASCII upper-casing is exact. *)
Definition chi (c : N) : regex := Chr (fun a => N.eqb (upperA a) (upperA c)).

Fixpoint seqs (l : list regex) : regex :=
  match l with
  | [] => Eps
  | [r] => r
  | r :: l' => Seq r (seqs l')
  end.

Fixpoint alts (l : list regex) : regex :=
  match l with
  | [] => Eps
  | [r] => r
  | r :: l' => Alt r (alts l')
  end.

Definition lit (s : string) : regex := seqs (map (fun c => Chr (N.eqb c)) (str s)).
Definition liti (s : string) : regex := seqs (map chi (str s)).

Definition oneOf (s : string) : regex := Chr (fun a => existsb (N.eqb a) (str s)).
Definition oneOfi (s : string) : regex :=
  Chr (fun a => existsb (fun c => N.eqb (upperA a) (upperA c)) (str s)).
Definition codes (l : list N) : regex := Chr (fun a => existsb (N.eqb a) l).

Definition digit : regex := Chr isDigit.                    (* \d *)
Definition space : regex := Chr isWhiteSpace.               (* \s *)
Definition word : regex := Chr isWordChar.                  (* \w *)
Definition dot : regex := Chr notLineTerminator.              (* . *)
Definition upper : regex := Chr isUpper.                    (* [A-Z] *)
Definition lower : regex := Chr isLower.                    (* [a-z] *)
Definition colonOrSpace : regex :=                          (* [:\s] *)
  Chr (fun a => N.eqb a (chr ":") || isWhiteSpace a).

(* ------------------------------------------------------------------ *)
(** ** Pattern tables                                                  *)
(* ------------------------------------------------------------------ *)

Open Scope re_scope.

Definition HEADER_KEYWORDS : list jsstring :=
  map str
    ["Introduction"; "Conclusion"; "Conclusions"; "Summary"; "Overview";
     "Background"; "Methodology"; "Results"; "Discussion"; "Recommendations";
     "Next Steps"; "Appendix"; "References"; "Glossary"; "Final Summary";
     "Development Tools"; "Development tools"; "Major Focus Areas";
     "Key Findings"; "Executive Summary"; "Scope"; "Objectives"; "Purpose";
     "Requirements"; "Implementation"; "Architecture"; "Configuration";
     "Troubleshooting"; "Best Practices"; "Limitations"; "Future Work";
     "Acknowledgments"; "Prerequisites"; "Dependencies"; "Setup"; "Installation";
     "Working Model"; "Initial Project Phase"; "Project Phase"]%string.

(** [(are|were|is|was)] and [(are|were|is|was|included)] under the i flag. *)
Definition areWere : regex :=
  alts [liti "are"; liti "were"; liti "is"; liti "was"].
Definition areWereIncluded : regex :=
  alts [liti "are"; liti "were"; liti "is"; liti "was"; liti "included"].

(** [/<noun>s? (are|were|is|was|included)[:\s]/i] *)
Definition nounsAre (noun : string) : regex :=
  liti noun ++ Opt (chi (chr "s")) ++ ch " " ++ areWereIncluded ++ colonOrSpace.

Definition LIST_INTRO_PATTERNS : list regex :=
  [ (* /the following[:\s]/i *)
    liti "the following" ++ colonOrSpace;
    (* /as follows[:\s]/i *)
    liti "as follows" ++ colonOrSpace;
    (* /include[sd]?[:\s]/i *)
    liti "include" ++ Opt (oneOfi "sd") ++ colonOrSpace;
    (* /such as[:\s]/i *)
    liti "such as" ++ colonOrSpace;
    (* /for example[:\s]/i *)
    liti "for example" ++ colonOrSpace;
    (* /listed below[:\s]/i *)
    liti "listed below" ++ colonOrSpace;
    (* /steps? (are|were|is|was)[:\s]/i *)
    liti "step" ++ Opt (chi (chr "s")) ++ ch " " ++ areWere ++ colonOrSpace;
    (* /challenges? (are|were|is|was|included)[:\s]/i, and the same for
       characteristics, reasons, benefits, features, requirements and
       components *)
    nounsAre "challenge";
    nounsAre "characteristic";
    nounsAre "reason";
    nounsAre "benefit";
    nounsAre "feature";
    nounsAre "requirement";
    nounsAre "component";
    (* /:[:\s]*$/ *)
    ch ":" ++ Star colonOrSpace ++ Eol ].

Definition CODE_PATTERNS : list regex :=
  [ (* /^(SELECT|FROM|WHERE|INSERT|UPDATE|DELETE|CREATE|ALTER|DROP)\s/i *)
    Bol ++ alts (map liti ["SELECT"; "FROM"; "WHERE"; "INSERT"; "UPDATE";
                           "DELETE"; "CREATE"; "ALTER"; "DROP"]%string)
        ++ space;
    (* /\b(System\.debug|Console\.log|print\(|println\()/ *)
    Wordb ++ alts [lit "System.debug"; lit "Console.log"; lit "print(";
                   lit "println("];
    (* /\b(try\s*\{|catch\s*\(|finally\s*\{|if\s*\(|else\s*\{|for\s*\(|while\s*\()/ *)
    Wordb ++ alts [lit "try" ++ Star space ++ ch "{";
                   lit "catch" ++ Star space ++ ch "(";
                   lit "finally" ++ Star space ++ ch "{";
                   lit "if" ++ Star space ++ ch "(";
                   lit "else" ++ Star space ++ ch "{";
                   lit "for" ++ Star space ++ ch "(";
                   lit "while" ++ Star space ++ ch "("];
    (* /\b(new\s+\w+\s*\(|\.get\w+\s*\(|\.set\w+\s*\()/ *)
    Wordb ++ alts [lit "new" ++ Plus space ++ Plus word ++ Star space ++ ch "(";
                   lit ".get" ++ Plus word ++ Star space ++ ch "(";
                   lit ".set" ++ Plus word ++ Star space ++ ch "("];
    (* /^\s*(Id|String|Integer|Boolean|List<|Map<|Set<|var|let|const)\s+\w+\s*=/ *)
    Bol ++ Star space
        ++ alts (map lit ["Id"; "String"; "Integer"; "Boolean"; "List<";
                          "Map<"; "Set<"; "var"; "let"; "const"]%string)
        ++ Plus space ++ Plus word ++ Star space ++ ch "=";
    (* /(__c|__r|__mdt|__e)\b/ *)
    alts [lit "__c"; lit "__r"; lit "__mdt"; lit "__e"] ++ Wordb;
    (* /\b(Database\.|Schema\.|Apex|SOQL|SOSL)\b/i *)
    Wordb ++ alts [liti "Database."; liti "Schema."; liti "Apex";
                   liti "SOQL"; liti "SOSL"] ++ Wordb;
    (* /^\s*\}\s*(catch|finally|else)?\s*[\{]?\s*$/ *)
    Bol ++ Star space ++ ch "}" ++ Star space
        ++ Opt (alts [lit "catch"; lit "finally"; lit "else"])
        ++ Star space ++ Opt (ch "{") ++ Star space ++ Eol;
    (* /^\s*\/\/.*$/ *)
    Bol ++ Star space ++ lit "//" ++ Star dot ++ Eol;
    (* /^\s*\/\*.*\*\/\s*$/ *)
    Bol ++ Star space ++ lit "/*" ++ Star dot ++ lit "*/" ++ Star space ++ Eol;
    (* /^\s*\*\s/ *)
    Bol ++ Star space ++ ch "*" ++ space;
    (* /=>\s*\{/ *)
    lit "=>" ++ Star space ++ ch "{";
    (* /\bfunction\s*\(/ *)
    Wordb ++ lit "function" ++ Star space ++ ch "(";
    (* /\bclass\s+\w+/ *)
    Wordb ++ lit "class" ++ Plus space ++ Plus word;
    (* /\bimport\s+/ *)
    Wordb ++ lit "import" ++ Plus space;
    (* /\bexport\s+(default\s+)?/ *)
    Wordb ++ lit "export" ++ Plus space ++ Opt (lit "default" ++ Plus space);
    (* /^\s*@\w+/ *)
    Bol ++ Star space ++ ch "@" ++ Plus word;
    (* /\bSavepoint\b|\brollback\b/i *)
    (Wordb ++ liti "Savepoint" ++ Wordb) <|> (Wordb ++ liti "rollback" ++ Wordb);
    (* /\bDmlException\b|\bException\b/ *)
    (Wordb ++ lit "DmlException" ++ Wordb) <|> (Wordb ++ lit "Exception" ++ Wordb) ].

Definition BULLET_CONTENT_PATTERNS : list regex :=
  [ (* /^[A-Z][a-z]+ing\s/ *)
    Bol ++ upper ++ Plus lower ++ lit "ing" ++ space;
    (* /^[A-Z][a-z]+ed\s/ *)
    Bol ++ upper ++ Plus lower ++ lit "ed" ++ space;
    (* /^(How|What|When|Where|Why|Which)\s/i *)
    Bol ++ alts (map liti ["How"; "What"; "When"; "Where"; "Why"; "Which"]%string)
        ++ space;
    (* /^(The|A|An)\s+\w+\s+(was|were|is|are|has|have)\s/ *)
    Bol ++ alts [lit "The"; lit "A"; lit "An"] ++ Plus space ++ Plus word
        ++ Plus space
        ++ alts (map lit ["was"; "were"; "is"; "are"; "has"; "have"]%string)
        ++ space;
    (* /^(No|Missing|Incorrect|Invalid|Duplicate)\s/i *)
    Bol ++ alts (map liti ["No"; "Missing"; "Incorrect"; "Invalid";
                           "Duplicate"]%string) ++ space;
    (* /^(Enable|Disable|Configure|Set|Get|Create|Delete|Update|Review)\s/i *)
    Bol ++ alts (map liti ["Enable"; "Disable"; "Configure"; "Set"; "Get";
                           "Create"; "Delete"; "Update"; "Review"]%string)
        ++ space ].

(** The patterns written inline in the analyzers. *)

(* /^\d+\.\d+\.\d+\s+[A-Z]/, /^\d+\.\d+\s+[A-Z]/, /^\d+\.\s+[A-Z]/ *)
Definition reSection3 : regex :=
  Bol ++ Plus digit ++ ch "." ++ Plus digit ++ ch "." ++ Plus digit
      ++ Plus space ++ upper.
Definition reSection2 : regex :=
  Bol ++ Plus digit ++ ch "." ++ Plus digit ++ Plus space ++ upper.
Definition reSection1 : regex :=
  Bol ++ Plus digit ++ ch "." ++ Plus space ++ upper.

(* /^[A-Z]/ *)
Definition reCapital : regex := Bol ++ upper.

(* /^[\w\s]+:\s*[\w\s]+$/ *)
Definition wordOrSpace : regex := Chr (fun a => isWordChar a || isWhiteSpace a).
Definition reLabel : regex :=
  Bol ++ Plus wordOrSpace ++ ch ":" ++ Star space ++ Plus wordOrSpace ++ Eol.

(* /[{}\[\]();]/ *)
Definition reCodeChars : regex := oneOf "{}[]();".
(* /\b\w+\.\w+\(/ *)
Definition reMethodCall : regex :=
  Wordb ++ Plus word ++ ch "." ++ Plus word ++ ch "(".
(* = then \s* then a single quote (39) or a double quote (34) *)
Definition reStringAssign : regex := ch "=" ++ Star space ++ codes [39; 34]%N.
(* /=\s*\d+/ *)
Definition reNumberAssign : regex := ch "=" ++ Star space ++ Plus digit.
(* /blng__|SBQQ__|npsp__/ *)
Definition reSalesforce : regex := alts [lit "blng__"; lit "SBQQ__"; lit "npsp__"].
(* /^[\w_]+[,;]?$/ *)
Definition reFragment : regex := Bol ++ Plus word ++ Opt (oneOf ",;") ++ Eol.

(** Bullet glyphs: U+2022 bullet (8226), U+2023 (8227), U+25E6 (9702),
    U+2043 (8259), U+2219 (8729); 45 is the hyphen, 42 the asterisk. *)
(* /^[•\-\*•‣◦⁃∙]\s/ *)
Definition reBulletGlyph : regex :=
  Bol ++ codes [8226; 45; 42; 8226; 8227; 9702; 8259; 8729]%N ++ space.
(* /^(The|This|That|These|Those|It)\s/ *)
Definition reBodyStart : regex :=
  Bol ++ alts (map lit ["The"; "This"; "That"; "These"; "Those"; "It"]%string)
      ++ space.

(* /^\d+\.\d+\.\d+\s/, /^\d+\.\d+\s/, /^\d+\.\s/ *)
Definition reLevel3 : regex :=
  Bol ++ Plus digit ++ ch "." ++ Plus digit ++ ch "." ++ Plus digit ++ space.
Definition reLevel2 : regex :=
  Bol ++ Plus digit ++ ch "." ++ Plus digit ++ space.
Definition reLevel1 : regex := Bol ++ Plus digit ++ ch "." ++ space.
(* /^[a-z]\)\s/i *)
Definition reLetter : regex :=
  Bol ++ Chr (fun a => isUpper (upperA a)) ++ ch ")" ++ space.
(* /^[ivxIVX]+\.\s/ *)
Definition reRoman : regex := Bol ++ Plus (oneOf "ivxIVX") ++ ch "." ++ space.

(* /^(\d+)[.)]\s+(.+)/ *)
Definition reNumbered : regex :=
  Bol ++ Grp 1 (Plus digit) ++ oneOf ".)" ++ Plus space ++ Grp 2 (Plus dot).
(* /^[•\-\*•]\s*(.+)/ *)
Definition reBullet : regex :=
  Bol ++ codes [8226; 45; 42; 8226]%N ++ Star space ++ Grp 1 (Plus dot).
(* /^[◦‣⁃∙\-]\s*(.+)/ *)
Definition reSubBullet : regex :=
  Bol ++ codes [9702; 8227; 8259; 8729; 45]%N ++ Star space ++ Grp 1 (Plus dot).

Close Scope re_scope.

(* ------------------------------------------------------------------ *)
(** ** Content items                                                   *)
(* ------------------------------------------------------------------ *)

Inductive ItemType : Type :=
| heading1 | heading2 | heading3 | paragraph | bullet | numbered
| code_block | sub_bullet.

Definition ItemType_eqb (a b : ItemType) : bool :=
  match a, b with
  | heading1, heading1 | heading2, heading2 | heading3, heading3
  | paragraph, paragraph | bullet, bullet | numbered, numbered
  | code_block, code_block | sub_bullet, sub_bullet => true
  | _, _ => false
  end.

(** [interface ContentItem]: every field but [type] is optional. *)
Record ContentItem : Type := mkItem {
  type : ItemType;
  text : option jsstring;
  lines : option (list jsstring);
  number : option Z;
  confidence : option Z
}.

(** [{ ...item, type: t }] *)
Definition withType (item : ContentItem) (t : ItemType) : ContentItem :=
  {| type := t; text := text item; lines := lines item;
     number := number item; confidence := confidence item |}.

(** Truthiness of a string value that may be [null] or [undefined]. *)
Definition truthy (s : option jsstring) : bool :=
  match s with
  | Some (_ :: _) => true
  | _ => false
  end.

(** [if (cond) score += d] *)
Definition addIf (cond : bool) (d : Z) (score : Z) : Z :=
  if cond then (score + d)%Z else score.

(** What an iteration of a loop with early [return] leaves. *)
Inductive loopResult : Type :=
| Return (v : Z)
| Continue (score : Z).

Open Scope Z_scope.

(* ------------------------------------------------------------------ *)
(** ** Signal analyzers                                                *)
(* ------------------------------------------------------------------ *)

Section Classifier.

Context `{UnicodeCase}.

(** The [for (const keyword of HEADER_KEYWORDS)] loop of
    [analyzeHeaderProbability]. *)
Fixpoint keywordLoop (keywords : list jsstring) (trimmed : jsstring)
         (score : Z) : loopResult :=
  match keywords with
  | [] => Continue score
  | keyword :: rest =>
      if jseqb trimmed keyword then Return 90
      else if startsWith trimmed (keyword ++ str ":") then Return 85
      else
        let score := addIf (startsWith trimmed (keyword ++ str " ")) 20 score in
        let score :=
          addIf (includes (toLowerCase trimmed) (toLowerCase keyword)) 10 score in
        keywordLoop rest trimmed score
  end.

(** [capitalizedWords.length >= words.length * 0.7] compares an integer
    with a double; the product is at most 7n/10 and within an ulp of it,
    so the comparison is [7 * n <= 10 * c] on integers. *)
Definition analyzeHeaderProbability (text : jsstring)
           (prevText nextText : option jsstring) : Z :=
  let score := 0 in
  let trimmed := trim text in
  let score := addIf (jslength trimmed <? 80) 15 score in
  let score := addIf (jslength trimmed <? 50) 10 score in
  let score := addIf (150 <? jslength trimmed) (-30) score in
  if test reSection3 trimmed then 95
  else if test reSection2 trimmed then 95
  else if test reSection1 trimmed then 95
  else
    match keywordLoop HEADER_KEYWORDS trimmed score with
    | Return v => v
    | Continue score =>
        let words := split_ws trimmed in
        let capitalizedWords := filter (test reCapital) words in
        let score :=
          addIf ((2 <=? Z.of_nat (length words))
                 && (7 * Z.of_nat (length words)
                     <=? 10 * Z.of_nat (length capitalizedWords))) 15 score in
        let score :=
          addIf (negb (endsWith trimmed (str ".")) && negb (endsWith trimmed (str ",")))
                10 score in
        let score := addIf (endsWith trimmed (str ".")) (-15) score in
        let score :=
          addIf (match prevText with
                 | None => true
                 | Some p => jseqb (trim p) []
                 end) 10 score in
        let score :=
          addIf (match nextText with
                 | Some n => truthy nextText && (jslength trimmed * 2 <? jslength n)
                 | None => false
                 end) 10 score in
        let score :=
          addIf (test reLabel trimmed && (jslength trimmed <? 60)) 20 score in
        let score :=
          addIf (jseqb trimmed (toUpperCase trimmed) && (3 <? jslength trimmed)
                 && (jslength trimmed <? 50)) 15 score in
        Z.min score 100
    end.

(** [for (const pattern of CODE_PATTERNS) if (pattern.test(trimmed)) score += 30] *)
Fixpoint patternLoop (patterns : list regex) (d : Z) (trimmed : jsstring)
         (score : Z) : Z :=
  match patterns with
  | [] => score
  | pattern :: rest =>
      patternLoop rest d trimmed (addIf (test pattern trimmed) d score)
  end.

Definition analyzeCodeProbability (text : jsstring) (context : list jsstring) : Z :=
  let score := 0 in
  let trimmed := trim text in
  let score := patternLoop CODE_PATTERNS 30 trimmed score in
  let score :=
    addIf (startsWith text (str "    ") || startsWith text [9%N]) 20 score in
  let score := addIf (test reCodeChars trimmed) 15 score in
  let score := addIf (test reMethodCall trimmed) 15 score in
  let score := addIf (test reStringAssign trimmed) 10 score in
  let score := addIf (test reNumberAssign trimmed) 10 score in
  let score := addIf (test reSalesforce trimmed) 25 score in
  let score :=
    addIf ((jslength trimmed <? 30) && test reFragment trimmed) 15 score in
  let codeNeighbors :=
    length (filter (fun c => existsb (fun p => test p c) CODE_PATTERNS) context) in
  let score := addIf (2 <=? Z.of_nat codeNeighbors) 20 score in
  Z.min score 100.

Definition analyzeBulletProbability (text : jsstring) (prevText : option jsstring)
           (isAfterListIntro : bool) : Z :=
  let score := 0 in
  let trimmed := trim text in
  if test reBulletGlyph trimmed then 95
  else
    let score := addIf isAfterListIntro 40 score in
    let score :=
      addIf ((jslength trimmed <? 100) && (10 <? jslength trimmed)) 10 score in
    let score := patternLoop BULLET_CONTENT_PATTERNS 15 trimmed score in
    let score :=
      addIf (test reBodyStart trimmed && (80 <? jslength trimmed)) (-20) score in
    let score :=
      addIf (match prevText with
             | Some p => truthy prevText && (jslength p <? 100)
                         && (jslength trimmed <? 100)
             | None => false
             end) 10 score in
    let score :=
      addIf (negb (endsWith trimmed (str ".")) && (20 <? jslength trimmed)) 5 score in
    Z.min score 100.

Definition getHeadingLevel (text : jsstring) : option ItemType :=
  let trimmed := trim text in
  if test reLevel3 trimmed then Some heading3
  else if test reLevel2 trimmed then Some heading2
  else if test reLevel1 trimmed then Some heading1
  else if test reLetter trimmed then Some heading3
  else if test reRoman trimmed then Some heading2
  else None.

(* ------------------------------------------------------------------ *)
(** ** Post-processing                                                 *)
(* ------------------------------------------------------------------ *)

Definition lastOf {A : Type} (l : list A) : option A :=
  match rev l with
  | x :: _ => Some x
  | [] => None
  end.

Definition hasType (t : ItemType) (item : option ContentItem) : bool :=
  match item with
  | Some it => ItemType_eqb (type it) t
  | None => false
  end.

Definition textOrEmpty (item : ContentItem) : jsstring :=
  match text item with
  | Some s => s
  | None => []
  end.

Definition isListIntroText (s : jsstring) : bool :=
  existsb (fun p => test p s) LIST_INTRO_PATTERNS.

(** The decision taken for [item] in the body of the [for] loop:
    [prev] is the last element of [result] (absent when [i = 0]) and
    [next] is [content[i + 1]] (absent at the last index). *)
Definition postProcessItem (prev : option ContentItem) (item : ContentItem)
           (next : option ContentItem) : ContentItem :=
  if ItemType_eqb (type item) paragraph && truthy (text item)
     && (jslength (textOrEmpty item) <? 100)
  then
    if match prev with
       | Some p => truthy (text p) && isListIntroText (textOrEmpty p)
       | None => false
       end
    then withType item bullet
    else if hasType bullet prev && hasType bullet next
    then withType item bullet
    else item
  else item.

(** The [for] loop of [postProcessContent]: [content] is what remains
    from index [i] on, [result] what has been pushed; [result.length] is
    [i] throughout. *)
Fixpoint postProcessLoop (content result : list ContentItem) : list ContentItem :=
  match content with
  | [] => result
  | item :: rest =>
      postProcessLoop rest
        (result ++ [postProcessItem (lastOf result) item (hd_error rest)])
  end.

Definition postProcessContent (content : list ContentItem) : list ContentItem :=
  postProcessLoop content [].

(* ------------------------------------------------------------------ *)
(** ** The segmentation scan of [extractContent]                       *)
(* ------------------------------------------------------------------ *)

(** The variables of the [while] loop. *)
Record ScanState : Type := mkScan {
  scan_i : nat;
  numberedListCounter : Z;
  lastListIntroIndex : Z;
  content : list ContentItem
}.

Definition initialScan : ScanState :=
  {| scan_i := 0; numberedListCounter := 0; lastListIntroIndex := -10;
     content := [] |}.

(** [l.slice(a, b)] for [0 <= a] and [b <= l.length]. *)
Definition slice {A : Type} (l : list A) (a b : nat) : list A :=
  firstn (b - a) (skipn a l).

Definition subTopicKeywords : list jsstring :=
  map str ["Example"; "Screen"; "Step"; "Phase"; "Part"; "Section"; "Case";
           "Scenario"]%string.

(** The inner [while (j < nonEmptyLines.length)] loop: [ahead] holds the
    lines from index [j] on; the result is what is pushed on [codeLines]
    after the opening line. *)
Fixpoint collectCodeLines (context ahead : list jsstring) : list jsstring :=
  match ahead with
  | [] => []
  | nextLine :: ahead' =>
      let nextCodeProb := analyzeCodeProbability nextLine context in
      if (40 <=? nextCodeProb)
         || ((jslength nextLine <? 30)
             && match ahead' with
                | following :: _ => 50 <=? analyzeCodeProbability following context
                | [] => false
                end)
      then nextLine :: collectCodeLines context ahead'
      else []
  end.

Definition codeItem (codeLines : list jsstring) (codeProb : Z) : ContentItem :=
  {| type := code_block; text := None; lines := Some codeLines;
     number := None; confidence := Some codeProb |}.

Definition textItem (t : ItemType) (s : option jsstring) (conf : Z) : ContentItem :=
  {| type := t; text := s; lines := None; number := None;
     confidence := Some conf |}.

Definition numberedItem (s : option jsstring) (num : Z) : ContentItem :=
  {| type := numbered; text := s; lines := None; number := Some num;
     confidence := None |}.

(** One iteration of the [while (i < nonEmptyLines.length)] loop. Each
    [continue] of the source is a branch that returns the next state.
    The group [codeLines] is only looked at when [codeProb >= 60], as in
    the source, where it is collected under that test. *)
Definition scanStep (nonEmptyLines : list jsstring) (st : ScanState) : ScanState :=
  let i := scan_i st in
  let text := nth i nonEmptyLines [] in
  let prev := if (0 <? i)%nat then Some (nth (i - 1) nonEmptyLines []) else None in
  let next :=
    if (i <? length nonEmptyLines - 1)%nat
    then Some (nth (i + 1) nonEmptyLines []) else None in
  let context :=
    slice nonEmptyLines (Nat.max 0 (i - 3)) (Nat.min (length nonEmptyLines) (i + 4)) in
  let isListIntro := isListIntroText text in
  let lastListIntroIndex :=
    if isListIntro then Z.of_nat i else lastListIntroIndex st in
  let isAfterListIntro :=
    (Z.of_nat i - lastListIntroIndex <=? 5) && (lastListIntroIndex <? Z.of_nat i) in
  (* === CODE BLOCK DETECTION === *)
  let codeProb := analyzeCodeProbability text context in
  let codeLines := text :: collectCodeLines context (skipn (i + 1) nonEmptyLines) in
  if (60 <=? codeProb)
     && ((2 <=? Z.of_nat (length codeLines)) || (80 <=? codeProb))
  then mkScan (i + length codeLines) 0 lastListIntroIndex
              (content st ++ [codeItem codeLines codeProb])
  else
  (* === HEADER DETECTION === *)
  let headerProb := analyzeHeaderProbability text prev next in
  match getHeadingLevel text with
  | Some headingLevel =>
      mkScan (i + 1) 0 lastListIntroIndex
             (content st ++ [textItem headingLevel (Some text) 95])
  | None =>
  if 70 <=? headerProb
  then
    let level := heading1 in
    let level :=
      if existsb (fun k => startsWith text k) subTopicKeywords
      then heading2 else level in
    let level :=
      if (jslength text <? 30) && truthy prev
         && match prev with
            | Some p => 50 <=? analyzeHeaderProbability p None (Some text)
            | None => false
            end
      then heading3 else level in
    mkScan (i + 1) 0 lastListIntroIndex
           (content st ++ [textItem level (Some text) headerProb])
  else
  (* === NUMBERED LIST DETECTION === *)
  let numberedMatch := exec reNumbered text in
  match
    match numberedMatch with
    | Some groups =>
        match capture 1 groups with
        | Some digits =>
            let num := parseInt digits in
            if (num =? 1) || (num =? numberedListCounter st + 1)
            then Some (mkScan (i + 1) num lastListIntroIndex
                         (content st ++ [numberedItem (capture 2 groups) num]))
            else None
        | None => None
        end
    | None => None
    end
  with
  | Some st' => st'
  | None =>
  (* === BULLET DETECTION === *)
  let bulletProb := analyzeBulletProbability text prev isAfterListIntro in
  match exec reBullet text with
  | Some bulletMatch =>
      mkScan (i + 1) (numberedListCounter st) lastListIntroIndex
             (content st ++ [textItem bullet (capture 1 bulletMatch) 95])
  | None =>
  match
    match exec reSubBullet text with
    | Some subBulletMatch =>
        if (0 <? Z.of_nat (length (content st)))
           && hasType bullet (lastOf (content st))
        then Some (mkScan (i + 1) (numberedListCounter st) lastListIntroIndex
                     (content st ++ [textItem sub_bullet (capture 1 subBulletMatch) 90]))
        else None
    | None => None
    end
  with
  | Some st' => st'
  | None =>
  if (60 <=? bulletProb) && (jslength text <? 120)
  then mkScan (i + 1) (numberedListCounter st) lastListIntroIndex
              (content st ++ [textItem bullet (Some text) bulletProb])
  else
  (* === DEFAULT: PARAGRAPH === *)
  mkScan (i + 1) 0 lastListIntroIndex
         (content st ++ [textItem paragraph (Some text) (100 - headerProb - bulletProb)])
  end end end end.

(** The [while] loop, run for at most [fuel] iterations. *)
Fixpoint scanLoop (fuel : nat) (nonEmptyLines : list jsstring) (st : ScanState)
  : ScanState :=
  match fuel with
  | O => st
  | S fuel' =>
      if (scan_i st <? length nonEmptyLines)%nat
      then scanLoop fuel' nonEmptyLines (scanStep nonEmptyLines st)
      else st
  end.

(** [lines.map(...).filter(l => l.text !== '')]: the trimmed lines that
    are not empty. Of the three fields of an element only [text] is read
    by the scan. *)
Definition nonEmptyLinesOf (lines : list jsstring) : list jsstring :=
  filter (fun l => negb (jseqb l [])) (map trim lines).

(** The items pushed by the scan, before post-processing. Every
    iteration advances [i], so [length nonEmptyLines] iterations are
    enough (see [scanLoop_enough_fuel]). *)
Definition scanContent (nonEmptyLines : list jsstring) : list ContentItem :=
  content (scanLoop (length nonEmptyLines) nonEmptyLines initialScan).

(** [extractContent], from [lines] on: the lines that [parseHtmlToLines]
    or, failing the HTML conversion, the split of the raw text gave. *)
Definition extractContent (lines : list jsstring) : list ContentItem :=
  postProcessContent (scanContent (nonEmptyLinesOf lines)).

(** *** The scan as a step relation

    The quantities an iteration computes from the cursor, named so that
    statements can refer to them. *)

Definition lineAt (nonEmptyLines : list jsstring) (i : nat) : jsstring :=
  nth i nonEmptyLines [].

Definition prevOf (nonEmptyLines : list jsstring) (i : nat) : option jsstring :=
  if (0 <? i)%nat then Some (nth (i - 1) nonEmptyLines []) else None.

Definition nextOf (nonEmptyLines : list jsstring) (i : nat) : option jsstring :=
  if (i <? length nonEmptyLines - 1)%nat
  then Some (nth (i + 1) nonEmptyLines []) else None.

Definition contextAt (nonEmptyLines : list jsstring) (i : nat) : list jsstring :=
  slice nonEmptyLines (Nat.max 0 (i - 3)) (Nat.min (length nonEmptyLines) (i + 4)).

Definition introIndex (nonEmptyLines : list jsstring) (st : ScanState) : Z :=
  if isListIntroText (lineAt nonEmptyLines (scan_i st))
  then Z.of_nat (scan_i st) else lastListIntroIndex st.

Definition afterListIntro (nonEmptyLines : list jsstring) (st : ScanState) : bool :=
  (Z.of_nat (scan_i st) - introIndex nonEmptyLines st <=? 5)
  && (introIndex nonEmptyLines st <? Z.of_nat (scan_i st)).

(** The code-probability of the line at [i], the opening line of a
    would-be block, and the group the inner loop collects from it. *)
Definition codeProbAt (nonEmptyLines : list jsstring) (i : nat) : Z :=
  analyzeCodeProbability (lineAt nonEmptyLines i) (contextAt nonEmptyLines i).

Definition codeGroupAt (nonEmptyLines : list jsstring) (i : nat) : list jsstring :=
  lineAt nonEmptyLines i
  :: collectCodeLines (contextAt nonEmptyLines i) (skipn (i + 1) nonEmptyLines).

Definition codeCommitted (nonEmptyLines : list jsstring) (i : nat) : bool :=
  (60 <=? codeProbAt nonEmptyLines i)
  && ((2 <=? Z.of_nat (length (codeGroupAt nonEmptyLines i)))
      || (80 <=? codeProbAt nonEmptyLines i)).

Definition headerProbAt (nonEmptyLines : list jsstring) (i : nat) : Z :=
  analyzeHeaderProbability (lineAt nonEmptyLines i) (prevOf nonEmptyLines i)
                           (nextOf nonEmptyLines i).

Definition bulletProbAt (nonEmptyLines : list jsstring) (st : ScanState) : Z :=
  analyzeBulletProbability (lineAt nonEmptyLines (scan_i st))
                           (prevOf nonEmptyLines (scan_i st))
                           (afterListIntro nonEmptyLines st).

(** The level chosen by the header-probability rule. *)
Definition scoredLevel (text : jsstring) (prev : option jsstring) : ItemType :=
  if (jslength text <? 30) && truthy prev
     && match prev with
        | Some p => 50 <=? analyzeHeaderProbability p None (Some text)
        | None => false
        end
  then heading3
  else if existsb (fun k => startsWith text k) subTopicKeywords
  then heading2 else heading1.

(** The numbered-list rule: the number and the text it emits, if it fires. *)
Definition numberedHit (text : jsstring) (counter : Z) : option (Z * option jsstring) :=
  match exec reNumbered text with
  | Some groups =>
      match capture 1 groups with
      | Some digits =>
          if (parseInt digits =? 1) || (parseInt digits =? counter + 1)
          then Some (parseInt digits, capture 2 groups) else None
      | None => None
      end
  | None => None
  end.

(** The sub-bullet rule: the text it emits, if it fires. *)
Definition subBulletHit (text : jsstring) (content : list ContentItem)
  : option (option jsstring) :=
  match exec reSubBullet text with
  | Some groups =>
      if (0 <? Z.of_nat (length content)) && hasType bullet (lastOf content)
      then Some (capture 1 groups) else None
  | None => None
  end.

(** One iteration seen from outside: which rule fired, under which
    guards, and the state it leaves. The rules are tried in the order of
    the constructors. *)
Inductive ScanStep (nl : list jsstring) (st : ScanState) : ScanState -> Prop :=
| step_code :
    codeCommitted nl (scan_i st) = true ->
    ScanStep nl st
      (mkScan (scan_i st + length (codeGroupAt nl (scan_i st))) 0 (introIndex nl st)
         (content st ++ [codeItem (codeGroupAt nl (scan_i st)) (codeProbAt nl (scan_i st))]))
| step_heading (headingLevel : ItemType) :
    codeCommitted nl (scan_i st) = false ->
    getHeadingLevel (lineAt nl (scan_i st)) = Some headingLevel ->
    ScanStep nl st
      (mkScan (scan_i st + 1) 0 (introIndex nl st)
         (content st ++ [textItem headingLevel (Some (lineAt nl (scan_i st))) 95]))
| step_header :
    codeCommitted nl (scan_i st) = false ->
    getHeadingLevel (lineAt nl (scan_i st)) = None ->
    70 <= headerProbAt nl (scan_i st) ->
    ScanStep nl st
      (mkScan (scan_i st + 1) 0 (introIndex nl st)
         (content st ++ [textItem (scoredLevel (lineAt nl (scan_i st)) (prevOf nl (scan_i st)))
                           (Some (lineAt nl (scan_i st))) (headerProbAt nl (scan_i st))]))
| step_numbered (num : Z) (rest : option jsstring) :
    codeCommitted nl (scan_i st) = false ->
    getHeadingLevel (lineAt nl (scan_i st)) = None ->
    headerProbAt nl (scan_i st) < 70 ->
    numberedHit (lineAt nl (scan_i st)) (numberedListCounter st) = Some (num, rest) ->
    ScanStep nl st
      (mkScan (scan_i st + 1) num (introIndex nl st)
         (content st ++ [numberedItem rest num]))
| step_bullet (bulletMatch : captures) :
    codeCommitted nl (scan_i st) = false ->
    getHeadingLevel (lineAt nl (scan_i st)) = None ->
    headerProbAt nl (scan_i st) < 70 ->
    numberedHit (lineAt nl (scan_i st)) (numberedListCounter st) = None ->
    exec reBullet (lineAt nl (scan_i st)) = Some bulletMatch ->
    ScanStep nl st
      (mkScan (scan_i st + 1) (numberedListCounter st) (introIndex nl st)
         (content st ++ [textItem bullet (capture 1 bulletMatch) 95]))
| step_sub_bullet (stripped : option jsstring) :
    codeCommitted nl (scan_i st) = false ->
    getHeadingLevel (lineAt nl (scan_i st)) = None ->
    headerProbAt nl (scan_i st) < 70 ->
    numberedHit (lineAt nl (scan_i st)) (numberedListCounter st) = None ->
    exec reBullet (lineAt nl (scan_i st)) = None ->
    subBulletHit (lineAt nl (scan_i st)) (content st) = Some stripped ->
    ScanStep nl st
      (mkScan (scan_i st + 1) (numberedListCounter st) (introIndex nl st)
         (content st ++ [textItem sub_bullet stripped 90]))
| step_inferred :
    codeCommitted nl (scan_i st) = false ->
    getHeadingLevel (lineAt nl (scan_i st)) = None ->
    headerProbAt nl (scan_i st) < 70 ->
    numberedHit (lineAt nl (scan_i st)) (numberedListCounter st) = None ->
    exec reBullet (lineAt nl (scan_i st)) = None ->
    subBulletHit (lineAt nl (scan_i st)) (content st) = None ->
    60 <= bulletProbAt nl st ->
    jslength (lineAt nl (scan_i st)) < 120 ->
    ScanStep nl st
      (mkScan (scan_i st + 1) (numberedListCounter st) (introIndex nl st)
         (content st ++ [textItem bullet (Some (lineAt nl (scan_i st))) (bulletProbAt nl st)]))
| step_paragraph :
    codeCommitted nl (scan_i st) = false ->
    getHeadingLevel (lineAt nl (scan_i st)) = None ->
    headerProbAt nl (scan_i st) < 70 ->
    numberedHit (lineAt nl (scan_i st)) (numberedListCounter st) = None ->
    exec reBullet (lineAt nl (scan_i st)) = None ->
    subBulletHit (lineAt nl (scan_i st)) (content st) = None ->
    bulletProbAt nl st < 60 \/ 120 <= jslength (lineAt nl (scan_i st)) ->
    ScanStep nl st
      (mkScan (scan_i st + 1) 0 (introIndex nl st)
         (content st ++ [textItem paragraph (Some (lineAt nl (scan_i st)))
                           (100 - headerProbAt nl (scan_i st) - bulletProbAt nl st)])).

End Classifier.

Close Scope Z_scope.

(** Expanding an item into the lines it holds. *)
Definition flattenItem (item : ContentItem) : list jsstring :=
  match type item with
  | code_block => match lines item with Some ls => ls | None => [] end
  | _ => match text item with Some s => [s] | None => [] end
  end.

Definition flatten (items : list ContentItem) : list jsstring :=
  flat_map flattenItem items.

Definition isHeading (t : ItemType) : Prop :=
  t = heading1 \/ t = heading2 \/ t = heading3.

(** The lines an item was made from. A code block holds its lines, at
    least one. Every other item holds one line: a heading, a paragraph
    or an inferred bullet has it as its text; a bullet or a sub-bullet
    made from a marked line has the line without its glyph; a numbered
    item has the line without its numeral. *)
Inductive Holds : list jsstring -> ContentItem -> Prop :=
| holds_code ls item :
    type item = code_block -> lines item = Some ls -> ls <> [] -> Holds ls item
| holds_line line item :
    isHeading (type item) \/ type item = paragraph \/ type item = bullet ->
    text item = Some line -> Holds [line] item
| holds_bullet line item :
    type item = bullet \/ type item = sub_bullet ->
    text item = Some (stripBullet line) -> Holds [line] item
| holds_numbered line item :
    type item = numbered ->
    text item = Some (stripNumbered line) -> Holds [line] item.

(** The items hold the lines, each line in one item, in order. *)
Inductive Covers : list jsstring -> list ContentItem -> Prop :=
| covers_nil : Covers [] []
| covers_cons ls rest item items :
    Holds ls item -> Covers rest items -> Covers (ls ++ rest) (item :: items).

(** What the flattened output shows of a line: the line itself, or the
    line without its bullet glyph or its numeral. *)
Definition carries (line t : jsstring) : Prop :=
  t = line \/ t = stripBullet line \/ t = stripNumbered line.

(** The lines before the cursor are the ones the output holds. *)
Definition Covered (nl : list jsstring) (st : ScanState) : Prop :=
  scan_i st <= length nl /\ Covers (firstn (scan_i st) nl) (content st).

(** *** What an item keeps of its line *)

(** The text an item of type [t] made from [line] has. A heading and a
    paragraph have the line. The marker rules push a capture group of
    their pattern: [numberedMatch[2]], [bulletMatch[1]],
    [subBulletMatch[1]]. A bullet on a line the bullet pattern does not
    match is an inferred bullet, and has the line. There is no numbered
    item and no sub-bullet on a line their pattern does not match. For
    [code_block] this is the entry of one line of the block. *)
Definition entryOf (t : ItemType) (line : jsstring) : option jsstring :=
  match t with
  | numbered =>
      match exec reNumbered line with
      | Some numberedMatch => capture 2 numberedMatch
      | None => None
      end
  | bullet =>
      match exec reBullet line with
      | Some bulletMatch => capture 1 bulletMatch
      | None => Some line
      end
  | sub_bullet =>
      match exec reSubBullet line with
      | Some subBulletMatch => capture 1 subBulletMatch
      | None => None
      end
  | _ => Some line
  end.

(** The lines an item was made from, and exactly what it keeps of them:
    a code block has the lines of its group, at least one, unchanged; any
    other item was made from one line and its text is the entry of that
    line for its type. *)
Inductive Keeps : list jsstring -> ContentItem -> Prop :=
| keeps_code ls item :
    type item = code_block -> lines item = Some ls -> ls <> [] -> Keeps ls item
| keeps_text line entry item :
    type item <> code_block ->
    entryOf (type item) line = Some entry -> text item = Some entry ->
    Keeps [line] item.

(** What the scan knows on top of that: the line of a paragraph is not
    matched by the bullet pattern, so that the paragraph can become an
    inferred bullet in the corrective pass. *)
Definition KeepsPlain (ls : list jsstring) (item : ContentItem) : Prop :=
  Keeps ls item
  /\ (type item = paragraph -> Forall (fun line => exec reBullet line = None) ls).

(** The lines are cut into consecutive groups, one for each item, and
    each item is related to its group by [R]. *)
Inductive Partition (R : list jsstring -> ContentItem -> Prop)
  : list jsstring -> list ContentItem -> Prop :=
| partition_nil : Partition R [] []
| partition_cons ls rest item items :
    R ls item -> Partition R rest items ->
    Partition R (ls ++ rest) (item :: items).

(** The type of the item that holds it, for each entry of the flattened
    output. *)
Definition lineTypes (items : list ContentItem) : list ItemType :=
  flat_map (fun item => map (fun _ => type item) (flattenItem item)) items.

(** The entries the lines [nl] give when the line at [k] is held by an
    item of type [types[k]]. *)
Definition entriesOf (types : list ItemType) (nl : list jsstring)
  : list (option jsstring) :=
  map (fun p => entryOf (fst p) (snd p)) (combine types nl).

(** The glyphs of the bullet pattern and of the sub-bullet pattern. *)
Definition bulletGlyphs : list N := [8226; 45; 42; 8226]%N.
Definition subBulletGlyphs : list N := [9702; 8227; 8259; 8729; 45]%N.

(** The line is a glyph of [glyphs] and something more, and [entry] is
    what follows the glyph and the white space after it, up to the first
    line terminator. *)
Definition MarkerRemoved (glyphs : list N) (line entry : jsstring) : Prop :=
  exists glyph rest,
    line = glyph :: rest /\ existsb (N.eqb glyph) glyphs = true /\ rest <> []
    /\ entry = afterMarker rest.

(** The entries, spelled out on the code units of the line. *)
Definition EntryShape (t : ItemType) (line entry : jsstring) : Prop :=
  match t with
  | numbered =>
      exists digits p w rest,
        line = digits ++ p :: w :: rest /\ digits <> []
        /\ forallb isDigit digits = true
        /\ (p = chr "." \/ p = chr ")") /\ isWhiteSpace w = true
        /\ entry = afterMarker (w :: rest)
  | bullet =>
      MarkerRemoved bulletGlyphs line entry
      \/ (entry = line
          /\ forall glyph rest,
               line = glyph :: rest ->
               existsb (N.eqb glyph) bulletGlyphs = false \/ rest = [])
  | sub_bullet => MarkerRemoved subBulletGlyphs line entry
  | _ => entry = line
  end.

(** *** The lines the scan reaches *)

(** An iteration of the loop starts at line [i]: the cursor is there
    after [k] iterations, for some [k]. *)
Definition Reached `{UnicodeCase} (nl : list jsstring) (i : nat) : Prop :=
  exists k, scan_i (scanLoop k nl initialScan) = i.

(** Line [i] is inside the code block committed at an earlier line, which
    the scan reached. *)
Definition Absorbed `{UnicodeCase} (nl : list jsstring) (i : nat) : Prop :=
  exists k,
    codeCommitted nl (scan_i (scanLoop k nl initialScan)) = true
    /\ scan_i (scanLoop k nl initialScan) < i
       < scan_i (scanLoop k nl initialScan)
         + length (codeGroupAt nl (scan_i (scanLoop k nl initialScan))).

(** The numeric prefix of a section title and the level it stands for:
    [N.N.N Capital] is level 3, [N.N Capital] level 2, [N. Capital]
    level 1. *)
Definition NumericPrefix (text : jsstring) (level : ItemType) : Prop :=
  test reSection3 text = true /\ level = heading3
  \/ test reSection2 text = true /\ level = heading2
  \/ test reSection1 text = true /\ level = heading1.

(** *** The conditions of the post-processing pass *)

(** A paragraph with a non-empty text of fewer than 100 code units. *)
Definition shortParagraph (item : ContentItem) : bool :=
  ItemType_eqb (type item) paragraph && truthy (text item)
  && (jslength (textOrEmpty item) <? 100)%Z.

(** The item has a text and the text matches a list-introduction pattern. *)
Definition introducesList (item : option ContentItem) : bool :=
  match item with
  | Some p => truthy (text p) && isListIntroText (textOrEmpty p)
  | None => false
  end.

(** The item at [k - 1], if there is one. *)
Definition before {A : Type} (l : list A) (k : nat) : option A :=
  match k with
  | O => None
  | S j => nth_error l j
  end.

(** What the pass may do to one item. *)
Definition Retyped (item item' : ContentItem) : Prop :=
  item' = item \/ (type item = paragraph /\ item' = withType item bullet).

(** *** Properties of item sequences *)

Definition Bulleted (item : ContentItem) : Prop :=
  type item = bullet \/ type item = sub_bullet.

(** Every sub-bullet comes right after a bullet. *)
Definition SubBulletsFollowBullets (items : list ContentItem) : Prop :=
  forall k item,
    nth_error items k = Some item -> type item = sub_bullet ->
    exists p, 0 < k /\ nth_error items (k - 1) = Some p /\ type p = bullet.

(** The numbered item at [j] holds [c] and only bullets and sub-bullets
    come after it. *)
Definition CounterTrace (items : list ContentItem) (c : Z) : Prop :=
  exists j p,
    nth_error items j = Some p /\ type p = numbered /\ number p = Some c
    /\ forall m q, j < m -> nth_error items m = Some q -> Bulleted q.

(** Every numbered item holds 1, or one more than the numbered item
    before it, from which only bullets and sub-bullets separate it. *)
Definition WellNumbered (items : list ContentItem) : Prop :=
  forall k item,
    nth_error items k = Some item -> type item = numbered ->
    exists n,
      number item = Some n
      /\ (n = 1%Z
          \/ exists j p,
               j < k /\ nth_error items j = Some p /\ type p = numbered
               /\ number p = Some (n - 1)%Z
               /\ forall m q, j < m < k -> nth_error items m = Some q -> Bulleted q).

(** The numbering the specification describes: in each run of consecutive
    numbered items the numbers are 1, 2, 3, ...; [prev] is the number of
    the item just before, if that item is numbered. *)
Fixpoint countsFromOne (prev : option Z) (items : list ContentItem) : bool :=
  match items with
  | [] => true
  | item :: rest =>
      match type item with
      | numbered =>
          match number item with
          | Some n =>
              Z.eqb n (match prev with Some p => p + 1 | None => 1 end)%Z
              && countsFromOne (Some n) rest
          | None => false
          end
      | _ => countsFromOne None rest
      end
  end.


(** What the scan knows about its numbered-run counter. *)
Definition NumberingInv (st : ScanState) : Prop :=
  WellNumbered (content st)
  /\ (numberedListCounter st = 0%Z \/ CounterTrace (content st) (numberedListCounter st)).

(* ------------------------------------------------------------------ *)
(** ** Global replacement                                              *)
(* ------------------------------------------------------------------ *)

(** The length of the match of [r] that starts at the position, if there
    is one: the length of capture 0, the whole match. *)
Definition matchLength (r : regex) (passed ahead : list N) : option nat :=
  match rmatch (Grp 0 r) (passed, ahead) [] accept with
  | Some groups =>
      match capture 0 groups with
      | Some m => Some (length m)
      | None => None
      end
  | None => None
  end.

(** [s.replace(r, replacement)] for a pattern with the [g] flag and a
    replacement without [$]: the subject is read from the left; [skip]
    counts the code units still inside the last match. Where the pattern
    matches, the replacement is written and the match is passed over;
    after an empty match the code unit at the position is kept and the
    search resumes one further on. *)
Fixpoint replaceScan (r : regex) (replacement : jsstring) (skip : nat)
         (passed ahead : list N) {struct ahead} : jsstring :=
  match skip with
  | S k =>
      match ahead with
      | [] => []
      | a :: rest => replaceScan r replacement k (a :: passed) rest
      end
  | O =>
      match matchLength r passed ahead with
      | Some m =>
          replacement
          ++ match ahead with
             | [] => []
             | a :: rest =>
                 (if Nat.eqb m 0 then [a] else [])
                 ++ replaceScan r replacement (m - 1) (a :: passed) rest
             end
      | None =>
          match ahead with
          | [] => []
          | a :: rest => a :: replaceScan r replacement 0 (a :: passed) rest
          end
      end
  end.

Definition replaceAll (r : regex) (replacement : jsstring) (s : jsstring)
  : jsstring :=
  replaceScan r replacement 0 [] s.

(** A lazy [r*?] on a subject of at most [n] code units, for a body that
    consumes at least one: the shortest run is tried first, and no run
    has more than [n] iterations. *)
Fixpoint lazyStar (n : nat) (r : regex) : regex :=
  match n with
  | O => Eps
  | S n' => Alt Eps (Seq r (lazyStar n' r))
  end.

(** [s.split(sep)] for a separator of one code unit; [cur] is the piece
    being read, reversed. *)
Fixpoint splitAt (sep : N) (s cur : jsstring) : list jsstring :=
  match s with
  | [] => [rev cur]
  | c :: s' =>
      if N.eqb c sep then rev cur :: splitAt sep s' []
      else splitAt sep s' (c :: cur)
  end.

(** [s.split('\n')] *)
Definition splitLines (s : jsstring) : list jsstring := splitAt 10%N s [].

(* ------------------------------------------------------------------ *)
(** ** From HTML to lines: [parseHtmlToLines]                          *)
(* ------------------------------------------------------------------ *)

Open Scope re_scope.

Definition notGt : regex := Chr (fun a => negb (N.eqb a (chr ">"))).  (* [^>] *)
Definition anyUnit : regex := Chr (fun _ => true).                   (* [\s\S] *)

(* (p|div|h[1-6]|li|tr|br) under the i flag *)
Definition blockName : regex :=
  alts [liti "p"; liti "div";
        chi (chr "h") ++ Chr (fun a => (49 <=? a) && (a <=? 54))%N;
        liti "li"; liti "tr"; liti "br"].

(* /<script[^>]*>[\s\S]*?<\/script>/gi on a subject of n code units *)
Definition reScript (n : nat) : regex :=
  liti "<script" ++ Star notGt ++ ch ">" ++ lazyStar n anyUnit ++ liti "</script>".
(* /<style[^>]*>[\s\S]*?<\/style>/gi *)
Definition reStyle (n : nat) : regex :=
  liti "<style" ++ Star notGt ++ ch ">" ++ lazyStar n anyUnit ++ liti "</style>".
(* /<\/(p|div|h[1-6]|li|tr|br)[^>]*>/gi *)
Definition reCloseBlock : regex := lit "</" ++ blockName ++ Star notGt ++ ch ">".
(* /<(p|div|h[1-6]|li|tr|br)[^>]*>/gi *)
Definition reOpenBlock : regex := ch "<" ++ blockName ++ Star notGt ++ ch ">".
(* /<li[^>]*>/gi *)
Definition reListItem : regex := ch "<" ++ liti "li" ++ Star notGt ++ ch ">".
(* /<[^>]+>/g *)
Definition reTag : regex := ch "<" ++ Plus notGt ++ ch ">".

Close Scope re_scope.

(** The line feed, and the marker written for a list item: a line feed,
    the bullet U+2022 and a space. *)
Definition LF : jsstring := [10%N].
Definition listItemMarker : jsstring := [10; 8226; 32]%N.

(** The steps of [parseHtmlToLines], in the order of the source. *)

(** Scripts and styles are removed. *)
Definition removeScripts (html : jsstring) : jsstring :=
  let cleaned := replaceAll (reScript (length html)) [] html in
  replaceAll (reStyle (length cleaned)) [] cleaned.

(** Closing, then opening tags of block elements become line feeds. *)
Definition breakBlocks (cleaned : jsstring) : jsstring :=
  let cleaned := replaceAll reCloseBlock LF cleaned in
  replaceAll reOpenBlock LF cleaned.

(** What is left of the [<li>] tags becomes a bullet marker. *)
Definition markListItems (cleaned : jsstring) : jsstring :=
  replaceAll reListItem listItemMarker cleaned.

(** The remaining tags are removed. *)
Definition removeTags (cleaned : jsstring) : jsstring :=
  replaceAll reTag [] cleaned.

(** The six entities are decoded, [&amp;] first. *)
Definition decodeEntities (cleaned : jsstring) : jsstring :=
  let cleaned := replaceAll (lit "&amp;") (str "&") cleaned in
  let cleaned := replaceAll (lit "&lt;") (str "<") cleaned in
  let cleaned := replaceAll (lit "&gt;") (str ">") cleaned in
  let cleaned := replaceAll (lit "&quot;") [34%N] cleaned in
  let cleaned := replaceAll (lit "&#39;") [39%N] cleaned in
  replaceAll (lit "&nbsp;") (str " ") cleaned.

(** [cleaned.split('\n').map(l => l.trim()).filter(l => l)] *)
Definition parseHtmlToLines (html : jsstring) : list jsstring :=
  let cleaned :=
    decodeEntities (removeTags (markListItems (breakBlocks (removeScripts html)))) in
  filter (fun l => negb (jseqb l [])) (map trim (splitLines cleaned)).

(** What the two conversions of the document library give for a file:
    the HTML, unless the conversion throws, and the raw text. *)
Record DocxFile : Type := mkFile {
  convertToHtml : option jsstring;
  extractRawText : jsstring
}.

(** The [lines] of [extractContent]: parsed from the HTML, or cut from
    the raw text when the HTML conversion failed. *)
Definition linesOfFile (file : DocxFile) : list jsstring :=
  match convertToHtml file with
  | Some html => parseHtmlToLines html
  | None => splitLines (extractRawText file)
  end.

(** [extractContent(file)] *)
Definition extractContentOfFile `{UnicodeCase} (file : DocxFile)
  : list ContentItem :=
  extractContent (linesOfFile file).

(** Every match of the pattern starts with a code unit of the class [p]. *)
Fixpoint StartsWith (p : N -> bool) (r : regex) : Prop :=
  match r with
  | Chr q => forall a, q a = true -> p a = true
  | Seq r1 _ => StartsWith p r1
  | Alt r1 r2 => StartsWith p r1 /\ StartsWith p r2
  | Grp _ r1 => StartsWith p r1
  | _ => False
  end.

(** The code units that start a tag or an entity: [<] and [&]. *)
Definition isMarkup (c : N) : bool := N.eqb c 60 || N.eqb c 38.

(** A [<li] (in either case) with a [>] somewhere after it is ahead. *)
Definition listItemAhead (s : list N) : bool :=
  match s with
  | a :: l :: i :: rest =>
      N.eqb a 60 && N.eqb (upperA l) 76 && N.eqb (upperA i) 73
      && existsb (N.eqb 62) rest
  | _ => false
  end%N.

(** No position of the string is the start of an [<li...>] tag. *)
Fixpoint noListItemTag (s : list N) : bool :=
  match s with
  | [] => true
  | _ :: s' => negb (listItemAhead s) && noListItemTag s'
  end.

(** Any code unit but [&]. *)
Definition noAmp (c : N) : bool := negb (N.eqb 38 c).

(** The entities decoded after [&amp;]: what follows the [&], and the
    code unit the entity stands for. *)
Definition laterEntities : list (jsstring * N) :=
  [(str "lt;", 60); (str "gt;", 62); (str "quot;", 34); (str "#39;", 39);
   (str "nbsp;", 32)]%N.

(** *** HTML as texts and tags

    An HTML source cut into its texts and its tags: [TagSeg body] is the
    tag [<body>], so the body of [</p>] is [/p] and the body of
    [<a href=x>] is [a href=x]. *)
Inductive Segment : Type :=
| TextSeg (a : jsstring)
| TagSeg (body : jsstring).

Definition segmentString (seg : Segment) : jsstring :=
  match seg with
  | TextSeg a => a
  | TagSeg body => 60%N :: body ++ [62%N]
  end.

Definition htmlOf (segs : list Segment) : jsstring := flat_map segmentString segs.

(** [s] starts with [p], the case of ASCII letters ignored. *)
Fixpoint startsWithFold (s p : jsstring) : bool :=
  match p, s with
  | [], _ => true
  | c :: p', d :: s' => N.eqb (upperA d) (upperA c) && startsWithFold s' p'
  | _ :: _, [] => false
  end.

(** The pattern [(p|div|h[1-6]|li|tr|br)] matches at the start of [name]. *)
Definition blockAt (name : jsstring) : bool :=
  match rmatch blockName ([], name) [] accept with
  | Some _ => true
  | None => false
  end.

(** The tag opens or closes a block element, as the two block patterns
    see it: its name, after the [/] of a closing tag, starts with one of
    the block names. *)
Definition isBlockTag (body : jsstring) : bool :=
  blockAt body
  || match body with
     | c :: name => N.eqb c 47 && blockAt name
     | [] => false
     end.

(** What is left of a segment: a text stays, a block tag becomes a line
    feed, any other tag goes. *)
Definition renderSegment (seg : Segment) : jsstring :=
  match seg with
  | TextSeg a => a
  | TagSeg body => if isBlockTag body then LF else []
  end.

(** A tag body: not empty, without [<] and [>], and not the start of a
    script or a style element. *)
Definition bodyOk (body : jsstring) : bool :=
  negb (jseqb body [])
  && forallb (fun c => negb (N.eqb c 60) && negb (N.eqb c 62)) body
  && negb (startsWithFold body (str "script"))
  && negb (startsWithFold body (str "style")).

(** A text without [<] and [&], or a tag with such a body. *)
Definition segmentOk (seg : Segment) : bool :=
  match seg with
  | TextSeg a => forallb (fun c => negb (isMarkup c)) a
  | TagSeg body => bodyOk body
  end.

(** What one replacement does to a segment, when [decide] tells which
    tags the pattern matches. *)
Definition replaceTag (decide : jsstring -> bool) (replacement : jsstring)
           (seg : Segment) : Segment :=
  match seg with
  | TextSeg a => TextSeg a
  | TagSeg body => if decide body then TextSeg replacement else TagSeg body
  end.

(** The pattern has no anchor and every code unit it consumes is of the
    class [q]. *)
Fixpoint Consumes (q : N -> bool) (r : regex) : Prop :=
  match r with
  | Eps => True
  | Chr p => forall a, p a = true -> q a = true
  | Seq r1 r2 | Alt r1 r2 => Consumes q r1 /\ Consumes q r2
  | Star r1 | Grp _ r1 => Consumes q r1
  | Bol | Eol | Wordb => False
  end.

Definition notGtUnit (c : N) : bool := negb (N.eqb c 62).

(* ------------------------------------------------------------------ *)
(** ** The file name of the download                                   *)
(* ------------------------------------------------------------------ *)

(* /[^\w\s-]/g *)
Definition reUnsafe : regex :=
  Chr (fun a => negb (isWordChar a || isWhiteSpace a || N.eqb a 45)).

(** [docTitle.replace(/[^\w\s-]/g, '').replace(/\s+/g, '_')] *)
Definition cleanTitle (docTitle : jsstring) : jsstring :=
  replaceAll (Plus space) (str "_") (replaceAll reUnsafe [] docTitle).

(** The name under which [handleDownload] saves the document. *)
Definition downloadName (docTitle : jsstring) : jsstring :=
  cleanTitle docTitle ++ str "_Formatted.docx".

(** A code unit a cleaned title is made of: a word character or a hyphen. *)
Definition titleUnit (c : N) : bool := isWordChar c || N.eqb c 45.

(* ------------------------------------------------------------------ *)
(** ** The statistics of [handleFormat]                                *)
(* ------------------------------------------------------------------ *)

(** The string a type is in the source. *)
Definition typeName (t : ItemType) : jsstring :=
  str match t with
      | heading1 => "heading1"
      | heading2 => "heading2"
      | heading3 => "heading3"
      | paragraph => "paragraph"
      | bullet => "bullet"
      | numbered => "numbered"
      | code_block => "code_block"
      | sub_bullet => "sub_bullet"
      end.

(** [interface Stats]; the field [numbered] of the source is
    [numberedItems] here, [numbered] being a type of item. *)
Record Stats : Type := mkStats {
  headings : nat;
  bullets : nat;
  numberedItems : nat;
  codeBlocks : nat;
  paragraphs : nat
}.

(** [content.filter(c => ...).length], five times. *)
Definition computeStats (content : list ContentItem) : Stats :=
  {| headings :=
       length (filter (fun c => startsWith (typeName (type c)) (str "heading")) content);
     bullets :=
       length (filter (fun c => jseqb (typeName (type c)) (str "bullet")
                                || jseqb (typeName (type c)) (str "sub_bullet")) content);
     numberedItems :=
       length (filter (fun c => jseqb (typeName (type c)) (str "numbered")) content);
     codeBlocks :=
       length (filter (fun c => jseqb (typeName (type c)) (str "code_block")) content);
     paragraphs :=
       length (filter (fun c => jseqb (typeName (type c)) (str "paragraph")) content) |}.

(** The lines an item stands for in the count of the input: the lines of
    a code block, one line for anything else. *)
Definition linesHeld (item : ContentItem) : nat :=
  match type item with
  | code_block => match lines item with Some ls => length ls | None => 0 end
  | _ => 1
  end.

(* ------------------------------------------------------------------ *)
(** ** What the items of the output are made of                        *)
(* ------------------------------------------------------------------ *)

(** The item has something to show: a code block has lines, at least
    one and none of them empty; any other item has a text that is not
    empty. *)
Definition HasContent (item : ContentItem) : Prop :=
  match type item with
  | code_block =>
      exists ls, lines item = Some ls /\ ls <> [] /\ Forall (fun l => l <> []) ls
  | _ => exists t, text item = Some t /\ t <> []
  end.

(** The item is what the numbered rule makes of a line [N) text] of the
    input: a numeral, a closing parenthesis, white space and a text. *)
Definition FromParenLine (nl : list jsstring) (item : ContentItem) : Prop :=
  exists line digits w rest,
    In line nl /\ line = digits ++ chr ")" :: w :: rest
    /\ digits <> [] /\ forallb isDigit digits = true /\ isWhiteSpace w = true
    /\ number item = Some (parseInt digits)
    /\ text item = Some (afterMarker (w :: rest)).

(** The code-probability of a line before its neighbours are counted:
    [analyzeCodeProbability] up to the context check. *)
Definition ownCodeScore (text : jsstring) : Z :=
  let score := 0%Z in
  let trimmed := trim text in
  let score := patternLoop CODE_PATTERNS 30 trimmed score in
  let score :=
    addIf (startsWith text (str "    ") || startsWith text [9%N]) 20 score in
  let score := addIf (test reCodeChars trimmed) 15 score in
  let score := addIf (test reMethodCall trimmed) 15 score in
  let score := addIf (test reStringAssign trimmed) 10 score in
  let score := addIf (test reNumberAssign trimmed) 10 score in
  let score := addIf (test reSalesforce trimmed) 25 score in
  addIf ((jslength trimmed <? 30)%Z && test reFragment trimmed) 15 score.

(** The secondary glyphs of the sub-bullet pattern: U+25E6, U+2023,
    U+2043 and U+2219. *)
Definition isSubGlyph (c : N) : bool := existsb (N.eqb c) [9702; 8227; 8259; 8729]%N.

(** The glyphs of the bullet pattern other than the hyphen: the bullet
    U+2022 and the asterisk. *)
Definition isBulletGlyph (c : N) : bool := existsb (N.eqb c) [8226; 42]%N.

(* ------------------------------------------------------------------ *)
(** ** The formatted document                                          *)
(* ------------------------------------------------------------------ *)

(** The objects of the document library are modelled by the options
    they are built from. An option the source leaves out is [None], or
    [false] for [bold] and [italics]. Fonts and colors are ASCII
    constants of the source. *)

Inductive AlignmentType : Type := CENTER | LEFT.
Inductive HeadingLevel : Type := HEADING_1 | HEADING_2 | HEADING_3.
Inductive BorderStyle : Type := SINGLE | NIL.

(** [new TextRun({ text, bold, italics, font, size, color })] *)
Record TextRunOptions : Type := mkRun {
  run_text : jsstring;
  run_bold : bool;
  run_italics : bool;
  run_font : string;
  run_size : Z;
  run_color : string
}.

Inductive ParagraphChild : Type :=
| TextRun (options : TextRunOptions)
| PageBreak.

(** [new Paragraph({ alignment, heading, spacing: { before, after },
    bullet: { level }, indent: { left, hanging }, children })] *)
Record ParagraphOptions : Type := mkParagraph {
  p_alignment : option AlignmentType;
  p_heading : option HeadingLevel;
  p_before : option Z;
  p_after : option Z;
  p_bullet : option Z;
  p_indent : option (Z * Z);
  p_children : list ParagraphChild
}.

(** [{ style, size, color }] *)
Record BorderOptions : Type := mkBorder {
  border_style : BorderStyle;
  border_size : Z;
  border_color : string
}.

(** [new TableCell({ width: { size, type: DXA }, shading: { fill, type:
    CLEAR }, borders: { left, right, top, bottom }, children })] *)
Record TableCellOptions : Type := mkCell {
  cell_width : Z;
  cell_fill : string;
  border_left : BorderOptions;
  border_right : BorderOptions;
  border_top : BorderOptions;
  border_bottom : BorderOptions;
  cell_children : list ParagraphOptions
}.

(** [new Table({ columnWidths, rows })]; a row is the list of its cells. *)
Record TableOptions : Type := mkTable {
  columnWidths : list Z;
  rows : list (list TableCellOptions)
}.

(** What [children] holds: paragraphs, tables and the table of contents. *)
Inductive Block : Type :=
| Paragraph (options : ParagraphOptions)
| Table (options : TableOptions)
| TableOfContents (alias : string) (hyperlink : bool) (headingStyleRange : string).

Module COLORS.
Definition HEADING1 : string := "1F4E79".
Definition HEADING2 : string := "2E75B6".
Definition HEADING3 : string := "404040".
Definition BODY : string := "000000".
Definition SECONDARY : string := "666666".
Definition CODE_TEXT : string := "2E2E2E".
Definition CODE_BG : string := "F5F5F5".
Definition CODE_BORDER : string := "BFBFBF".
Definition CODE_ACCENT : string := "1F4E79".
Definition WHITE : string := "FFFFFF".
End COLORS.

Module SIZES.
Definition TITLE : Z := 48.
Definition SUBTITLE : Z := 28.
Definition HEADING1 : Z := 24.
Definition HEADING2 : Z := 22.
Definition HEADING3 : Z := 20.
Definition BODY : Z := 18.
Definition CODE : Z := 16.
End SIZES.

(** [lines.map((line, index) => ...)] *)
Fixpoint mapIndexed {A B : Type} (f : A -> nat -> B) (l : list A) (index : nat)
  : list B :=
  match l with
  | [] => []
  | x :: l' => f x index :: mapIndexed f l' (S index)
  end.

Definition tableBorder : BorderOptions := mkBorder SINGLE 1 COLORS.CODE_BORDER.
Definition accentBorder : BorderOptions := mkBorder SINGLE 12 COLORS.CODE_ACCENT.
Definition noBorder : BorderOptions := mkBorder NIL 0 COLORS.WHITE.

(** The paragraph of one line of code. *)
Definition codeLine (line : jsstring) : ParagraphOptions :=
  {| p_alignment := None; p_heading := None;
     p_before := Some 20%Z; p_after := Some 20%Z;
     p_bullet := None; p_indent := None;
     p_children := [TextRun (mkRun line false false "Consolas" SIZES.CODE COLORS.CODE_TEXT)] |}.

Definition createCodeBlockTable (lines : list jsstring) : TableOptions :=
  {| columnWidths := [9360%Z];
     rows :=
       mapIndexed
         (fun line index =>
            [ {| cell_width := 9360%Z;
                 cell_fill := COLORS.CODE_BG;
                 border_left := accentBorder;
                 border_right := tableBorder;
                 border_top := if Nat.eqb index 0 then tableBorder else noBorder;
                 border_bottom :=
                   if Z.eqb (Z.of_nat index) (Z.of_nat (length lines) - 1)
                   then tableBorder else noBorder;
                 cell_children := [codeLine line] |} ])
         lines 0 |}.

(** A paragraph with the options the source gives and no others. *)
Definition plainParagraph (children : list ParagraphChild) : ParagraphOptions :=
  {| p_alignment := None; p_heading := None; p_before := None; p_after := None;
     p_bullet := None; p_indent := None; p_children := children |}.

(** A run in the body font. *)
Definition bodyRun (s : jsstring) (bold : bool) : ParagraphChild :=
  TextRun (mkRun s bold false "Aptos" SIZES.BODY COLORS.BODY).

(** The string of a number in a template literal: decimal digits for an
    integer (below 10^21 in absolute value), and [undefined] for a
    missing one. *)
Definition numberText (n : option Z) : jsstring :=
  match n with
  | Some z => str (NilZero.string_of_int (Z.to_int z))
  | None => str "undefined"
  end.

(** The title page: six empty paragraphs, the title, the subtitle if
    there is one, the organization, the date and the version line. *)
Definition titlePage (docTitle subtitle organization author currentDate : jsstring)
  : list Block :=
  repeat (Paragraph (plainParagraph [])) 6
  ++ [Paragraph
        {| p_alignment := Some CENTER; p_heading := None;
           p_before := None; p_after := Some 240%Z;
           p_bullet := None; p_indent := None;
           p_children := [TextRun (mkRun docTitle true false "Aptos" SIZES.TITLE COLORS.BODY)] |}]
  ++ (if truthy (Some subtitle)
      then [Paragraph
              {| p_alignment := Some CENTER; p_heading := None;
                 p_before := None; p_after := Some 240%Z;
                 p_bullet := None; p_indent := None;
                 p_children :=
                   [TextRun (mkRun subtitle false false "Aptos" SIZES.SUBTITLE COLORS.BODY)] |}]
      else [])
  ++ [Paragraph
        {| p_alignment := Some CENTER; p_heading := None;
           p_before := None; p_after := Some 120%Z;
           p_bullet := None; p_indent := None;
           p_children := [TextRun (mkRun organization false true "Aptos" 24 COLORS.BODY)] |};
      Paragraph
        {| p_alignment := Some CENTER; p_heading := None;
           p_before := None; p_after := Some 120%Z;
           p_bullet := None; p_indent := None;
           p_children :=
             [TextRun (mkRun (str "As of " ++ currentDate) false false "Aptos" 20
                             COLORS.BODY)] |};
      Paragraph
        {| p_alignment := Some CENTER; p_heading := None;
           p_before := None; p_after := None;
           p_bullet := None; p_indent := None;
           p_children :=
             [TextRun (mkRun (if truthy (Some author)
                              then str "Version 1.0 (" ++ author ++ str ")"
                              else str "Version 1.0")
                             false false "Aptos" SIZES.BODY COLORS.SECONDARY)] |};
      Paragraph (plainParagraph [PageBreak])].

Definition tableOfContents : list Block :=
  [Paragraph
     {| p_alignment := Some CENTER; p_heading := None;
        p_before := None; p_after := Some 300%Z;
        p_bullet := None; p_indent := None;
        p_children :=
          [TextRun (mkRun (str "Table of Contents") true false "Aptos" SIZES.SUBTITLE
                          COLORS.HEADING1)] |};
   TableOfContents "Table of Contents" true "1-3";
   Paragraph (plainParagraph [PageBreak])].

Definition headingParagraph (level : HeadingLevel) (before after size : Z)
           (color : string) (s : jsstring) : Block :=
  Paragraph
    {| p_alignment := None; p_heading := Some level;
       p_before := Some before; p_after := Some after;
       p_bullet := None; p_indent := None;
       p_children := [TextRun (mkRun s true false "Aptos" size color)] |}.

Definition spacer (before after : option Z) : Block :=
  Paragraph
    {| p_alignment := None; p_heading := None; p_before := before; p_after := after;
       p_bullet := None; p_indent := None; p_children := [] |}.

(** The [switch (item.type)] of the main loop: what is pushed for one
    item, [lastType] being the type of the item before it. *)
Definition renderItem (lastType : option ItemType) (item : ContentItem)
  : list Block :=
  match type item with
  | heading1 =>
      (match lastType with
       | Some t => if negb (ItemType_eqb t heading1)
                   then [spacer (Some 200%Z) None] else []
       | None => []
       end)
      ++ [headingParagraph HEADING_1 300 120 SIZES.HEADING1 COLORS.HEADING1
            (textOrEmpty item)]
  | heading2 =>
      [headingParagraph HEADING_2 240 100 SIZES.HEADING2 COLORS.HEADING2
         (textOrEmpty item)]
  | heading3 =>
      [headingParagraph HEADING_3 200 80 SIZES.HEADING3 COLORS.HEADING3
         (textOrEmpty item)]
  | paragraph =>
      [Paragraph
         {| p_alignment := None; p_heading := None;
            p_before := None; p_after := Some 160%Z;
            p_bullet := None; p_indent := None;
            p_children := [bodyRun (textOrEmpty item) false] |}]
  | bullet =>
      [Paragraph
         {| p_alignment := None; p_heading := None;
            p_before := None; p_after := Some 80%Z;
            p_bullet := Some 0%Z; p_indent := Some (720, 360)%Z;
            p_children := [bodyRun (textOrEmpty item) false] |}]
  | sub_bullet =>
      [Paragraph
         {| p_alignment := None; p_heading := None;
            p_before := None; p_after := Some 60%Z;
            p_bullet := Some 1%Z; p_indent := Some (1080, 360)%Z;
            p_children := [bodyRun (textOrEmpty item) false] |}]
  | numbered =>
      [Paragraph
         {| p_alignment := None; p_heading := None;
            p_before := None; p_after := Some 80%Z;
            p_bullet := None; p_indent := Some (720, 360)%Z;
            p_children := [bodyRun (numberText (number item) ++ str ". ") true;
                           bodyRun (textOrEmpty item) false] |}]
  | code_block =>
      match lines item with
      | Some (l :: ls) =>
          [spacer (Some 120%Z) (Some 60%Z);
           Table (createCodeBlockTable (l :: ls));
           spacer (Some 60%Z) (Some 120%Z)]
      | _ => []
      end
  end.

(** [for (const item of content) { switch ...; lastType = item.type }] *)
Fixpoint mainContent (lastType : option ItemType) (content : list ContentItem)
  : list Block :=
  match content with
  | [] => []
  | item :: rest => renderItem lastType item ++ mainContent (Some (type item)) rest
  end.

Definition endOfDocument : Block :=
  Paragraph
    {| p_alignment := Some CENTER; p_heading := None;
       p_before := Some 400%Z; p_after := None;
       p_bullet := None; p_indent := None;
       p_children :=
         [TextRun (mkRun (str "End of Document") false true "Aptos" SIZES.BODY
                         COLORS.SECONDARY)] |}.

(** The [children] array [createFormattedDocument] builds and puts in
    the one section of the document; [currentDate] is the month and year
    the runtime gives for the day. The style table, the numbering, the
    margins and the footer of the [Document] are constants of the source
    and are not modelled. *)
Definition createFormattedDocument (content : list ContentItem)
           (docTitle subtitle organization author currentDate : jsstring)
  : list Block :=
  titlePage docTitle subtitle organization author currentDate
  ++ tableOfContents
  ++ mainContent None content
  ++ [endOfDocument].

(** [createFormattedDocument(content, docTitle, subtitle,
    organization || 'TechTorch Inc.', author)], the call of [handleFormat]. *)
Definition formatDocument (content : list ContentItem)
           (docTitle subtitle organization author currentDate : jsstring)
  : list Block :=
  createFormattedDocument content docTitle subtitle
    (if truthy (Some organization) then organization else str "TechTorch Inc.")
    author currentDate.

(** *** Reading a document back *)

(** The text of a paragraph: the texts of its runs, one after another. *)
Definition paragraphText (p : ParagraphOptions) : jsstring :=
  flat_map (fun c => match c with TextRun o => run_text o | PageBreak => [] end)
           (p_children p).

Definition hasRun (p : ParagraphOptions) : bool :=
  existsb (fun c => match c with TextRun _ => true | PageBreak => false end)
          (p_children p).

(** The texts a block shows: the text of a paragraph that has a run, the
    text of each row of a table. *)
Definition blockTexts (b : Block) : list jsstring :=
  match b with
  | Paragraph p => if hasRun p then [paragraphText p] else []
  | Table t =>
      map (fun row => flat_map (fun cell => flat_map paragraphText (cell_children cell)) row)
          (rows t)
  | TableOfContents _ _ _ => []
  end.

(** What the table of contents lists: the paragraphs that have a heading
    level, with the level and the text. *)
Definition tocEntries (blocks : list Block) : list (HeadingLevel * jsstring) :=
  flat_map (fun b => match b with
                     | Paragraph p =>
                         match p_heading p with
                         | Some level => [(level, paragraphText p)]
                         | None => []
                         end
                     | _ => []
                     end) blocks.

(** The text an item is shown with: a numbered item has its number and a
    dot before its text. *)
Definition shownTexts (item : ContentItem) : list jsstring :=
  match type item with
  | numbered => [numberText (number item) ++ str ". " ++ textOrEmpty item]
  | _ => flattenItem item
  end.

(** The heading an item is, if it is one. *)
Definition headingOf (item : ContentItem) : list (HeadingLevel * jsstring) :=
  match type item with
  | heading1 => [(HEADING_1, textOrEmpty item)]
  | heading2 => [(HEADING_2, textOrEmpty item)]
  | heading3 => [(HEADING_3, textOrEmpty item)]
  | _ => []
  end.

(** The confidence an item of the output carries, by type: a heading has
    one from 70 to 100, a code block from 60 to 100, a sub-bullet 90, a
    numbered item none; a paragraph, and a bullet, which may be a
    paragraph the corrective pass retyped, has one from -69 to 165. *)
Definition ConfidenceInRange (item : ContentItem) : Prop :=
  match type item with
  | heading1 | heading2 | heading3 =>
      exists c, confidence item = Some c /\ (70 <= c <= 100)%Z
  | code_block => exists c, confidence item = Some c /\ (60 <= c <= 100)%Z
  | sub_bullet => confidence item = Some 90%Z
  | numbered => confidence item = None
  | bullet | paragraph =>
      exists c, confidence item = Some c /\ (-69 <= c <= 165)%Z
  end.

(* ------------------------------------------------------------------ *)
(** ** The step relation describes [scanStep]                          *)
(* ------------------------------------------------------------------ *)

Section ScanFacts.

Context `{UnicodeCase}.

Lemma scanStep_spec (nl : list jsstring) (st : ScanState) :
  ScanStep nl st (scanStep nl st).
Proof.
  unfold scanStep.
  fold (lineAt nl (scan_i st)) (prevOf nl (scan_i st)) (nextOf nl (scan_i st))
       (contextAt nl (scan_i st)).
  fold (introIndex nl st). fold (afterListIntro nl st).
  fold (codeProbAt nl (scan_i st)) (codeGroupAt nl (scan_i st)).
  fold (codeCommitted nl (scan_i st)).
  destruct (codeCommitted nl (scan_i st)) eqn:Hcode.
  { now apply step_code. }
  fold (headerProbAt nl (scan_i st)) (bulletProbAt nl st).
  destruct (getHeadingLevel (lineAt nl (scan_i st))) as [lvl|] eqn:Hlvl.
  { now apply step_heading. }
  destruct (70 <=? headerProbAt nl (scan_i st))%Z eqn:Hhdr.
  { apply Z.leb_le in Hhdr.
    replace (if (jslength (lineAt nl (scan_i st)) <? 30)%Z && _ && _ then heading3 else _)
      with (scoredLevel (lineAt nl (scan_i st)) (prevOf nl (scan_i st))).
    - now apply step_header.
    - unfold scoredLevel. reflexivity. }
  apply Z.leb_gt in Hhdr.
  assert (Hnum :
    match exec reNumbered (lineAt nl (scan_i st)) with
    | Some groups =>
        match capture 1 groups with
        | Some digits =>
            if ((parseInt digits =? 1) || (parseInt digits =? numberedListCounter st + 1))%Z
            then Some (mkScan (scan_i st + 1) (parseInt digits) (introIndex nl st)
                         (content st ++ [numberedItem (capture 2 groups) (parseInt digits)]))
            else None
        | None => None
        end
    | None => None
    end
    = option_map (fun '(num, rest) =>
                    mkScan (scan_i st + 1) num (introIndex nl st)
                           (content st ++ [numberedItem rest num]))
                 (numberedHit (lineAt nl (scan_i st)) (numberedListCounter st))).
  { unfold numberedHit.
    destruct (exec reNumbered _) as [g|]; [|reflexivity].
    destruct (capture 1 g) as [d|]; [|reflexivity].
    destruct (_ || _); reflexivity. }
  rewrite Hnum; clear Hnum.
  destruct (numberedHit _ _) as [[num rest]|] eqn:Hhit; cbn [option_map].
  { now apply step_numbered. }
  destruct (exec reBullet _) as [bm|] eqn:Hbul.
  { now apply step_bullet. }
  assert (Hsub :
    match exec reSubBullet (lineAt nl (scan_i st)) with
    | Some subBulletMatch =>
        if (0 <? Z.of_nat (length (content st)))%Z && hasType bullet (lastOf (content st))
        then Some (mkScan (scan_i st + 1) (numberedListCounter st) (introIndex nl st)
                     (content st ++ [textItem sub_bullet (capture 1 subBulletMatch) 90]))
        else None
    | None => None
    end
    = option_map (fun stripped =>
                    mkScan (scan_i st + 1) (numberedListCounter st) (introIndex nl st)
                           (content st ++ [textItem sub_bullet stripped 90]))
                 (subBulletHit (lineAt nl (scan_i st)) (content st))).
  { unfold subBulletHit.
    destruct (exec reSubBullet _) as [g|]; [|reflexivity].
    destruct (_ && _); reflexivity. }
  rewrite Hsub; clear Hsub.
  destruct (subBulletHit _ _) as [stripped|] eqn:Hsb; cbn [option_map].
  { now apply step_sub_bullet. }
  destruct ((60 <=? bulletProbAt nl st)%Z && (jslength (lineAt nl (scan_i st)) <? 120)%Z)
    eqn:Hinf.
  { apply andb_true_iff in Hinf as [H1 H2].
    apply Z.leb_le in H1. apply Z.ltb_lt in H2. now apply step_inferred. }
  apply step_paragraph; try assumption.
  apply andb_false_iff in Hinf as [H1|H1];
    [left; now apply Z.leb_gt in H1 | right; now apply Z.ltb_ge in H1].
Qed.

(** The guards of the rules exclude one another: the relation has one
    outcome, the state [scanStep] returns. *)
Lemma ScanStep_deterministic (nl : list jsstring) (st st1 st2 : ScanState) :
  ScanStep nl st st1 -> ScanStep nl st st2 -> st1 = st2.
Proof.
  intros H1 H2.
  destruct H1; destruct H2; try congruence; try lia.
Qed.

Lemma ScanStep_iff (nl : list jsstring) (st st' : ScanState) :
  ScanStep nl st st' <-> st' = scanStep nl st.
Proof.
  split.
  - intros Hs. eapply ScanStep_deterministic; [exact Hs|apply scanStep_spec].
  - intros ->. apply scanStep_spec.
Qed.

End ScanFacts.

(* ------------------------------------------------------------------ *)
(** ** Facts about the post-processing pass                            *)
(* ------------------------------------------------------------------ *)

Lemma lastOf_snoc {A : Type} (l : list A) (x : A) : lastOf (l ++ [x]) = Some x.
Proof. unfold lastOf. now rewrite rev_app_distr. Qed.

Lemma lastOf_nth_error {A : Type} (l : list A) :
  lastOf l = match length l with O => None | S n => nth_error l n end.
Proof.
  destruct l as [|a l] using rev_ind; [reflexivity|].
  rewrite lastOf_snoc, length_app, Nat.add_comm. cbn [length Nat.add].
  rewrite nth_error_app2 by lia. now rewrite Nat.sub_diag.
Qed.

Lemma postProcessLoop_prefix (content result : list ContentItem) :
  exists tail,
    postProcessLoop content result = result ++ tail /\ length tail = length content.
Proof.
  revert result. induction content as [|item rest IH]; intros result; cbn.
  - exists []. now rewrite app_nil_r.
  - destruct (IH (result ++ [postProcessItem (lastOf result) item (hd_error rest)]))
      as [tail [Heq Hlen]].
    eexists. rewrite Heq, <- app_assoc. split; [reflexivity|].
    cbn. now rewrite Hlen.
Qed.

Lemma postProcessContent_length (content : list ContentItem) :
  length (postProcessContent content) = length content.
Proof.
  destruct (postProcessLoop_prefix content []) as [tail [Heq Hlen]].
  unfold postProcessContent. now rewrite Heq.
Qed.

(** The element pushed for [content[k]], in terms of the element pushed
    just before it and of the raw successor. *)
Lemma postProcessLoop_nth (content : list ContentItem) :
  forall (result : list ContentItem) (k : nat) (item : ContentItem),
    nth_error content k = Some item ->
    nth_error (postProcessLoop content result) (length result + k)
    = Some (postProcessItem
              (lastOf (firstn (length result + k) (postProcessLoop content result)))
              item (nth_error content (S k))).
Proof.
  induction content as [|first rest IH]; intros result k item Hk.
  - now destruct k.
  - cbn [postProcessLoop].
    set (x := postProcessItem (lastOf result) first (hd_error rest)).
    destruct k as [|k].
    + cbn in Hk. injection Hk as <-.
      destruct (postProcessLoop_prefix rest (result ++ [x])) as [tail [Heq _]].
      rewrite Heq, Nat.add_0_r, <- app_assoc.
      rewrite nth_error_app2 by lia. rewrite Nat.sub_diag. cbn [nth_error app].
      rewrite firstn_app, Nat.sub_diag, firstn_all. cbn [firstn].
      rewrite app_nil_r. subst x. now destruct rest.
    + cbn in Hk. specialize (IH (result ++ [x]) k item Hk).
      rewrite length_app in IH. cbn [length] in IH.
      replace (length result + S k) with (length result + 1 + k) by lia.
      exact IH.
Qed.

Lemma postProcessItem_retyped prev item next :
  Retyped item (postProcessItem prev item next).
Proof.
  unfold postProcessItem, Retyped.
  destruct (ItemType_eqb (type item) paragraph) eqn:Hty; cbn [andb]; [|now left].
  assert (type item = paragraph) by (destruct (type item); easy).
  repeat match goal with |- context [if ?b then _ else _] => destruct b end;
    auto.
Qed.

Lemma postProcessLoop_retyped (content : list ContentItem) :
  forall result, exists tail,
    postProcessLoop content result = result ++ tail /\ Forall2 Retyped content tail.
Proof.
  induction content as [|item rest IH]; intros result; cbn.
  - exists []. now rewrite app_nil_r.
  - destruct (IH (result ++ [postProcessItem (lastOf result) item (hd_error rest)]))
      as [tail [Heq Hall]].
    eexists. rewrite Heq, <- app_assoc. split; [reflexivity|].
    cbn. constructor; [apply postProcessItem_retyped | exact Hall].
Qed.

Lemma postProcessContent_retyped (content : list ContentItem) :
  Forall2 Retyped content (postProcessContent content).
Proof.
  destruct (postProcessLoop_retyped content []) as [tail [Heq Hall]].
  unfold postProcessContent. now rewrite Heq.
Qed.

Lemma Forall2_nth_error {A B : Type} (R : A -> B -> Prop) (a : list A) (b : list B) :
  Forall2 R a b ->
  forall k y, nth_error b k = Some y -> exists x, nth_error a k = Some x /\ R x y.
Proof.
  induction 1 as [|x0 y0 a b Hxy _ IH]; intros k y Hk.
  - now destruct k.
  - destruct k as [|k]; cbn in Hk.
    + injection Hk as <-. exists x0. now split.
    + now apply IH.
Qed.

Lemma Forall2_nth_error_l {A B : Type} (R : A -> B -> Prop) (a : list A) (b : list B) :
  Forall2 R a b ->
  forall k x, nth_error a k = Some x -> exists y, nth_error b k = Some y /\ R x y.
Proof.
  induction 1 as [|x0 y0 a b Hxy _ IH]; intros k x Hk.
  - now destruct k.
  - destruct k as [|k]; cbn in Hk.
    + injection Hk as <-. exists y0. now split.
    + now apply IH.
Qed.

(* ------------------------------------------------------------------ *)
(** ** Facts about the matcher                                         *)
(* ------------------------------------------------------------------ *)

(** Whatever the matcher returns comes from the continuation, called at
    the end of a match of the pattern. *)
Lemma rmatch_sound (r : regex) :
  forall x c k g,
    rmatch r x c k = Some g ->
    exists y c', matches r x y /\ k y c' = Some g.
Proof.
  induction r as [|p|r1 IH1 r2 IH2|r1 IH1 r2 IH2|r1 IH1| | | |n r1 IH1];
    intros x c k g Hm; cbn [rmatch] in Hm.
  - exists x, c. split; [constructor|assumption].
  - destruct x as [b [|a rest]]; cbn in Hm; [discriminate|].
    destruct (p a) eqn:Hp; [|discriminate].
    exists (a :: b, rest), c. split; [now constructor|assumption].
  - apply IH1 in Hm as (y & c1 & Hy & Hm).
    apply IH2 in Hm as (z & c2 & Hz & Hm).
    exists z, c2. split; [econstructor; eauto|assumption].
  - destruct (rmatch r1 x c k) eqn:H1.
    + injection Hm as <-. apply IH1 in H1 as (y & c1 & Hy & Hk).
      exists y, c1. split; [now apply m_alt_l|assumption].
    + apply IH2 in Hm as (y & c1 & Hy & Hk).
      exists y, c1. split; [now apply m_alt_r|assumption].
  - revert Hm. generalize (S (length (snd x))). intros fuel. revert x c.
    induction fuel as [|fuel IHf]; intros x c Hm; cbn [starIter] in Hm.
    + exists x, c. split; [apply m_star_stop|assumption].
    + match type of Hm with
      | match ?e with _ => _ end = _ => destruct e eqn:H1
      end.
      * injection Hm as <-. apply IH1 in H1 as (y & c1 & Hy & Hk).
        destruct (Nat.eqb _ _); [discriminate|].
        apply IHf in Hk as (z & c2 & Hz & Hk).
        exists z, c2. split; [eapply m_star_more; eauto|assumption].
      * exists x, c. split; [apply m_star_stop|assumption].
  - destruct x as [[|b0 b] a]; cbn in Hm; [|discriminate].
    exists ([], a), c. split; [constructor|assumption].
  - destruct x as [b [|a0 a]]; cbn in Hm; [|discriminate].
    exists (b, []), c. split; [constructor|assumption].
  - destruct (xorb _ _) eqn:Hx; [|discriminate].
    exists x, c. split; [now constructor|assumption].
  - apply IH1 in Hm as (y & c1 & Hy & Hk).
    eexists y, _. split; [now constructor|exact Hk].
Qed.

Lemma advance_0 (x : cursor) : advance 0 x = x.
Proof. now destruct x. Qed.

Lemma advance_advance (n m : nat) (x : cursor) :
  advance m (advance n x) = advance (n + m) x.
Proof.
  destruct x as [b a]. unfold advance. cbn [fst snd].
  rewrite skipn_skipn, (Nat.add_comm m n). f_equal.
  rewrite app_assoc, <- rev_app_distr. do 2 f_equal.
  revert a. induction n as [|n IH]; intros a; [reflexivity|].
  destruct a as [|a0 a]; cbn; [now rewrite firstn_nil|]. now rewrite IH.
Qed.

(** A match ends some number of code units further on in the subject. *)
Lemma matches_advance r x y :
  matches r x y -> exists n, n <= length (snd x) /\ y = advance n x.
Proof.
  induction 1 as [x|p a b rest Hp|r1 r2 x y z _ [n [Hn ->]] _ [m [Hm ->]]
                  |r1 r2 x y _ IH|r1 r2 x y _ IH|r x
                  |r x y z _ [n [Hn ->]] _ [m [Hm ->]]|a|b|x _|n r x y _ IH];
    try (exists 0; split; [lia|now rewrite advance_0]); try assumption.
  - exists 1. cbn. split; [lia|reflexivity].
  - exists (n + m). rewrite advance_advance. split; [|reflexivity].
    unfold advance in Hm. cbn [snd] in Hm. rewrite length_skipn in Hm. lia.
  - exists (n + m). rewrite advance_advance. split; [|reflexivity].
    unfold advance in Hm. cbn [snd] in Hm. rewrite length_skipn in Hm. lia.
Qed.

(** A pattern that starts with [^] is only tried at index 0. *)
Lemma search_bol_passed (r : regex) (ahead : list N) :
  forall a passed, search (Seq Bol r) (a :: passed) ahead = None.
Proof.
  induction ahead as [|b ahead IH]; intros a passed; cbn; [reflexivity|].
  apply IH.
Qed.

Lemma exec_bol (r : regex) (s : list N) :
  exec (Seq Bol r) s = rmatch r ([], s) [] accept.
Proof.
  unfold exec. destruct s as [|a s]; cbn [search rmatch fst].
  - now destruct (rmatch r ([], []) [] _).
  - destruct (rmatch r ([], a :: s) [] _); [reflexivity|].
    apply search_bol_passed.
Qed.

(** *** A greedy star over a character class

    The longest run is tried first, then shorter ones. *)

Lemma starIter_chr_fuel (p : N -> bool) k :
  forall fuel1 fuel2 b a c,
    length a < fuel1 -> length a < fuel2 ->
    starIter (rmatch (Chr p)) k fuel1 (b, a) c
    = starIter (rmatch (Chr p)) k fuel2 (b, a) c.
Proof.
  induction fuel1 as [|fuel1 IH]; intros fuel2 b a c H1 H2; [lia|].
  destruct fuel2 as [|fuel2]; [lia|].
  cbn [starIter rmatch snd fst].
  destruct a as [|x a]; [reflexivity|].
  destruct (p x); [|reflexivity].
  cbn [length]. rewrite (proj2 (Nat.eqb_neq _ _)) by lia.
  cbn [length] in H1, H2. now rewrite (IH fuel2) by lia.
Qed.

Lemma rmatch_star_chr_nil (p : N -> bool) k b c :
  rmatch (Star (Chr p)) (b, []) c k = k (b, []) c.
Proof. reflexivity. Qed.

Lemma rmatch_star_chr_cons (p : N -> bool) k b x a c :
  rmatch (Star (Chr p)) (b, x :: a) c k
  = if p x
    then match rmatch (Star (Chr p)) (x :: b, a) c k with
         | Some g => Some g
         | None => k (b, x :: a) c
         end
    else k (b, x :: a) c.
Proof.
  cbn [rmatch snd]. cbn [starIter rmatch snd fst].
  destruct (p x); [|reflexivity].
  cbn [length]. rewrite (proj2 (Nat.eqb_neq _ _)) by lia.
  now rewrite (@starIter_chr_fuel p k (length (x :: a)) (S (length a))) by (cbn; lia).
Qed.

(** If the continuation accepts after the longest run, that is the result. *)
Lemma rmatch_star_chr_longest (p : N -> bool) k g :
  forall a b c,
    k (rev (takeWhile p a) ++ b, dropWhile p a) c = Some g ->
    rmatch (Star (Chr p)) (b, a) c k = Some g.
Proof.
  induction a as [|x a IH]; intros b c Hk.
  - exact Hk.
  - rewrite rmatch_star_chr_cons. cbn [takeWhile dropWhile] in Hk.
    destruct (p x); [|exact Hk].
    rewrite (IH (x :: b) c); [reflexivity|].
    cbn [rev] in Hk. now rewrite <- app_assoc in Hk.
Qed.

(** The result comes from the continuation after some run of the class,
    with the captures unchanged. *)
Lemma rmatch_star_chr_run (p : N -> bool) k g :
  forall a b c,
    rmatch (Star (Chr p)) (b, a) c k = Some g ->
    exists run rest,
      a = run ++ rest /\ forallb p run = true /\ k (rev run ++ b, rest) c = Some g.
Proof.
  induction a as [|x a IH]; intros b c Hm.
  - exists [], []. now repeat split.
  - rewrite rmatch_star_chr_cons in Hm.
    destruct (p x) eqn:Hp.
    + destruct (rmatch (Star (Chr p)) (x :: b, a) c k) eqn:Hr.
      * injection Hm as <-. apply IH in Hr as (run & rest & -> & Hall & Hk).
        exists (x :: run), rest. cbn. rewrite Hp, Hall, <- app_assoc.
        now repeat split.
      * exists [], (x :: a). now repeat split.
    + exists [], (x :: a). now repeat split.
Qed.

(** *** The matcher finds every match

    The matcher only looks at its continuation at positions further on
    in the subject. *)
Lemma length_advance (n : nat) (x : cursor) :
  length (snd (advance n x)) = length (snd x) - n.
Proof. unfold advance. cbn [snd]. apply length_skipn. Qed.

Lemma rmatch_ext (r : regex) :
  forall x c k k',
    (forall n c', n <= length (snd x) -> k (advance n x) c' = k' (advance n x) c') ->
    rmatch r x c k = rmatch r x c k'.
Proof.
  induction r as [|p|r1 IH1 r2 IH2|r1 IH1 r2 IH2|r1 IH1| | | |n r1 IH1];
    intros x c k k' Hk; cbn [rmatch].
  - specialize (Hk 0 c). rewrite advance_0 in Hk. apply Hk. lia.
  - destruct x as [b [|a rest]]; cbn [snd fst]; [reflexivity|].
    destruct (p a); [|reflexivity].
    apply (Hk 1 c). cbn. lia.
  - apply IH1. intros n c' Hn. apply IH2. intros m c'' Hm.
    rewrite advance_advance. apply Hk. rewrite length_advance in Hm. lia.
  - rewrite (IH1 x c k k' Hk), (IH2 x c k k' Hk). reflexivity.
  - revert Hk. generalize (S (length (snd x))). intros fuel. revert x c.
    induction fuel as [|fuel IHf]; intros x c Hk; cbn [starIter].
    + specialize (Hk 0 c). rewrite advance_0 in Hk. apply Hk. lia.
    + assert (Hx : k x c = k' x c).
      { specialize (Hk 0 c). rewrite advance_0 in Hk. apply Hk. lia. }
      rewrite Hx.
      match goal with
      | |- match rmatch _ _ _ ?K with _ => _ end
           = match rmatch _ _ _ ?K' with _ => _ end =>
          rewrite (IH1 x c K K'); [reflexivity|]
      end.
      intros n c' Hn. cbv beta.
      destruct (Nat.eqb _ _); [reflexivity|].
      apply IHf. intros m c'' Hm. rewrite advance_advance. apply Hk.
      rewrite length_advance in Hm. lia.
  - destruct x as [[|b0 b] a]; cbn [fst]; [|reflexivity].
    apply (Hk 0 c). lia.
  - destruct x as [b [|a0 a]]; cbn [snd]; [|reflexivity].
    apply (Hk 0 c). lia.
  - destruct (xorb _ _); [|reflexivity].
    specialize (Hk 0 c). rewrite advance_0 in Hk. apply Hk. lia.
  - apply IH1. intros m c' Hm. apply Hk. exact Hm.
Qed.

(** The iterations of a star never run out of fuel. *)
Lemma starIter_fuel (r : regex) k :
  forall fuel1 fuel2 x c,
    length (snd x) < fuel1 -> length (snd x) < fuel2 ->
    starIter (rmatch r) k fuel1 x c = starIter (rmatch r) k fuel2 x c.
Proof.
  induction fuel1 as [|fuel1 IH]; intros fuel2 x c H1 H2; [lia|].
  destruct fuel2 as [|fuel2]; [lia|]. cbn [starIter].
  match goal with
  | |- match rmatch _ _ _ ?K with _ => _ end
       = match rmatch _ _ _ ?K' with _ => _ end =>
      rewrite (@rmatch_ext r x c K K'); [reflexivity|]
  end.
  intros n c' Hn. cbv beta. rewrite length_advance.
  destruct (Nat.eqb_spec (length (snd x) - n) (length (snd x))); [reflexivity|].
  apply IH; rewrite length_advance; lia.
Qed.

(** If the pattern has a match after which the continuation accepts, the
    matcher returns a result. *)
Lemma rmatch_complete (r : regex) (x y : cursor) :
  matches r x y ->
  forall c k, (forall c', k y c' <> None) -> rmatch r x c k <> None.
Proof.
  induction 1 as [x|p a b rest Hp|r1 r2 x y z _ IH1 _ IH2
                  |r1 r2 x y _ IH|r1 r2 x y _ IH|r x
                  |r x y z Hxy IH1 Hyz IH2|a|b|x Hx|n r x y _ IH];
    intros c k Hk; cbn [rmatch].
  - apply Hk.
  - cbn [snd fst]. rewrite Hp. apply Hk.
  - apply IH1. intros c'. now apply IH2.
  - specialize (IH c k Hk). now destruct (rmatch r1 x c k).
  - destruct (rmatch r1 x c k); [discriminate|]. now apply IH.
  - cbn [starIter].
    match goal with |- match ?e with _ => _ end <> None => destruct e end;
      [discriminate|apply Hk].
  - destruct (matches_advance Hxy) as [n [Hn ->]].
    destruct n as [|n].
    + rewrite advance_0 in *. now apply IH2.
    + cbn [starIter].
      match goal with
      | |- match rmatch _ _ _ ?K with _ => _ end <> None =>
          specialize (IH1 c K); destruct (rmatch r x c K); [discriminate|]
      end.
      exfalso. apply IH1; [|reflexivity].
      intros c'. rewrite length_advance.
      destruct (Nat.eqb_spec (length (snd x) - S n) (length (snd x))); [lia|].
      rewrite (@starIter_fuel r k (length (snd x))
                 (S (length (snd (advance (S n) x)))));
        [now apply IH2| |]; rewrite length_advance; lia.
  - apply Hk.
  - apply Hk.
  - rewrite Hx. apply Hk.
  - apply IH. intros c'. apply Hk.
Qed.

(** A pattern anchored at the start matches the subject exactly when its
    body has a match from index 0. *)
Lemma test_bol_iff (r : regex) (s : list N) :
  test (Seq Bol r) s = true <-> exists y, matches r ([], s) y.
Proof.
  unfold test. rewrite exec_bol. split.
  - destruct (rmatch r ([], s) [] accept) as [g|] eqn:Hm; [|discriminate].
    intros _. apply rmatch_sound in Hm as (y & _ & Hy & _). now exists y.
  - intros [y Hy].
    pose proof (@rmatch_complete r _ _ Hy [] accept) as Hc.
    destruct (rmatch r ([], s) [] accept); [reflexivity|].
    exfalso. apply Hc; [discriminate|reflexivity].
Qed.

(** [test] tells whether the pattern has a match somewhere in the subject. *)
Lemma advance_S (n : nat) (a : N) (passed rest : list N) :
  advance (S n) (passed, a :: rest) = advance n (a :: passed, rest).
Proof. unfold advance. cbn. now rewrite <- app_assoc. Qed.

Lemma search_sound (r : regex) :
  forall ahead passed g,
    search r passed ahead = Some g ->
    exists n y, n <= length ahead /\ matches r (advance n (passed, ahead)) y.
Proof.
  induction ahead as [|a rest IH]; intros passed g Hs; cbn [search] in Hs.
  - destruct (rmatch r (passed, []) [] accept) as [g'|] eqn:Hm; [|discriminate].
    apply rmatch_sound in Hm as (y & _ & Hy & _). exists 0, y. split; [lia|exact Hy].
  - destruct (rmatch r (passed, a :: rest) [] accept) as [g'|] eqn:Hm.
    + apply rmatch_sound in Hm as (y & _ & Hy & _).
      exists 0, y. split; [cbn; lia|exact Hy].
    + apply IH in Hs as (n & y & Hn & Hy).
      exists (S n), y. rewrite advance_S. split; [cbn; lia|exact Hy].
Qed.

Lemma search_complete (r : regex) :
  forall ahead passed n y,
    n <= length ahead -> matches r (advance n (passed, ahead)) y ->
    search r passed ahead <> None.
Proof.
  induction ahead as [|a rest IH]; intros passed n y Hn Hy; cbn [search].
  - assert (n = 0) by (cbn in Hn; lia). subst n. rewrite advance_0 in Hy.
    pose proof (@rmatch_complete r _ _ Hy [] accept) as Hc.
    destruct (rmatch r (passed, []) [] accept); [discriminate|].
    exfalso. apply Hc; [discriminate|reflexivity].
  - destruct (rmatch r (passed, a :: rest) [] accept) eqn:Hm; [discriminate|].
    destruct n as [|n].
    + rewrite advance_0 in Hy.
      pose proof (@rmatch_complete r _ _ Hy [] accept) as Hc.
      exfalso. apply Hc; [discriminate|exact Hm].
    + rewrite advance_S in Hy.
      apply (IH (a :: passed) n y); [cbn in Hn; lia|exact Hy].
Qed.

Lemma test_iff (r : regex) (s : list N) :
  test r s = true
  <-> exists n y, n <= length s /\ matches r (advance n ([], s)) y.
Proof.
  unfold test, exec. split.
  - destruct (search r [] s) as [g|] eqn:Hs; [|discriminate].
    intros _. eapply search_sound; eassumption.
  - intros (n & y & Hn & Hy).
    pose proof (@search_complete r s [] n y Hn Hy) as Hc.
    now destruct (search r [] s).
Qed.

(** *** Lists cut by a predicate *)

Lemma takeWhile_dropWhile (p : N -> bool) (l : list N) :
  takeWhile p l ++ dropWhile p l = l.
Proof.
  induction l as [|x l IH]; [reflexivity|]. cbn.
  destruct (p x); [|reflexivity]. cbn. now rewrite IH.
Qed.

Lemma dropWhile_head (p : N -> bool) (l : list N) (x : N) (rest : list N) :
  dropWhile p l = x :: rest -> p x = false.
Proof.
  induction l as [|y l IH]; [discriminate|]. cbn.
  destruct (p y) eqn:Hp; [exact IH|]. now intros [= <- _].
Qed.

Lemma dropWhile_nil (p : N -> bool) (l : list N) :
  dropWhile p l = [] -> forallb p l = true.
Proof.
  induction l as [|y l IH]; [reflexivity|]. cbn.
  destruct (p y); [exact IH|discriminate].
Qed.

Lemma takeWhile_run (p : N -> bool) (run : list N) (x : N) (rest : list N) :
  forallb p run = true -> p x = false ->
  takeWhile p (run ++ x :: rest) = run /\ dropWhile p (run ++ x :: rest) = x :: rest.
Proof.
  intros Hrun Hx. induction run as [|y run IH]; cbn.
  - now rewrite Hx.
  - cbn in Hrun. apply andb_true_iff in Hrun as [Hy Hrun]. rewrite Hy.
    destruct (IH Hrun) as [-> ->]. now split.
Qed.

Lemma firstn_takeWhile (p : N -> bool) (l : list N) :
  firstn (length l - length (dropWhile p l)) l = takeWhile p l.
Proof.
  rewrite <- (takeWhile_dropWhile p l) at 1 3.
  rewrite length_app, Nat.add_sub, firstn_app, Nat.sub_diag, firstn_all.
  cbn. apply app_nil_r.
Qed.

Lemma lineTerminator_is_space (c : N) :
  isLineTerminator c = true -> isWhiteSpace c = true.
Proof.
  unfold isLineTerminator. intros Hc.
  repeat (apply orb_true_iff in Hc as [Hc|Hc]);
    apply N.eqb_eq in Hc; subst c; reflexivity.
Qed.

Lemma not_space_not_terminator (c : N) :
  isWhiteSpace c = false -> notLineTerminator c = true.
Proof.
  intros Hc. unfold notLineTerminator.
  destruct (isLineTerminator c) eqn:Hl; [|reflexivity].
  apply lineTerminator_is_space in Hl. congruence.
Qed.

(** *** Trimmed lines *)

Lemma trimStart_clean (s : jsstring) : cleanStart (trimStart s).
Proof.
  induction s as [|c s IH]; cbn; [exact I|].
  destruct (isWhiteSpace c) eqn:Hc; [exact IH|exact Hc].
Qed.

Lemma trimStart_fixed (s : jsstring) : cleanStart s -> trimStart s = s.
Proof. destruct s as [|c s]; cbn; [reflexivity|]. now intros ->. Qed.

Lemma trimStart_suffix (s : jsstring) : exists ws, s = ws ++ trimStart s.
Proof.
  induction s as [|c s [ws IH]]; [now exists []|]. cbn.
  destruct (isWhiteSpace c); [|now exists []].
  exists (c :: ws). cbn. now rewrite <- IH.
Qed.

Lemma trim_clean (s : jsstring) :
  trim s <> [] -> Trimmed (trim s).
Proof.
  intros Hne. split; [exact Hne|]. unfold trim, trimEnd in *.
  set (u := trimStart s) in *.
  assert (Hu : cleanStart u) by apply trimStart_clean.
  split.
  - destruct (trimStart_suffix (rev u)) as [ws Hws].
    assert (Hu' : u = rev (trimStart (rev u)) ++ rev ws).
    { rewrite <- rev_app_distr, <- Hws. now rewrite rev_involutive. }
    destruct (rev (trimStart (rev u))) as [|c v] eqn:Hv; [congruence|].
    rewrite Hu' in Hu. exact Hu.
  - rewrite rev_involutive. apply trimStart_clean.
Qed.

Lemma trim_fixed (s : jsstring) : Trimmed s -> trim s = s.
Proof.
  intros (_ & Hs & He). unfold trim, trimEnd.
  rewrite (trimStart_fixed _ Hs), (trimStart_fixed _ He). apply rev_involutive.
Qed.

Lemma jseqb_nil (s : jsstring) : jseqb s [] = false <-> s <> [].
Proof. unfold jseqb. destruct (list_eq_dec N.eq_dec s []); split; congruence. Qed.

Lemma nonEmptyLinesOf_trimmed (lines : list jsstring) :
  Forall Trimmed (nonEmptyLinesOf lines).
Proof.
  unfold nonEmptyLinesOf. apply Forall_forall. intros s Hs.
  apply filter_In in Hs as [Hin Hne].
  apply in_map_iff in Hin as [l [<- _]].
  apply trim_clean. apply jseqb_nil. now destruct (jseqb (trim l) []).
Qed.

(** In a trimmed line, what follows a prefix holds something other than
    white space, if it holds anything. *)
Lemma trimmed_rest (pre rest : list N) :
  Trimmed (pre ++ rest) -> rest <> [] ->
  exists d rest', dropWhile isWhiteSpace rest = d :: rest' /\ isWhiteSpace d = false.
Proof.
  intros (_ & _ & He) Hne.
  destruct (dropWhile isWhiteSpace rest) as [|d rest'] eqn:Hd.
  - exfalso. apply dropWhile_nil in Hd.
    destruct (exists_last Hne) as [l [z ->]].
    rewrite forallb_app in Hd. apply andb_true_iff in Hd as [_ Hz].
    cbn in Hz. rewrite andb_true_r in Hz.
    rewrite app_assoc, rev_app_distr in He. cbn in He. congruence.
  - exists d, rest'. split; [reflexivity|]. eapply dropWhile_head; eassumption.
Qed.

(** *** The patterns with capture groups *)

Lemma rmatch_seq (r1 r2 : regex) x c k :
  rmatch (Seq r1 r2) x c k = rmatch r1 x c (fun x' c' => rmatch r2 x' c' k).
Proof. reflexivity. Qed.

Lemma rmatch_chr_cons (p : N -> bool) b a rest c k :
  rmatch (Chr p) (b, a :: rest) c k = if p a then k (a :: b, rest) c else None.
Proof. reflexivity. Qed.

Lemma rmatch_chr_nil (p : N -> bool) b c k : rmatch (Chr p) (b, []) c k = None.
Proof. reflexivity. Qed.

Lemma rmatch_grp (n : nat) (r : regex) x c k :
  rmatch (Grp n r) x c k
  = rmatch r x c
      (fun x' c' => k x' ((n, firstn (length (snd x) - length (snd x')) (snd x)) :: c')).
Proof. reflexivity. Qed.

Lemma length_dropWhile (p : N -> bool) (l : list N) :
  length (dropWhile p l) <= length l.
Proof.
  induction l as [|x l IH]; cbn; [lia|]. destruct (p x); cbn; lia.
Qed.

(** [(.+)] at the end of a pattern captures up to the first line terminator. *)
Lemma rmatch_text_group (n : nat) b d rest c :
  notLineTerminator d = true ->
  rmatch (Grp n (Plus dot)) (b, d :: rest) c accept
  = Some ((n, takeWhile notLineTerminator (d :: rest)) :: c).
Proof.
  intros Hd. rewrite rmatch_grp. unfold Plus, dot.
  rewrite rmatch_seq, rmatch_chr_cons, Hd.
  apply rmatch_star_chr_longest. unfold accept. cbn [snd takeWhile]. rewrite Hd.
  do 3 f_equal.
  pose proof (length_dropWhile notLineTerminator rest) as Hle.
  cbn [length]. rewrite Nat.sub_succ_l by exact Hle.
  cbn [firstn]. now rewrite firstn_takeWhile.
Qed.

(** [\s*(.+)] at the end of a pattern, when something other than white
    space is ahead. *)
Lemma rmatch_space_text (n : nat) b rest c d rest' :
  dropWhile isWhiteSpace rest = d :: rest' -> isWhiteSpace d = false ->
  rmatch (Seq (Star space) (Grp n (Plus dot))) (b, rest) c accept
  = Some ((n, afterMarker rest) :: c).
Proof.
  intros Hd Hws. rewrite rmatch_seq. unfold space.
  apply rmatch_star_chr_longest. rewrite Hd.
  rewrite rmatch_text_group by now apply not_space_not_terminator.
  unfold afterMarker. now rewrite Hd.
Qed.

(** A bullet pattern [/^[glyphs]\s*(.+)/] on a trimmed line: it matches
    when the line starts with one of the glyphs and goes on, and the
    group holds the line without its marker. *)
Lemma exec_marker (glyphs : list N) (a : N) (rest : list N) :
  Trimmed (a :: rest) ->
  exec (Seq Bol (Seq (codes glyphs) (Seq (Star space) (Grp 1 (Plus dot))))) (a :: rest)
  = if existsb (N.eqb a) glyphs
    then match rest with
         | [] => None
         | _ :: _ => Some [(1, afterMarker rest)]
         end
    else None.
Proof.
  intros Htrim. rewrite exec_bol. unfold codes.
  rewrite rmatch_seq, rmatch_chr_cons.
  destruct (existsb (N.eqb a) glyphs); [|reflexivity].
  destruct rest as [|r0 rest0].
  - reflexivity.
  - destruct (@trimmed_rest [a] (r0 :: rest0) Htrim) as (d & rest' & Hd & Hws);
      [discriminate|].
    now apply (rmatch_space_text 1 _ _ _ Hd).
Qed.

Lemma exec_reBullet (a : N) (rest : list N) :
  Trimmed (a :: rest) ->
  exec reBullet (a :: rest)
  = if existsb (N.eqb a) [8226; 45; 42; 8226]%N
    then match rest with
         | [] => None
         | _ :: _ => Some [(1, afterMarker rest)]
         end
    else None.
Proof. apply exec_marker. Qed.

Lemma exec_reSubBullet (a : N) (rest : list N) :
  Trimmed (a :: rest) ->
  exec reSubBullet (a :: rest)
  = if existsb (N.eqb a) [9702; 8227; 8259; 8729; 45]%N
    then match rest with
         | [] => None
         | _ :: _ => Some [(1, afterMarker rest)]
         end
    else None.
Proof. apply exec_marker. Qed.

(** The numbered pattern [/^(\d+)[.)]\s+(.+)/] on a trimmed line. *)
Lemma exec_reNumbered (s : jsstring) (g : captures) :
  Trimmed s -> exec reNumbered s = Some g ->
  exists digits p w rest,
    s = digits ++ p :: w :: rest /\ digits <> [] /\ forallb isDigit digits = true
    /\ (p = chr "." \/ p = chr ")") /\ isWhiteSpace w = true
    /\ g = [(2, afterMarker (w :: rest)); (1, digits)].
Proof.
  intros Htrim Hm. unfold reNumbered in Hm. rewrite exec_bol in Hm.
  unfold Plus at 1, digit in Hm.
  rewrite rmatch_seq, rmatch_grp, rmatch_seq in Hm.
  destruct s as [|d0 s1]; [discriminate|].
  rewrite rmatch_chr_cons in Hm. destruct (isDigit d0) eqn:Hd0; [|discriminate].
  apply rmatch_star_chr_run in Hm as (run & rest & -> & Hrun & Hk).
  cbn [snd] in Hk. rewrite rmatch_seq in Hk.
  destruct rest as [|p rest1]; [discriminate|].
  unfold oneOf in Hk. rewrite rmatch_chr_cons in Hk.
  destruct (existsb (N.eqb p) (str ".)")) eqn:Hp; [|discriminate].
  unfold Plus at 1, space at 1 in Hk. rewrite !rmatch_seq in Hk.
  destruct rest1 as [|w rest2]; [discriminate|].
  rewrite rmatch_chr_cons in Hk. destruct (isWhiteSpace w) eqn:Hw; [|discriminate].
  assert (Hcut : firstn (length (d0 :: run ++ p :: w :: rest2)
                         - length (p :: w :: rest2)) (d0 :: run ++ p :: w :: rest2)
                 = d0 :: run).
  { rewrite app_comm_cons, length_app, Nat.add_sub, firstn_app, Nat.sub_diag, firstn_all.
    cbn. now rewrite app_nil_r. }
  rewrite Hcut in Hk.
  destruct (@trimmed_rest (d0 :: run ++ [p]) (w :: rest2)) as (d & rest' & Hd & Hws).
  { now rewrite <- app_comm_cons, <- app_assoc. }
  { discriminate. }
  assert (Hd' : dropWhile isWhiteSpace rest2 = d :: rest').
  { cbn [dropWhile] in Hd. now rewrite Hw in Hd. }
  change (rmatch (Seq (Star space) (Grp 2 (Plus dot)))
                 (w :: p :: rev run ++ [d0], rest2) [(1, d0 :: run)] accept = Some g)
    in Hk.
  rewrite (rmatch_space_text 2 _ _ _ Hd' Hws) in Hk. injection Hk as <-.
  exists (d0 :: run), p, w, rest2. repeat split.
  - discriminate.
  - cbn. now rewrite Hd0, Hrun.
  - cbn in Hp. rewrite orb_false_r in Hp.
    apply orb_true_iff in Hp as [Hp|Hp]; apply N.eqb_eq in Hp; auto.
  - exact Hw.
  - unfold afterMarker. cbn [dropWhile]. now rewrite Hw.
Qed.

Lemma exec_reNumbered_captures (s : jsstring) (g : captures) :
  Trimmed s -> exec reNumbered s = Some g ->
  capture 1 g = Some (takeWhile isDigit s) /\ capture 2 g = Some (stripNumbered s).
Proof.
  intros Htrim Hm.
  destruct (exec_reNumbered Htrim Hm) as (ds & p & w & rest & -> & _ & Hds & Hp & _ & ->).
  assert (Hnd : isDigit p = false) by (destruct Hp as [->| ->]; reflexivity).
  destruct (@takeWhile_run isDigit ds p (w :: rest) Hds Hnd) as [Ht Hdrop].
  unfold stripNumbered. rewrite Ht, Hdrop. now split.
Qed.

(* ------------------------------------------------------------------ *)
(** ** The numeric section patterns and the heading levels             *)
(* ------------------------------------------------------------------ *)

Lemma matches_seq_inv (r1 r2 : regex) x z :
  matches (Seq r1 r2) x z -> exists y, matches r1 x y /\ matches r2 y z.
Proof. inversion 1; subst. eauto. Qed.

Lemma matches_chr_inv (p : N -> bool) x y :
  matches (Chr p) x y -> exists a, p a = true /\ snd x = a :: snd y.
Proof. inversion 1; subst. cbn. eauto. Qed.

Lemma matches_star_chr_inv (p : N -> bool) x y :
  matches (Star (Chr p)) x y ->
  exists run, forallb p run = true /\ snd x = run ++ snd y.
Proof.
  intros Hm. remember (Star (Chr p)) as r eqn:Hr.
  induction Hm as [| | | | |r x|r x y z Hxy _ Hyz IH| | | |]; try discriminate.
  - now exists [].
  - injection Hr as ->. destruct (IH eq_refl) as (run & Hrun & Hy).
    apply matches_chr_inv in Hxy as (a & Ha & Hx).
    exists (a :: run). cbn. rewrite Ha, Hrun, Hx, Hy. now split.
Qed.

Lemma matches_plus_chr_inv (p : N -> bool) x y :
  matches (Plus (Chr p)) x y ->
  exists a run, p a = true /\ forallb p run = true /\ snd x = (a :: run) ++ snd y.
Proof.
  intros Hm. apply matches_seq_inv in Hm as (x1 & H1 & H2).
  apply matches_chr_inv in H1 as (a & Ha & Hx).
  apply matches_star_chr_inv in H2 as (run & Hrun & Hx1).
  exists a, run. rewrite Hx, Hx1. now repeat split.
Qed.

Lemma matches_ch_inv (c : string) x y :
  matches (ch c) x y -> snd x = chr c :: snd y.
Proof.
  intros Hm. apply matches_chr_inv in Hm as (a & Ha & Hx).
  apply N.eqb_eq in Ha. now subst a.
Qed.

Lemma space_not_digit (w : N) : isWhiteSpace w = true -> isDigit w = false.
Proof.
  unfold isWhiteSpace, isDigit. intros Hw.
  destruct ((48 <=? w) && (w <=? 57))%N eqn:Hd; [|reflexivity].
  exfalso. apply andb_true_iff in Hd as [H1 H2]. apply N.leb_le in H1, H2.
  repeat (apply orb_true_iff in Hw as [Hw|Hw]);
    try (apply N.eqb_eq in Hw; lia);
    try (apply andb_true_iff in Hw as [Ha Hb]; apply N.leb_le in Ha, Hb; lia).
Qed.

(** A run of the class followed by something outside it is cut in one way. *)
Lemma run_unique (p : N -> bool) (l1 l2 : list N) (a b : N) (r1 r2 : list N) :
  forallb p l1 = true -> forallb p l2 = true -> p a = false -> p b = false ->
  l1 ++ a :: r1 = l2 ++ b :: r2 -> l1 = l2 /\ a :: r1 = b :: r2.
Proof.
  intros H1 H2 Ha Hb Heq.
  destruct (takeWhile_run p l1 a r1 H1 Ha) as [Ht1 Hd1].
  destruct (takeWhile_run p l2 b r2 H2 Hb) as [Ht2 Hd2].
  rewrite Heq in Ht1, Hd1. split; congruence.
Qed.

(** Split the first component off a sequence. *)
Ltac inv_seq H Hm y :=
  apply matches_seq_inv in H as (y & Hm & H).

(** [N.N.N Capital] is a level-3 numbering. *)
Lemma section3_level (t : list N) :
  test reSection3 t = true -> test reLevel3 t = true.
Proof.
  unfold reSection3, reLevel3. rewrite !test_bol_iff. intros [y Hy].
  inv_seq Hy H1 x1. inv_seq Hy H2 x2. inv_seq Hy H3 x3. inv_seq Hy H4 x4.
  inv_seq Hy H5 x5. inv_seq Hy H6 x6. inv_seq H6 H7 x7.
  exists x7. repeat (eapply m_seq; [eassumption|]). exact H7.
Qed.

(** [N.N Capital] is a level-2 numbering and not a level-3 one. *)
Lemma section2_level (t : list N) :
  test reSection2 t = true -> test reLevel3 t = false /\ test reLevel2 t = true.
Proof.
  unfold reSection2. rewrite test_bol_iff. intros [y Hy].
  inv_seq Hy H1 x1. inv_seq Hy H2 x2. inv_seq Hy H3 x3. inv_seq Hy H4 x4.
  inv_seq H4 H5 x5.
  split.
  - destruct (test reLevel3 t) eqn:Ht; [|reflexivity]. exfalso.
    unfold reLevel3 in Ht. apply test_bol_iff in Ht as [z Hz].
    inv_seq Hz G1 z1. inv_seq Hz G2 z2. inv_seq Hz G3 z3. inv_seq Hz G4 z4.
    apply matches_plus_chr_inv in H1 as (a1 & r1 & Ha1 & Hr1 & E1).
    apply matches_plus_chr_inv in G1 as (b1 & s1 & Hb1 & Hs1 & F1).
    apply matches_ch_inv in H2, G2, G4.
    apply matches_plus_chr_inv in H3 as (a2 & r2 & Ha2 & Hr2 & E2).
    apply matches_plus_chr_inv in G3 as (b2 & s2 & Hb2 & Hs2 & F2).
    apply matches_chr_inv in H5 as (w & Hw & E3).
    cbn [snd] in E1, F1.
    rewrite H2, E2, E3 in E1. rewrite G2, F2, G4 in F1.
    rewrite E1 in F1.
    apply (@run_unique isDigit (a1 :: r1) (b1 :: s1)) in F1 as [_ F1];
      try reflexivity; try (cbn; now rewrite ?Ha1, ?Hb1, ?Hr1, ?Hs1).
    apply (f_equal (@tl N)) in F1. cbn [tl] in F1.
    apply (@run_unique isDigit (a2 :: r2) (b2 :: s2)) in F1 as [_ F1];
      try reflexivity; try (cbn; now rewrite ?Ha2, ?Hb2, ?Hr2, ?Hs2);
      [|now apply space_not_digit].
    injection F1 as -> _. discriminate.
  - unfold reLevel2. apply test_bol_iff.
    exists x5. repeat (eapply m_seq; [eassumption|]). exact H5.
Qed.

(** [N. Capital] is a level-1 numbering and not a deeper one. *)
Lemma section1_level (t : list N) :
  test reSection1 t = true ->
  test reLevel3 t = false /\ test reLevel2 t = false /\ test reLevel1 t = true.
Proof.
  unfold reSection1. rewrite test_bol_iff. intros [y Hy].
  inv_seq Hy H1 x1. inv_seq Hy H2 x2. inv_seq Hy H3 x3. inv_seq H3 H4 x4.
  assert (Hdeep : forall z r, ~ matches (Seq (Plus digit) (Seq (ch ".") (Seq (Plus digit) r)))
                                ([], t) z).
  { intros z r Hz.
    inv_seq Hz G1 z1. inv_seq Hz G2 z2. inv_seq Hz G3 z3.
    apply matches_plus_chr_inv in H1 as (a1 & r1 & Ha1 & Hr1 & E1).
    apply matches_plus_chr_inv in G1 as (b1 & s1 & Hb1 & Hs1 & F1).
    apply matches_ch_inv in H2, G2.
    apply matches_plus_chr_inv in G3 as (b2 & s2 & Hb2 & Hs2 & F2).
    apply matches_chr_inv in H4 as (w & Hw & E3).
    cbn [snd] in E1, F1.
    rewrite H2, E3 in E1. rewrite G2, F2 in F1. rewrite E1 in F1.
    apply (@run_unique isDigit (a1 :: r1) (b1 :: s1)) in F1 as [_ F1];
      try reflexivity; try (cbn; now rewrite ?Ha1, ?Hb1, ?Hr1, ?Hs1).
    apply (f_equal (@tl N)) in F1. cbn [tl app] in F1. injection F1 as -> _.
    apply space_not_digit in Hw. congruence. }
  repeat split.
  - destruct (test reLevel3 t) eqn:Ht; [|reflexivity]. exfalso.
    unfold reLevel3 in Ht. apply test_bol_iff in Ht as [z Hz].
    exact (Hdeep _ _ Hz).
  - destruct (test reLevel2 t) eqn:Ht; [|reflexivity]. exfalso.
    unfold reLevel2 in Ht. apply test_bol_iff in Ht as [z Hz].
    exact (Hdeep _ _ Hz).
  - unfold reLevel1. apply test_bol_iff.
    exists x4. repeat (eapply m_seq; [eassumption|]). exact H4.
Qed.

(** *** Patterns that cannot start with a given code unit *)

Lemma test_bol_false (r : regex) (s : list N) :
  (forall y, ~ matches r ([], s) y) -> test (Seq Bol r) s = false.
Proof.
  intros Hno. destruct (test (Seq Bol r) s) eqn:Ht; [|reflexivity].
  apply test_bol_iff in Ht as [y Hy]. now apply Hno in Hy.
Qed.

Lemma exec_bol_none (r : regex) (s : list N) :
  (forall y, ~ matches r ([], s) y) -> exec (Seq Bol r) s = None.
Proof.
  intros Hno. rewrite exec_bol.
  destruct (rmatch r ([], s) [] accept) as [g|] eqn:Hm; [|reflexivity].
  apply rmatch_sound in Hm as (y & _ & Hy & _). now apply Hno in Hy.
Qed.

Lemma matches_chr_first (p : N -> bool) (r : regex) b a rest y :
  matches (Seq (Chr p) r) (b, a :: rest) y -> p a = true.
Proof.
  intros Hm. apply matches_seq_inv in Hm as (x1 & H1 & _).
  apply matches_chr_inv in H1 as (a' & Ha & Hx). cbn in Hx. congruence.
Qed.

Lemma matches_plus_first (p : N -> bool) (r : regex) b a rest y :
  matches (Seq (Plus (Chr p)) r) (b, a :: rest) y -> p a = true.
Proof.
  intros Hm. apply matches_seq_inv in Hm as (x1 & H1 & _).
  apply matches_plus_chr_inv in H1 as (a' & run & Ha & _ & Hx).
  cbn in Hx. congruence.
Qed.

Lemma matches_grp_plus_first (n : nat) (p : N -> bool) (r : regex) b a rest y :
  matches (Seq (Grp n (Plus (Chr p))) r) (b, a :: rest) y -> p a = true.
Proof.
  intros Hm. apply matches_seq_inv in Hm as (x1 & H1 & H2).
  inversion H1; subst.
  eapply matches_plus_first. eapply m_seq; eassumption.
Qed.

(** A line that starts with a hyphen has no numbering of any kind. *)
Lemma hyphen_no_heading_level `{UnicodeCase} (rest : list N) :
  Trimmed (chr "-" :: rest) -> getHeadingLevel (chr "-" :: rest) = None.
Proof.
  intros Htrim. unfold getHeadingLevel. rewrite (trim_fixed Htrim).
  unfold reLevel3, reLevel2, reLevel1, reLetter, reRoman.
  rewrite !test_bol_false; [reflexivity| | | | |]; intros y Hy.
  - apply matches_plus_first in Hy. discriminate.
  - apply matches_chr_first in Hy. discriminate.
  - apply matches_plus_first in Hy. discriminate.
  - apply matches_plus_first in Hy. discriminate.
  - apply matches_plus_first in Hy. discriminate.
Qed.

Lemma hyphen_not_numbered (rest : list N) (counter : Z) :
  numberedHit (chr "-" :: rest) counter = None.
Proof.
  unfold numberedHit, reNumbered. rewrite exec_bol_none; [reflexivity|].
  intros y Hy. apply matches_grp_plus_first in Hy. discriminate.
Qed.

(* ------------------------------------------------------------------ *)
(** ** Facts about the scan                                            *)
(* ------------------------------------------------------------------ *)

Lemma firstn_plus {A : Type} (n m : nat) (l : list A) :
  firstn (n + m) l = firstn n l ++ firstn m (skipn n l).
Proof.
  revert l. induction n as [|n IH]; intros l; [reflexivity|].
  destruct l as [|a l]; cbn; [now rewrite firstn_nil|]. now rewrite IH.
Qed.

Lemma skipn_nth {A : Type} (i : nat) (l : list A) (d : A) :
  i < length l -> skipn i l = nth i l d :: skipn (S i) l.
Proof.
  revert l. induction i as [|i IH]; intros [|a l] Hi; cbn in *; try lia.
  - reflexivity.
  - apply IH. lia.
Qed.

Lemma Forall2_refl_carries (l : list jsstring) : Forall2 carries l l.
Proof. induction l; constructor; [now left|assumption]. Qed.

Lemma Holds_carries (ls : list jsstring) (item : ContentItem) :
  Holds ls item -> Forall2 carries ls (flattenItem item).
Proof.
  unfold flattenItem.
  intros [ls' it Hty Hls _|line it Hty Htx|line it Hty Htx|line it Hty Htx].
  - rewrite Hty, Hls. apply Forall2_refl_carries.
  - rewrite Htx.
    destruct Hty as [[Hty|[Hty|Hty]]|[Hty|Hty]]; rewrite Hty;
      (constructor; [now left|constructor]).
  - rewrite Htx.
    destruct Hty as [Hty|Hty]; rewrite Hty;
      (constructor; [right; now left|constructor]).
  - rewrite Htx, Hty. constructor; [right; now right|constructor].
Qed.

Lemma Covers_flatten (ls : list jsstring) (items : list ContentItem) :
  Covers ls items -> Forall2 carries ls (flatten items).
Proof.
  induction 1 as [|ls rest item items Hh _ IH]; [constructor|].
  unfold flatten. cbn [flat_map]. apply Forall2_app; [|exact IH].
  now apply Holds_carries.
Qed.

Lemma Covers_snoc (a ls : list jsstring) (items : list ContentItem)
      (item : ContentItem) :
  Covers a items -> Holds ls item -> Covers (a ++ ls) (items ++ [item]).
Proof.
  intros Ha Hh. induction Ha as [|ls0 rest it its Hh0 _ IH]; cbn [app].
  - rewrite <- (app_nil_r ls). constructor; [exact Hh|constructor].
  - rewrite <- app_assoc. now constructor.
Qed.

Section ScanInvariants.

Context `{UnicodeCase}.

Lemma collectCodeLines_prefix (context ahead : list jsstring) :
  exists n, n <= length ahead /\ collectCodeLines context ahead = firstn n ahead.
Proof.
  induction ahead as [|l ahead [n [Hn IH]]]; [now exists 0|].
  cbn [collectCodeLines].
  match goal with |- context [if ?b then _ else _] => destruct b end.
  - exists (S n). cbn. rewrite IH. split; [lia|reflexivity].
  - exists 0. cbn. split; [lia|reflexivity].
Qed.

(** The group collected from [i] is a run of the lines starting at [i]. *)
Lemma codeGroupAt_run (nl : list jsstring) (i : nat) :
  i < length nl ->
  i + length (codeGroupAt nl i) <= length nl
  /\ codeGroupAt nl i = firstn (length (codeGroupAt nl i)) (skipn i nl).
Proof.
  intros Hi. unfold codeGroupAt, lineAt.
  destruct (collectCodeLines_prefix (contextAt nl i) (skipn (i + 1) nl))
    as [n [Hn ->]].
  rewrite length_skipn in Hn.
  rewrite (skipn_nth nl [] Hi). cbn [length firstn].
  rewrite length_firstn, length_skipn.
  replace (Nat.min n (length nl - (i + 1))) with n by lia.
  replace (i + 1) with (S i) by lia.
  split; [lia|reflexivity].
Qed.

Lemma getHeadingLevel_heading (text : jsstring) (level : ItemType) :
  getHeadingLevel text = Some level -> isHeading level.
Proof.
  unfold getHeadingLevel, isHeading.
  repeat match goal with |- context [if ?b then _ else _] => destruct b end;
    intros [= <-]; auto.
Qed.

Lemma scoredLevel_heading (text : jsstring) (prev : option jsstring) :
  isHeading (scoredLevel text prev).
Proof.
  unfold scoredLevel, isHeading.
  repeat match goal with |- context [if ?b then _ else _] => destruct b end; auto.
Qed.

Lemma numberedHit_text (text : jsstring) (counter num : Z) (rest : option jsstring) :
  Trimmed text -> numberedHit text counter = Some (num, rest) ->
  rest = Some (stripNumbered text) /\ (num = 1 \/ num = counter + 1)%Z.
Proof.
  intros Htrim. unfold numberedHit.
  destruct (exec reNumbered text) as [g|] eqn:Hg; [|discriminate].
  destruct (exec_reNumbered_captures Htrim Hg) as [H1 H2].
  rewrite H1, H2.
  destruct (_ || _) eqn:Hn; [|discriminate]. intros [= <- <-].
  split; [reflexivity|].
  apply orb_true_iff in Hn as [Hn|Hn]; apply Z.eqb_eq in Hn; auto.
Qed.

Lemma exec_reBullet_text (text : jsstring) (g : captures) :
  Trimmed text -> exec reBullet text = Some g ->
  capture 1 g = Some (stripBullet text).
Proof.
  intros Htrim. destruct text as [|a rest]; [now destruct Htrim|].
  rewrite (exec_reBullet Htrim).
  destruct (existsb _ _); [|discriminate].
  destruct rest; [discriminate|]. now intros [= <-].
Qed.

Lemma subBulletHit_text (text : jsstring) (content : list ContentItem)
      (stripped : option jsstring) :
  Trimmed text -> subBulletHit text content = Some stripped ->
  stripped = Some (stripBullet text) /\ hasType bullet (lastOf content) = true.
Proof.
  intros Htrim. unfold subBulletHit.
  destruct text as [|a rest]; [now destruct Htrim|].
  rewrite (exec_reSubBullet Htrim).
  destruct (existsb _ _); [|discriminate].
  destruct rest; [discriminate|].
  destruct (_ && _) eqn:Hb; [|discriminate]. intros [= <-].
  apply andb_true_iff in Hb as [_ Hb]. now split.
Qed.

(** What one iteration does to the cursor and to the output: it pushes one
    item and moves past the lines the item holds. *)
Lemma ScanStep_progress (nl : list jsstring) (st st' : ScanState) :
  ScanStep nl st st' -> scan_i st < length nl ->
  exists item n,
    content st' = content st ++ [item] /\ scan_i st' = scan_i st + n
    /\ 1 <= n /\ scan_i st + n <= length nl
    /\ lastListIntroIndex st' = introIndex nl st.
Proof.
  intros Hstep Hi.
  destruct Hstep;
    try (eexists _, 1; cbn [content scan_i lastListIntroIndex];
         repeat split; [lia|lia]).
  destruct (codeGroupAt_run nl Hi) as [Hle _].
  eexists _, _. cbn [content scan_i lastListIntroIndex]. repeat split; [|exact Hle].
  unfold codeGroupAt. cbn [length]. lia.
Qed.

Lemma isHeading_not_code (t : ItemType) : isHeading t -> t <> code_block.
Proof.
  intros [->|[->| ->]]; discriminate.
Qed.

(** The item pushed by one iteration holds the lines it consumed. *)
Lemma ScanStep_holds (nl : list jsstring) (st st' : ScanState) :
  Forall Trimmed nl -> ScanStep nl st st' -> scan_i st < length nl ->
  exists item n,
    content st' = content st ++ [item] /\ scan_i st' = scan_i st + n
    /\ Holds (firstn n (skipn (scan_i st) nl)) item.
Proof.
  intros Hall Hstep Hi.
  assert (Htrim : Trimmed (lineAt nl (scan_i st))).
  { eapply Forall_forall; [exact Hall|]. now apply nth_In. }
  assert (Hone : firstn 1 (skipn (scan_i st) nl) = [lineAt nl (scan_i st)]).
  { now rewrite (skipn_nth nl [] Hi). }
  destruct Hstep as [Hc|lvl Hc Hl|Hc Hl Hh|num rest Hc Hl Hh Hn|bm Hc Hl Hh Hn Hb
                     |stripped Hc Hl Hh Hn Hb Hs|Hc Hl Hh Hn Hb Hs Hp Hlen
                     |Hc Hl Hh Hn Hb Hs Hp].
  - destruct (codeGroupAt_run nl Hi) as [_ Heq].
    eexists _, _. cbn [content scan_i]. repeat split.
    rewrite <- Heq. apply holds_code; [reflexivity|reflexivity|discriminate].
  - eexists _, 1. cbn [content scan_i]. repeat split. rewrite Hone.
    apply holds_line; [|reflexivity].
    left. eapply getHeadingLevel_heading; eassumption.
  - eexists _, 1. cbn [content scan_i]. repeat split. rewrite Hone.
    apply holds_line; [|reflexivity]. left. apply scoredLevel_heading.
  - destruct (numberedHit_text _ Htrim Hn) as [-> _].
    eexists _, 1. cbn [content scan_i]. repeat split. rewrite Hone.
    now apply holds_numbered.
  - rewrite (exec_reBullet_text Htrim Hb).
    eexists _, 1. cbn [content scan_i]. repeat split. rewrite Hone.
    apply holds_bullet; [now left|reflexivity].
  - destruct (subBulletHit_text _ Htrim Hs) as [-> _].
    eexists _, 1. cbn [content scan_i]. repeat split. rewrite Hone.
    apply holds_bullet; [now right|reflexivity].
  - eexists _, 1. cbn [content scan_i]. repeat split. rewrite Hone.
    apply holds_line; [|reflexivity]. right. now right.
  - eexists _, 1. cbn [content scan_i]. repeat split. rewrite Hone.
    apply holds_line; [|reflexivity]. right. now left.
Qed.

(** *** The loop *)

Lemma scanLoop_invariant (P : ScanState -> Prop) (nl : list jsstring) :
  (forall st, P st -> scan_i st < length nl -> P (scanStep nl st)) ->
  forall fuel st, P st -> P (scanLoop fuel nl st).
Proof.
  intros Hstep. induction fuel as [|fuel IH]; intros st Hst; cbn [scanLoop]; [exact Hst|].
  destruct (Nat.ltb_spec (scan_i st) (length nl)); [|exact Hst].
  apply IH. now apply Hstep.
Qed.

Lemma scanStep_advances (nl : list jsstring) (st : ScanState) :
  scan_i st < length nl ->
  scan_i st < scan_i (scanStep nl st) <= length nl.
Proof.
  intros Hi.
  destruct (ScanStep_progress (scanStep_spec nl st) Hi)
    as (item & n & _ & -> & Hn & Hle & _).
  lia.
Qed.

(** With enough fuel the loop stops because the cursor is at the end. *)
Lemma scanLoop_end (nl : list jsstring) :
  forall fuel st,
    scan_i st <= length nl -> length nl - scan_i st <= fuel ->
    scan_i (scanLoop fuel nl st) = length nl.
Proof.
  induction fuel as [|fuel IH]; intros st Hle Hfuel; cbn [scanLoop].
  - lia.
  - destruct (Nat.ltb_spec (scan_i st) (length nl)) as [Hlt|Hge]; [|lia].
    pose proof (scanStep_advances nl st Hlt). apply IH; lia.
Qed.

(** More fuel than that changes nothing. *)
Lemma scanLoop_enough_fuel (nl : list jsstring) :
  forall fuel fuel' st,
    scan_i st <= length nl ->
    length nl - scan_i st <= fuel -> length nl - scan_i st <= fuel' ->
    scanLoop fuel nl st = scanLoop fuel' nl st.
Proof.
  induction fuel as [|fuel IH]; intros fuel' st Hle Hfuel Hfuel'.
  - destruct fuel' as [|fuel']; [reflexivity|]. cbn [scanLoop].
    destruct (Nat.ltb_spec (scan_i st) (length nl)); [lia|reflexivity].
  - cbn [scanLoop]. destruct (Nat.ltb_spec (scan_i st) (length nl)) as [Hlt|Hge].
    + destruct fuel' as [|fuel']; [lia|]. cbn [scanLoop].
      rewrite (proj2 (Nat.ltb_lt _ _) Hlt).
      pose proof (scanStep_advances nl st Hlt). apply IH; lia.
    + destruct fuel' as [|fuel']; [reflexivity|]. cbn [scanLoop].
      now rewrite (proj2 (Nat.ltb_ge _ _) Hge).
Qed.

Lemma scanStep_covered (nl : list jsstring) (st : ScanState) :
  Forall Trimmed nl -> Covered nl st -> scan_i st < length nl ->
  Covered nl (scanStep nl st).
Proof.
  intros Hall [Hle Hcov] Hi. split; [apply scanStep_advances; exact Hi|].
  destruct (ScanStep_holds Hall (scanStep_spec nl st) Hi)
    as (item & n & -> & -> & Hh).
  rewrite firstn_plus. now apply Covers_snoc.
Qed.

Lemma scanContent_covers (nl : list jsstring) :
  Forall Trimmed nl -> Covers nl (scanContent nl).
Proof.
  intros Hall. unfold scanContent.
  assert (Hinv : Covered nl (scanLoop (length nl) nl initialScan)).
  { apply scanLoop_invariant.
    - intros st. now apply scanStep_covered.
    - split; cbn; [lia|constructor]. }
  destruct Hinv as [_ Hcov].
  rewrite scanLoop_end in Hcov by (cbn; lia).
  now rewrite firstn_all in Hcov.
Qed.

End ScanInvariants.

(* ------------------------------------------------------------------ *)
(** ** Invariants of the output                                        *)
(* ------------------------------------------------------------------ *)

Lemma nth_error_snoc {A : Type} (l : list A) (x y : A) (k : nat) :
  nth_error (l ++ [x]) k = Some y ->
  (k < length l /\ nth_error l k = Some y) \/ (k = length l /\ y = x).
Proof.
  intros Hk. destruct (Nat.lt_ge_cases k (length l)) as [Hlt|Hge].
  - left. split; [exact Hlt|]. now rewrite nth_error_app1 in Hk.
  - right. rewrite nth_error_app2 in Hk by exact Hge.
    destruct (k - length l) as [|d] eqn:Hd; cbn in Hk.
    + injection Hk as <-. split; [lia|reflexivity].
    + now destruct d.
Qed.

Lemma nth_error_snoc_last {A : Type} (l : list A) (x : A) :
  nth_error (l ++ [x]) (length l) = Some x.
Proof. rewrite nth_error_app2 by lia. now rewrite Nat.sub_diag. Qed.

Lemma nth_error_snoc_lt {A : Type} (l : list A) (x : A) (k : nat) :
  k < length l -> nth_error (l ++ [x]) k = nth_error l k.
Proof. intros Hk. now apply nth_error_app1. Qed.

Lemma nth_error_lt {A : Type} (l : list A) (k : nat) (x : A) :
  nth_error l k = Some x -> k < length l.
Proof. intros Hk. apply nth_error_Some. congruence. Qed.

(** *** Sub-bullets *)

Lemma SubBulletsFollowBullets_snoc (l : list ContentItem) (x : ContentItem) :
  SubBulletsFollowBullets l ->
  (type x = sub_bullet -> hasType bullet (lastOf l) = true) ->
  SubBulletsFollowBullets (l ++ [x]).
Proof.
  intros Hl Hx k item Hk Hty.
  apply nth_error_snoc in Hk as [[Hlt Hk]|[-> ->]].
  - destruct (Hl k item Hk Hty) as (p & Hpos & Hp & Hb).
    exists p. repeat split; try assumption.
    rewrite nth_error_snoc_lt by lia. exact Hp.
  - specialize (Hx Hty). rewrite lastOf_nth_error in Hx.
    destruct (length l) as [|n] eqn:Hn; [discriminate|].
    destruct (nth_error l n) as [p|] eqn:Hp; [|discriminate].
    exists p. repeat split; [lia| |cbn in Hx; now destruct (type p)].
    replace (S n - 1) with n by lia.
    rewrite nth_error_app1; [exact Hp|lia].
Qed.

Lemma SubBulletsFollowBullets_retyped (a b : list ContentItem) :
  Forall2 Retyped a b -> SubBulletsFollowBullets a -> SubBulletsFollowBullets b.
Proof.
  intros Hab Ha k item Hk Hty.
  destruct (Forall2_nth_error Hab _ Hk) as (x & Hx & [Heq|[_ Heq]]);
    subst item; [|discriminate].
  destruct (Ha k x Hx Hty) as (p & Hpos & Hp & Hb).
  destruct (Forall2_nth_error_l Hab _ Hp) as (q & Hq & [Heq|[Hpar _]]);
    [subst q|congruence].
  now exists p.
Qed.

(** *** Numbering *)

Lemma WellNumbered_snoc_other (l : list ContentItem) (x : ContentItem) :
  WellNumbered l -> type x <> numbered -> WellNumbered (l ++ [x]).
Proof.
  intros Hl Hx k item Hk Hty.
  apply nth_error_snoc in Hk as [[Hlt Hk]|[-> ->]]; [|congruence].
  destruct (Hl k item Hk Hty) as (n & Hn & Hcase).
  exists n. split; [exact Hn|].
  destruct Hcase as [->|(j & p & Hj & Hp & Hpt & Hpn & Hbetween)]; [now left|].
  right. exists j, p. repeat split; try assumption.
  - rewrite nth_error_snoc_lt by lia. exact Hp.
  - intros m q Hm Hq. rewrite nth_error_snoc_lt in Hq by lia. eauto.
Qed.

Lemma WellNumbered_snoc_numbered (l : list ContentItem) (x : ContentItem)
      (counter num : Z) :
  WellNumbered l -> counter = 0%Z \/ CounterTrace l counter ->
  number x = Some num -> (num = 1 \/ num = counter + 1)%Z ->
  WellNumbered (l ++ [x]).
Proof.
  intros Hl Hctr Hnum Hcase k item Hk Hty.
  apply nth_error_snoc in Hk as [[Hlt Hk]|[-> ->]].
  - destruct (Hl k item Hk Hty) as (n & Hn & Hc).
    exists n. split; [exact Hn|].
    destruct Hc as [->|(j & p & Hj & Hp & Hpt & Hpn & Hbetween)]; [now left|].
    right. exists j, p. repeat split; try assumption.
    + rewrite nth_error_snoc_lt by lia. exact Hp.
    + intros m q Hm Hq. rewrite nth_error_snoc_lt in Hq by lia. eauto.
  - exists num. split; [exact Hnum|].
    destruct Hcase as [->| ->]; [now left|].
    destruct Hctr as [->|(j & p & Hp & Hpt & Hpn & Hafter)]; [now left|].
    right. exists j, p.
    pose proof (nth_error_lt _ _ Hp) as Hj.
    repeat split; try assumption.
    + rewrite nth_error_snoc_lt by lia. exact Hp.
    + now replace (counter + 1 - 1)%Z with counter by lia.
    + intros m q Hm Hq. rewrite nth_error_snoc_lt in Hq by lia.
      apply (Hafter m q); [lia|exact Hq].
Qed.

Lemma CounterTrace_snoc_numbered (l : list ContentItem) (x : ContentItem) (num : Z) :
  type x = numbered -> number x = Some num -> CounterTrace (l ++ [x]) num.
Proof.
  intros Hty Hnum. exists (length l), x.
  repeat split; try assumption; [apply nth_error_snoc_last|].
  intros m q Hm Hq. apply nth_error_lt in Hq. rewrite length_app in Hq.
  cbn in Hq. lia.
Qed.

Lemma CounterTrace_snoc_bulleted (l : list ContentItem) (x : ContentItem) (c : Z) :
  CounterTrace l c -> Bulleted x -> CounterTrace (l ++ [x]) c.
Proof.
  intros (j & p & Hp & Hpt & Hpn & Hafter) Hx.
  pose proof (nth_error_lt _ _ Hp) as Hj.
  exists j, p. repeat split; try assumption.
  - rewrite nth_error_snoc_lt by lia. exact Hp.
  - intros m q Hm Hq. apply nth_error_snoc in Hq as [[Hlt Hq]|[_ ->]]; eauto.
Qed.

Lemma WellNumbered_retyped (a b : list ContentItem) :
  Forall2 Retyped a b -> WellNumbered a -> WellNumbered b.
Proof.
  intros Hab Ha k item Hk Hty.
  destruct (Forall2_nth_error Hab _ Hk) as (x & Hx & [Heq|[_ Heq]]);
    subst item; [|discriminate].
  destruct (Ha k x Hx Hty) as (n & Hn & Hcase).
  exists n. split; [exact Hn|].
  destruct Hcase as [->|(j & p & Hj & Hp & Hpt & Hpn & Hbetween)]; [now left|].
  right.
  destruct (Forall2_nth_error_l Hab _ Hp) as (q & Hq & [Heq|[Hpar _]]);
    [subst q|congruence].
  exists j, p. repeat split; try assumption.
  intros m q Hm Hq'.
  destruct (Forall2_nth_error Hab _ Hq') as (y & Hy & [Heq|[Hpar Heq]]); subst q.
  - eauto.
  - specialize (Hbetween m y Hm Hy). destruct Hbetween; congruence.
Qed.

(** *** The scan keeps the invariants *)

Section ScanOutput.

Context `{UnicodeCase}.

Lemma numberedHit_num (text : jsstring) (counter num : Z) (rest : option jsstring) :
  numberedHit text counter = Some (num, rest) -> (num = 1 \/ num = counter + 1)%Z.
Proof.
  unfold numberedHit.
  destruct (exec reNumbered text) as [g|]; [|discriminate].
  destruct (capture 1 g) as [d|]; [|discriminate].
  destruct (_ || _) eqn:Hn; [|discriminate]. intros [= <- _].
  apply orb_true_iff in Hn as [Hn|Hn]; apply Z.eqb_eq in Hn; auto.
Qed.

Lemma subBulletHit_last (text : jsstring) (items : list ContentItem)
      (stripped : option jsstring) :
  subBulletHit text items = Some stripped -> hasType bullet (lastOf items) = true.
Proof.
  unfold subBulletHit.
  destruct (exec reSubBullet text); [|discriminate].
  destruct (_ && _) eqn:Hb; [|discriminate]. intros _.
  now apply andb_true_iff in Hb as [_ Hb].
Qed.

Lemma isHeading_not_numbered (t : ItemType) : isHeading t -> t <> numbered.
Proof. intros [->|[->| ->]]; discriminate. Qed.

Lemma isHeading_not_sub_bullet (t : ItemType) : isHeading t -> t <> sub_bullet.
Proof. intros [->|[->| ->]]; discriminate. Qed.

Lemma scanStep_numbering (nl : list jsstring) (st : ScanState) :
  NumberingInv st -> NumberingInv (scanStep nl st).
Proof.
  intros [Hwn Hctr].
  destruct (scanStep_spec nl st)
    as [Hc|lvl Hc Hl|Hc Hl Hh|num rest Hc Hl Hh Hn|bm Hc Hl Hh Hn Hb
        |stripped Hc Hl Hh Hn Hb Hs|Hc Hl Hh Hn Hb Hs Hp Hlen|Hc Hl Hh Hn Hb Hs Hp];
    split; cbn [content numberedListCounter]; try (now left).
  - apply WellNumbered_snoc_other; [exact Hwn|discriminate].
  - apply WellNumbered_snoc_other; [exact Hwn|].
    apply isHeading_not_numbered. eapply getHeadingLevel_heading; eassumption.
  - apply WellNumbered_snoc_other; [exact Hwn|].
    apply isHeading_not_numbered, scoredLevel_heading.
  - eapply WellNumbered_snoc_numbered;
      [exact Hwn|exact Hctr|reflexivity|eapply numberedHit_num; eassumption].
  - right. now apply CounterTrace_snoc_numbered.
  - apply WellNumbered_snoc_other; [exact Hwn|discriminate].
  - destruct Hctr as [Hz|Htr]; [now left|right].
    apply CounterTrace_snoc_bulleted; [exact Htr|now left].
  - apply WellNumbered_snoc_other; [exact Hwn|discriminate].
  - destruct Hctr as [Hz|Htr]; [now left|right].
    apply CounterTrace_snoc_bulleted; [exact Htr|now right].
  - apply WellNumbered_snoc_other; [exact Hwn|discriminate].
  - destruct Hctr as [Hz|Htr]; [now left|right].
    apply CounterTrace_snoc_bulleted; [exact Htr|now left].
  - apply WellNumbered_snoc_other; [exact Hwn|discriminate].
Qed.

Lemma scanStep_sub_bullets (nl : list jsstring) (st : ScanState) :
  SubBulletsFollowBullets (content st) ->
  SubBulletsFollowBullets (content (scanStep nl st)).
Proof.
  intros Hsb.
  destruct (scanStep_spec nl st)
    as [Hc|lvl Hc Hl|Hc Hl Hh|num rest Hc Hl Hh Hn|bm Hc Hl Hh Hn Hb
        |stripped Hc Hl Hh Hn Hb Hs|Hc Hl Hh Hn Hb Hs Hp Hlen|Hc Hl Hh Hn Hb Hs Hp];
    cbn [content]; apply SubBulletsFollowBullets_snoc; try exact Hsb;
    try discriminate.
  - intros Hty. exfalso. revert Hty. apply isHeading_not_sub_bullet.
    eapply getHeadingLevel_heading; eassumption.
  - intros Hty. exfalso. revert Hty.
    apply isHeading_not_sub_bullet, scoredLevel_heading.
  - intros _. eapply subBulletHit_last; eassumption.
Qed.



Lemma scanContent_numbering (nl : list jsstring) : WellNumbered (scanContent nl).
Proof.
  unfold scanContent.
  apply (@scanLoop_invariant _ NumberingInv nl).
  - intros st Hst _. now apply scanStep_numbering.
  - split; [|now left]. intros k item Hk. now destruct k.
Qed.

Lemma scanContent_sub_bullets (nl : list jsstring) :
  SubBulletsFollowBullets (scanContent nl).
Proof.
  unfold scanContent.
  apply (@scanLoop_invariant _ (fun st => SubBulletsFollowBullets (content st)) nl).
  - intros st Hst _. now apply scanStep_sub_bullets.
  - intros k item Hk. now destruct k.
Qed.


End ScanOutput.

(** *** The pass keeps what the items hold *)

Lemma Holds_retyped (ls : list jsstring) (x y : ContentItem) :
  Retyped x y -> Holds ls x -> Holds ls y.
Proof.
  intros [->|[Hpar ->]] Hh; [exact Hh|].
  destruct Hh as [ls' it Hty Hls _|line it Hty Htx|line it Hty Htx|line it Hty Htx].
  - congruence.
  - apply holds_line; [right; now right|exact Htx].
  - destruct Hty; congruence.
  - congruence.
Qed.

Lemma Covers_retyped (ls : list jsstring) (a b : list ContentItem) :
  Forall2 Retyped a b -> Covers ls a -> Covers ls b.
Proof.
  intros Hab Hc. revert b Hab.
  induction Hc as [|ls0 rest it its Hh _ IH]; intros b Hab; inversion Hab; subst.
  - constructor.
  - constructor; [eapply Holds_retyped; eassumption|now apply IH].
Qed.

(** *** The pass, item by item *)

Lemma postProcessItem_eq prev item next :
  postProcessItem prev item next
  = if shortParagraph item
       && (introducesList prev || hasType bullet prev && hasType bullet next)
    then withType item bullet else item.
Proof.
  unfold postProcessItem, shortParagraph, introducesList.
  destruct (ItemType_eqb (type item) paragraph && truthy (text item)
            && (jslength (textOrEmpty item) <? 100)%Z); [|reflexivity].
  cbn [andb].
  destruct prev as [p|]; [|reflexivity].
  destruct (truthy (text p) && isListIntroText (textOrEmpty p)); [reflexivity|].
  cbn [orb]. now destruct (hasType bullet (Some p) && hasType bullet next).
Qed.

Lemma lastOf_firstn {A : Type} (l : list A) (k : nat) :
  k <= length l -> lastOf (firstn k l) = before l k.
Proof.
  intros Hk. rewrite lastOf_nth_error, length_firstn.
  replace (Nat.min k (length l)) with k by lia.
  destruct k as [|j]; [reflexivity|]. cbn [before].
  rewrite nth_error_firstn.
  destruct (Nat.ltb_spec j (S j)); [reflexivity|lia].
Qed.

Lemma Retyped_text (x y : ContentItem) : Retyped x y -> text y = text x.
Proof. now intros [->|[_ ->]]. Qed.

Lemma introducesList_retyped (a b : list ContentItem) (k : nat) :
  Forall2 Retyped a b -> introducesList (before b k) = introducesList (before a k).
Proof.
  intros Hab. destruct k as [|j]; [reflexivity|]. cbn [before].
  destruct (nth_error b j) as [y|] eqn:Hy.
  - destruct (Forall2_nth_error Hab _ Hy) as (x & -> & Hxy).
    cbn. unfold textOrEmpty. now rewrite (Retyped_text Hxy).
  - apply nth_error_None in Hy. rewrite <- (Forall2_length Hab) in Hy.
    apply nth_error_None in Hy. now rewrite Hy.
Qed.

Lemma postProcessContent_nth (content : list ContentItem) (k : nat) (item : ContentItem) :
  nth_error content k = Some item ->
  nth_error (postProcessContent content) k
  = Some (if shortParagraph item
             && (introducesList (before content k)
                 || hasType bullet (before (postProcessContent content) k)
                    && hasType bullet (nth_error content (S k)))
          then withType item bullet else item).
Proof.
  intros Hk.
  pose proof (postProcessLoop_nth content [] k Hk) as Hnth.
  cbn [length Nat.add] in Hnth. fold (postProcessContent content) in Hnth.
  rewrite Hnth, postProcessItem_eq.
  rewrite lastOf_firstn.
  - now rewrite (introducesList_retyped k (postProcessContent_retyped content)).
  - rewrite postProcessContent_length. apply nth_error_lt in Hk. lia.
Qed.

(* ------------------------------------------------------------------ *)
(** ** Bounds of the scores                                            *)
(* ------------------------------------------------------------------ *)

Open Scope Z_scope.

Lemma addIf_lower (b : bool) (d s : Z) : 0 <= d -> s <= addIf b d s.
Proof. unfold addIf. destruct b; lia. Qed.

Lemma addIf_lower_neg (b : bool) (d s : Z) : d <= 0 -> s + d <= addIf b d s.
Proof. unfold addIf. destruct b; lia. Qed.

Lemma header_start_lower (b1 b2 b3 : bool) :
  -30 <= addIf b3 (-30) (addIf b2 10 (addIf b1 15 0)).
Proof. destruct b1, b2, b3; cbn; lia. Qed.

Lemma score_tail_lower (b1 b2 b3 b4 b5 b6 b7 : bool) (s : Z) :
  s - 15 <= addIf b7 15 (addIf b6 20 (addIf b5 10 (addIf b4 10
              (addIf b3 (-15) (addIf b2 10 (addIf b1 15 s)))))).
Proof. unfold addIf. destruct b1, b2, b3, b4, b5, b6, b7; lia. Qed.

Section ScoreBounds.

Context `{UnicodeCase}.

Lemma patternLoop_lower (patterns : list regex) (d : Z) (trimmed : jsstring) :
  0 <= d -> forall score, score <= patternLoop patterns d trimmed score.
Proof.
  intros Hd. induction patterns as [|pat rest IH]; intros score; cbn; [lia|].
  etransitivity; [|apply IH]. now apply addIf_lower.
Qed.

Lemma keywordLoop_bounds (keywords : list jsstring) (trimmed : jsstring) :
  forall score,
    match keywordLoop keywords trimmed score with
    | Return v => v = 90 \/ v = 85
    | Continue score' => score <= score'
    end.
Proof.
  induction keywords as [|keyword rest IH]; intros score; cbn [keywordLoop]; [lia|].
  destruct (jseqb trimmed keyword); [now left|].
  destruct (startsWith trimmed (keyword ++ str ":")); [now right|].
  specialize (IH (addIf (includes (toLowerCase trimmed) (toLowerCase keyword)) 10
                    (addIf (startsWith trimmed (keyword ++ str " ")) 20 score))).
  destruct (keywordLoop rest trimmed _); [exact IH|].
  etransitivity; [|exact IH].
  repeat (etransitivity; [|apply addIf_lower; lia]). reflexivity.
Qed.

Lemma analyzeCodeProbability_bounds (text : jsstring) (context : list jsstring) :
  0 <= analyzeCodeProbability text context <= 100.
Proof.
  unfold analyzeCodeProbability. split; [|apply Z.le_min_r].
  apply Z.min_glb; [|lia].
  repeat (etransitivity; [|apply addIf_lower; lia]).
  first [lia | apply patternLoop_lower; lia].
Qed.

Lemma analyzeHeaderProbability_bounds (text : jsstring)
      (prevText nextText : option jsstring) :
  -45 <= analyzeHeaderProbability text prevText nextText <= 100.
Proof.
  unfold analyzeHeaderProbability.
  repeat match goal with
         | |- context [if test ?r ?t then _ else _] => destruct (test r t); [lia|]
         end.
  match goal with
  | |- context [keywordLoop ?k ?t (addIf ?b3 (-30) (addIf ?b2 10 (addIf ?b1 15 0)))] =>
      pose proof (keywordLoop_bounds k t (addIf b3 (-30) (addIf b2 10 (addIf b1 15 0))))
        as Hk;
      pose proof (@header_start_lower b1 b2 b3) as Hs;
      destruct (keywordLoop k t (addIf b3 (-30) (addIf b2 10 (addIf b1 15 0))))
        as [v|score']
  end; [lia|].
  match goal with
  | |- context [addIf ?b7 15 (addIf ?b6 20 (addIf ?b5 10 (addIf ?b4 10
                  (addIf ?b3 (-15) (addIf ?b2 10 (addIf ?b1 15 score'))))))] =>
      pose proof (@score_tail_lower b1 b2 b3 b4 b5 b6 b7 score')
  end.
  lia.
Qed.

Lemma analyzeBulletProbability_bounds (text : jsstring) (prevText : option jsstring)
      (isAfterListIntro : bool) :
  -20 <= analyzeBulletProbability text prevText isAfterListIntro <= 100.
Proof.
  unfold analyzeBulletProbability.
  destruct (test reBulletGlyph (trim text)); [lia|].
  match goal with
  | |- context [addIf ?b5 5 (addIf ?b4 10 (addIf ?b3 (-20)
                  (patternLoop ?ps 15 ?t (addIf ?b2 10 (addIf ?b1 40 0)))))] =>
      pose proof (@patternLoop_lower ps 15 t ltac:(lia) (addIf b2 10 (addIf b1 40 0)));
      pose proof (@addIf_lower b1 40 0 ltac:(lia));
      pose proof (@addIf_lower b2 10 (addIf b1 40 0) ltac:(lia));
      pose proof (@addIf_lower_neg b3 (-20)
                    (patternLoop ps 15 t (addIf b2 10 (addIf b1 40 0))) ltac:(lia));
      pose proof (@addIf_lower b4 10
                    (addIf b3 (-20) (patternLoop ps 15 t (addIf b2 10 (addIf b1 40 0))))
                    ltac:(lia));
      pose proof (@addIf_lower b5 5
                    (addIf b4 10 (addIf b3 (-20)
                       (patternLoop ps 15 t (addIf b2 10 (addIf b1 40 0)))))
                    ltac:(lia))
  end.
  lia.
Qed.

End ScoreBounds.

Close Scope Z_scope.

(* ------------------------------------------------------------------ *)
(** ** What the items keep of the lines                                *)
(* ------------------------------------------------------------------ *)

Lemma entryOf_heading (t : ItemType) (line : jsstring) :
  isHeading t -> entryOf t line = Some line.
Proof. intros [->|[->| ->]]; reflexivity. Qed.

Lemma Partition_snoc (R : list jsstring -> ContentItem -> Prop)
      (a ls : list jsstring) (items : list ContentItem) (item : ContentItem) :
  Partition R a items -> R ls item -> Partition R (a ++ ls) (items ++ [item]).
Proof.
  intros Ha Hh. induction Ha as [|ls0 rest it its Hh0 _ IH]; cbn [app].
  - rewrite <- (app_nil_r ls). constructor; [exact Hh|constructor].
  - rewrite <- app_assoc. now constructor.
Qed.

Lemma KeepsPlain_retyped (ls : list jsstring) (x y : ContentItem) :
  Retyped x y -> KeepsPlain ls x -> Keeps ls y.
Proof.
  intros [->|[Hpar ->]] [Hk Hplain]; [exact Hk|].
  specialize (Hplain Hpar).
  destruct Hk as [ls' it Hty Hls _|line entry it Hty He Htx]; [congruence|].
  rewrite Hpar in He. injection He as <-.
  inversion Hplain as [|? ? Hnone _]; subst.
  apply keeps_text with (entry := line); cbn [type text withType].
  - discriminate.
  - unfold entryOf. now rewrite Hnone.
  - exact Htx.
Qed.

Lemma Partition_retyped (ls : list jsstring) (a b : list ContentItem) :
  Forall2 Retyped a b -> Partition KeepsPlain ls a -> Partition Keeps ls b.
Proof.
  intros Hab Hc. revert b Hab.
  induction Hc as [|ls0 rest it its Hh _ IH]; intros b Hab; inversion Hab; subst.
  - constructor.
  - constructor; [eapply KeepsPlain_retyped; eassumption|now apply IH].
Qed.

Lemma entriesOf_app (t1 t2 : list ItemType) (l1 l2 : list jsstring) :
  length t1 = length l1 ->
  entriesOf (t1 ++ t2) (l1 ++ l2) = entriesOf t1 l1 ++ entriesOf t2 l2.
Proof.
  unfold entriesOf. revert l1.
  induction t1 as [|t t1 IH]; intros [|l l1] Hlen; try discriminate; cbn.
  - reflexivity.
  - f_equal. apply IH. now injection Hlen.
Qed.

Lemma entriesOf_code (ls : list jsstring) :
  entriesOf (map (fun _ => code_block) ls) ls = map Some ls.
Proof.
  unfold entriesOf. induction ls as [|l ls IH]; cbn; [reflexivity|]. now rewrite IH.
Qed.

(** One item: as many entries as lines, each the entry of its line. *)
Lemma Keeps_entries (ls : list jsstring) (item : ContentItem) :
  Keeps ls item ->
  length (flattenItem item) = length ls
  /\ map Some (flattenItem item)
     = entriesOf (map (fun _ => type item) (flattenItem item)) ls.
Proof.
  unfold flattenItem.
  intros [ls' it Hty Hls _|line entry it Hty He Htx].
  - rewrite Hty, Hls. split; [reflexivity|]. now rewrite entriesOf_code.
  - rewrite Htx.
    assert (Hflat : match type it with
                    | code_block => match lines it with Some l => l | None => [] end
                    | _ => [entry]
                    end = [entry]) by (destruct (type it); congruence).
    rewrite Hflat. split; [reflexivity|].
    unfold entriesOf. cbn. now rewrite He.
Qed.

Lemma Partition_entries (ls : list jsstring) (items : list ContentItem) :
  Partition Keeps ls items ->
  length (flatten items) = length ls
  /\ map Some (flatten items) = entriesOf (lineTypes items) ls.
Proof.
  induction 1 as [|ls rest item items Hk _ [IHlen IH]]; [now split|].
  destruct (Keeps_entries Hk) as [Hlen He].
  unfold flatten, lineTypes in *. cbn [flat_map].
  rewrite !length_app, map_app, Hlen, IHlen. split; [reflexivity|].
  rewrite entriesOf_app by now rewrite length_map.
  now rewrite He, IH.
Qed.

(** The entries on the code units of a trimmed line. *)
Lemma exec_marker_shape (glyphs : list N) (line : jsstring) :
  Trimmed line ->
  match exec (Seq Bol (Seq (codes glyphs) (Seq (Star space) (Grp 1 (Plus dot))))) line with
  | Some g => exists entry, capture 1 g = Some entry /\ MarkerRemoved glyphs line entry
  | None =>
      forall glyph rest,
        line = glyph :: rest -> existsb (N.eqb glyph) glyphs = false \/ rest = []
  end.
Proof.
  intros Htrim. destruct line as [|a rest]; [now destruct Htrim|].
  rewrite (exec_marker glyphs Htrim).
  destruct (existsb (N.eqb a) glyphs) eqn:Hg.
  - destruct rest as [|r0 rest0].
    + intros glyph rest [= <- <-]. now right.
    + exists (afterMarker (r0 :: rest0)). split; [reflexivity|].
      exists a, (r0 :: rest0). repeat split; [exact Hg|discriminate].
  - intros glyph rest' [= <- <-]. now left.
Qed.

Lemma entryOf_shape (t : ItemType) (line entry : jsstring) :
  Trimmed line -> entryOf t line = Some entry -> EntryShape t line entry.
Proof.
  intros Htrim. unfold entryOf, EntryShape.
  destruct t; try (now intros [= <-]).
  - pose proof (exec_marker_shape bulletGlyphs Htrim) as Hs.
    change (Seq Bol _) with reBullet in Hs.
    destruct (exec reBullet line) as [g|].
    + destruct Hs as (e & He & Hm). rewrite He. intros [= <-]. now left.
    + intros [= <-]. right. now split.
  - destruct (exec reNumbered line) as [g|] eqn:Hg; [|discriminate].
    destruct (exec_reNumbered Htrim Hg) as (ds & p & w & rest & Hl & Hne & Hds & Hp & Hw & ->).
    cbn [capture Nat.eqb]. intros [= <-].
    exists ds, p, w, rest. now repeat split.
  - pose proof (exec_marker_shape subBulletGlyphs Htrim) as Hs.
    change (Seq Bol _) with reSubBullet in Hs.
    destruct (exec reSubBullet line) as [g|]; [|discriminate].
    destruct Hs as (e & He & Hm). rewrite He. now intros [= <-].
Qed.

Section ScanKeeps.

Context `{UnicodeCase}.

(** The item pushed by one iteration keeps the lines it consumed. *)
Lemma ScanStep_keeps (nl : list jsstring) (st st' : ScanState) :
  Forall Trimmed nl -> ScanStep nl st st' -> scan_i st < length nl ->
  exists item n,
    content st' = content st ++ [item] /\ scan_i st' = scan_i st + n
    /\ KeepsPlain (firstn n (skipn (scan_i st) nl)) item.
Proof.
  intros Hall Hstep Hi.
  assert (Htrim : Trimmed (lineAt nl (scan_i st))).
  { eapply Forall_forall; [exact Hall|]. now apply nth_In. }
  assert (Hone : firstn 1 (skipn (scan_i st) nl) = [lineAt nl (scan_i st)]).
  { now rewrite (skipn_nth nl [] Hi). }
  destruct Hstep as [Hc|lvl Hc Hl|Hc Hl Hh|num rest Hc Hl Hh Hn|bm Hc Hl Hh Hn Hb
                     |stripped Hc Hl Hh Hn Hb Hs|Hc Hl Hh Hn Hb Hs Hp Hlen
                     |Hc Hl Hh Hn Hb Hs Hp].
  - destruct (codeGroupAt_run nl Hi) as [_ Heq].
    eexists _, _. cbn [content scan_i]. repeat split; [|discriminate].
    rewrite <- Heq. apply keeps_code; [reflexivity|reflexivity|discriminate].
  - pose proof (getHeadingLevel_heading _ Hl) as Hlvl.
    eexists _, 1. cbn [content scan_i]. repeat split; rewrite Hone.
    + apply keeps_text with (entry := lineAt nl (scan_i st));
        [now apply isHeading_not_code|now apply entryOf_heading|reflexivity].
    + cbn [type textItem]. destruct Hlvl as [->|[->| ->]]; discriminate.
  - pose proof (scoredLevel_heading (lineAt nl (scan_i st)) (prevOf nl (scan_i st)))
      as Hlvl.
    eexists _, 1. cbn [content scan_i]. repeat split; rewrite Hone.
    + apply keeps_text with (entry := lineAt nl (scan_i st));
        [now apply isHeading_not_code|now apply entryOf_heading|reflexivity].
    + cbn [type textItem]. destruct Hlvl as [Hl'|[Hl'|Hl']]; rewrite Hl'; discriminate.
  - destruct (numberedHit_text _ Htrim Hn) as [Hrest _].
    eexists _, 1. cbn [content scan_i]. repeat split; rewrite Hone; [|discriminate].
    apply keeps_text with (entry := stripNumbered (lineAt nl (scan_i st)));
      cbn [type text numberedItem]; [discriminate| |exact Hrest].
    unfold numberedHit in Hn. unfold entryOf.
    destruct (exec reNumbered (lineAt nl (scan_i st))) as [g|] eqn:Hg; [|discriminate].
    now destruct (exec_reNumbered_captures Htrim Hg) as [_ ->].
  - eexists _, 1. cbn [content scan_i]. repeat split; rewrite Hone; [|discriminate].
    apply keeps_text with (entry := stripBullet (lineAt nl (scan_i st)));
      cbn [type text textItem]; [discriminate| |now apply exec_reBullet_text].
    unfold entryOf. rewrite Hb. now apply exec_reBullet_text.
  - destruct (subBulletHit_text _ Htrim Hs) as [Hstr _].
    eexists _, 1. cbn [content scan_i]. repeat split; rewrite Hone; [|discriminate].
    apply keeps_text with (entry := stripBullet (lineAt nl (scan_i st)));
      cbn [type text textItem]; [discriminate| |exact Hstr].
    unfold subBulletHit in Hs. unfold entryOf.
    destruct (exec reSubBullet (lineAt nl (scan_i st))) as [g|]; [|discriminate].
    destruct (_ && _); [|discriminate]. congruence.
  - eexists _, 1. cbn [content scan_i]. repeat split; rewrite Hone; [|discriminate].
    apply keeps_text with (entry := lineAt nl (scan_i st));
      cbn [type text textItem]; [discriminate| |reflexivity].
    unfold entryOf. now rewrite Hb.
  - eexists _, 1. cbn [content scan_i]. repeat split; rewrite Hone.
    + now apply keeps_text with (entry := lineAt nl (scan_i st)).
    + intros _. now repeat constructor.
Qed.

Lemma scanContent_keeps (nl : list jsstring) :
  Forall Trimmed nl -> Partition KeepsPlain nl (scanContent nl).
Proof.
  intros Hall. unfold scanContent.
  assert (Hinv : scan_i (scanLoop (length nl) nl initialScan) <= length nl
                 /\ Partition KeepsPlain
                      (firstn (scan_i (scanLoop (length nl) nl initialScan)) nl)
                      (content (scanLoop (length nl) nl initialScan))).
  { apply (@scanLoop_invariant _
             (fun st => scan_i st <= length nl
                        /\ Partition KeepsPlain (firstn (scan_i st) nl) (content st))).
    - intros st [Hle Hp] Hi. split; [now apply scanStep_advances|].
      destruct (ScanStep_keeps Hall (scanStep_spec nl st) Hi)
        as (item & n & -> & -> & Hk).
      rewrite firstn_plus. now apply Partition_snoc.
    - split; cbn; [lia|constructor]. }
  destruct Hinv as [_ Hp].
  rewrite scanLoop_end in Hp by (cbn; lia).
  now rewrite firstn_all in Hp.
Qed.

Lemma extractContent_keeps (input : list jsstring) :
  Partition Keeps (nonEmptyLinesOf input) (extractContent input).
Proof.
  unfold extractContent.
  apply (Partition_retyped (postProcessContent_retyped _)).
  apply scanContent_keeps, nonEmptyLinesOf_trimmed.
Qed.

End ScanKeeps.

(* ------------------------------------------------------------------ *)
(** ** The lines the scan reaches                                      *)
(* ------------------------------------------------------------------ *)

Section ScanReach.

Context `{UnicodeCase}.

Lemma scanLoop_stop (nl : list jsstring) (fuel : nat) (st : ScanState) :
  length nl <= scan_i st -> scanLoop fuel nl st = st.
Proof.
  intros Hge. destruct fuel as [|fuel]; [reflexivity|]. cbn [scanLoop].
  now rewrite (proj2 (Nat.ltb_ge _ _) Hge).
Qed.

Lemma scanLoop_plus (nl : list jsstring) (a b : nat) (st : ScanState) :
  scanLoop (a + b) nl st = scanLoop b nl (scanLoop a nl st).
Proof.
  revert st. induction a as [|a IH]; intros st; [reflexivity|].
  cbn [Nat.add scanLoop].
  destruct (Nat.ltb_spec (scan_i st) (length nl)) as [Hlt|Hge]; [apply IH|].
  now rewrite scanLoop_stop.
Qed.

Lemma scanLoop_succ (nl : list jsstring) (k : nat) (st : ScanState) :
  scan_i (scanLoop k nl st) < length nl ->
  scanLoop (S k) nl st = scanStep nl (scanLoop k nl st).
Proof.
  intros Hlt. replace (S k) with (k + 1) by lia. rewrite scanLoop_plus.
  cbn [scanLoop]. now rewrite (proj2 (Nat.ltb_lt _ _) Hlt).
Qed.

Lemma scanLoop_content (nl : list jsstring) (fuel : nat) (st : ScanState) :
  exists rest, content (scanLoop fuel nl st) = content st ++ rest.
Proof.
  revert st. induction fuel as [|fuel IH]; intros st; cbn [scanLoop].
  - exists []. now rewrite app_nil_r.
  - destruct (Nat.ltb_spec (scan_i st) (length nl)) as [Hlt|Hge].
    + destruct (IH (scanStep nl st)) as [rest ->].
      destruct (ScanStep_progress (scanStep_spec nl st) Hlt) as (item & n & -> & _).
      exists (item :: rest). now rewrite <- app_assoc.
    + exists []. now rewrite app_nil_r.
Qed.

Lemma scanLoop_bound (nl : list jsstring) (k : nat) :
  scan_i (scanLoop k nl initialScan) <= length nl.
Proof.
  apply (@scanLoop_invariant _ (fun st => scan_i st <= length nl)).
  - intros st _ Hi. now apply scanStep_advances.
  - cbn. lia.
Qed.

(** The item pushed at a line the scan reaches is in the output of the
    scan, at the place it was pushed to. *)
Lemma reached_pushed (nl : list jsstring) (k : nat) (item : ContentItem) :
  scan_i (scanLoop k nl initialScan) < length nl ->
  content (scanStep nl (scanLoop k nl initialScan))
  = content (scanLoop k nl initialScan) ++ [item] ->
  nth_error (scanContent nl) (length (content (scanLoop k nl initialScan)))
  = Some item.
Proof.
  intros Hlt Hpush. unfold scanContent.
  rewrite (@scanLoop_enough_fuel _ nl (length nl) (S k + length nl) initialScan)
    by (cbn; lia).
  rewrite scanLoop_plus, (scanLoop_succ _ _ _ Hlt).
  destruct (scanLoop_content nl (length nl) (scanStep nl (scanLoop k nl initialScan)))
    as [rest ->].
  rewrite Hpush, <- app_assoc. rewrite nth_error_app2 by lia.
  now rewrite Nat.sub_diag.
Qed.

(** The corrective pass leaves it there, unless it is a paragraph. *)
Lemma reached_in_output (input : list jsstring) (k : nat) (item : ContentItem) :
  let nl := nonEmptyLinesOf input in
  scan_i (scanLoop k nl initialScan) < length nl ->
  content (scanStep nl (scanLoop k nl initialScan))
  = content (scanLoop k nl initialScan) ++ [item] ->
  type item <> paragraph ->
  nth_error (extractContent input) (length (content (scanLoop k nl initialScan)))
  = Some item.
Proof.
  intros nl Hlt Hpush Hty.
  pose proof (@reached_pushed nl k item Hlt Hpush) as Hnth.
  destruct (Forall2_nth_error_l (postProcessContent_retyped (scanContent nl)) _ Hnth)
    as (item' & Hnth' & [->|[Hpar _]]); [exact Hnth'|contradiction].
Qed.

(** Every line before the cursor was reached or absorbed. *)
Lemma scanLoop_reach (nl : list jsstring) (k i : nat) :
  i < scan_i (scanLoop k nl initialScan) -> Reached nl i \/ Absorbed nl i.
Proof.
  induction k as [|k IH]; [cbn; lia|].
  destruct (Nat.lt_ge_cases (scan_i (scanLoop k nl initialScan)) (length nl))
    as [Hlt|Hge].
  - rewrite (scanLoop_succ _ _ _ Hlt). intros Hi.
    destruct (Nat.lt_ge_cases i (scan_i (scanLoop k nl initialScan))) as [Hb|Hb];
      [now apply IH|].
    destruct (Nat.eq_dec i (scan_i (scanLoop k nl initialScan))) as [->|Hne];
      [left; now exists k|].
    right. exists k.
    destruct (scanStep_spec nl (scanLoop k nl initialScan))
      as [Hc|lvl Hc Hl|Hc Hl Hh|num rest Hc Hl Hh Hn|bm Hc Hl Hh Hn Hb'
          |stripped Hc Hl Hh Hn Hb' Hs|Hc Hl Hh Hn Hb' Hs Hp Hlen|Hc Hl Hh Hn Hb' Hs Hp];
      cbn [scan_i] in Hi; try lia.
    split; [exact Hc|lia].
  - replace (S k) with (k + 1) by lia.
    rewrite scanLoop_plus, scanLoop_stop by exact Hge. exact IH.
Qed.

Lemma reached_or_absorbed (nl : list jsstring) (i : nat) :
  i < length nl -> Reached nl i \/ Absorbed nl i.
Proof.
  intros Hi. apply (scanLoop_reach nl (length nl)).
  rewrite scanLoop_end by (cbn; lia). exact Hi.
Qed.

(** A line cannot be both. *)
Lemma scanLoop_monotone (nl : list jsstring) (a b : nat) :
  a <= b -> scan_i (scanLoop a nl initialScan) <= scan_i (scanLoop b nl initialScan).
Proof.
  intros Hab. replace b with (a + (b - a)) by lia. rewrite scanLoop_plus.
  generalize (scanLoop a nl initialScan). generalize (b - a). clear.
  induction n as [|n IH]; intros st; cbn [scanLoop]; [lia|].
  destruct (Nat.ltb_spec (scan_i st) (length nl)) as [Hlt|Hge]; [|lia].
  pose proof (scanStep_advances nl st Hlt). specialize (IH (scanStep nl st)). lia.
Qed.

Lemma absorbed_not_reached (nl : list jsstring) (i : nat) :
  Absorbed nl i -> ~ Reached nl i.
Proof.
  intros (k & Hc & Hlo & Hhi) (j & Hj).
  assert (Hlt : scan_i (scanLoop k nl initialScan) < length nl).
  { destruct (Nat.lt_ge_cases (scan_i (scanLoop k nl initialScan)) (length nl))
      as [Hlt|Hge]; [exact Hlt|].
    pose proof (scanLoop_bound nl j). lia. }
  pose proof (scanLoop_succ nl k initialScan Hlt) as Hs.
  assert (Hnext : scan_i (scanLoop (S k) nl initialScan)
                  = scan_i (scanLoop k nl initialScan)
                    + length (codeGroupAt nl (scan_i (scanLoop k nl initialScan)))).
  { rewrite Hs.
    destruct (scanStep_spec nl (scanLoop k nl initialScan))
      as [Hc'|lvl Hc' Hl|Hc' Hl Hh|num rest Hc' Hl Hh Hn|bm Hc' Hl Hh Hn Hb'
          |stripped Hc' Hl Hh Hn Hb' Hs'|Hc' Hl Hh Hn Hb' Hs' Hp Hlen
          |Hc' Hl Hh Hn Hb' Hs' Hp]; try congruence.
    reflexivity. }
  destruct (Nat.le_gt_cases j k) as [Hle|Hgt].
  - pose proof (scanLoop_monotone nl Hle). lia.
  - pose proof (@scanLoop_monotone nl (S k) j Hgt). lia.
Qed.

End ScanReach.

(* ------------------------------------------------------------------ *)
(** ** Properties of the pipeline                                      *)
(* ------------------------------------------------------------------ *)

Section Pipeline.

Context `{UnicodeCase}.

Lemma extractContent_holds_lines (input : list jsstring) :
  Covers (nonEmptyLinesOf input) (extractContent input).
Proof.
  unfold extractContent.
  apply (Covers_retyped (postProcessContent_retyped _)).
  apply scanContent_covers, nonEmptyLinesOf_trimmed.
Qed.

Lemma flatten_extractContent (input : list jsstring) :
  Forall2 carries (nonEmptyLinesOf input) (flatten (extractContent input)).
Proof. apply Covers_flatten, extractContent_holds_lines. Qed.

(** C1 (as amended). The output of [extractContent] cuts the lines of
    the input into consecutive groups, one for each item, in order, so
    that every line is in exactly one item, none dropped and none
    duplicated: a code block has the lines of its group, at least one,
    unchanged; any other item was made from one line, and its text is
    the entry of that line for the type of the item. So flattening the
    output gives one entry for each line, in order, and the entries are
    computed from the lines and the types of the items that hold them.
    The entry is the line itself for a heading, a paragraph and a bullet
    on a line the bullet pattern does not match (an inferred bullet). It
    is the line without its marker for a numbered item, whose line is a
    numeral, a [.] or a [)], white space and a text, for a bullet on a
    line that starts with a glyph of the bullet pattern and goes on, and
    for a sub-bullet: the marker and the white space after it are
    removed, and the entry ends at the first line terminator. *)
Theorem extractContent_covers (input : list jsstring) :
  let nl := nonEmptyLinesOf input in
  let out := extractContent input in
  Partition Keeps nl out
  /\ length (flatten out) = length nl
  /\ map Some (flatten out) = entriesOf (lineTypes out) nl
  /\ forall t line entry,
       In line nl -> entryOf t line = Some entry -> EntryShape t line entry.
Proof.
  intros nl out.
  pose proof (extractContent_keeps input) as Hp.
  destruct (Partition_entries Hp) as [Hlen He].
  repeat split; [exact Hp|exact Hlen|exact He|].
  intros t line entry Hin. apply entryOf_shape.
  eapply Forall_forall; [apply nonEmptyLinesOf_trimmed|exact Hin].
Qed.

(** C2 (as amended). Every numbered item of the output holds 1, or
    exactly one more than the closest numbered item before it, and then
    only bullets and sub-bullets lie between the two. So inside a run
    each number is 1 or its predecessor plus 1, and the first numbered
    item after a heading, a code block or a paragraph holds 1; a bullet
    does not reset the counter. *)
Theorem numbering_continues_or_restarts (input : list jsstring) :
  forall k item,
    nth_error (extractContent input) k = Some item -> type item = numbered ->
    exists n,
      number item = Some n
      /\ (n = 1%Z
          \/ exists j p,
               j < k /\ nth_error (extractContent input) j = Some p
               /\ type p = numbered /\ number p = Some (n - 1)%Z
               /\ forall m q,
                    j < m < k -> nth_error (extractContent input) m = Some q ->
                    type q = bullet \/ type q = sub_bullet).
Proof.
  apply (WellNumbered_retyped (postProcessContent_retyped _)).
  apply scanContent_numbering.
Qed.


(** C8. Every sub-bullet of the final output comes right after a bullet. *)
Theorem sub_bullets_follow_bullets (input : list jsstring) :
  forall k item,
    nth_error (extractContent input) k = Some item -> type item = sub_bullet ->
    exists p,
      0 < k /\ nth_error (extractContent input) (k - 1) = Some p /\ type p = bullet.
Proof.
  apply (SubBulletsFollowBullets_retyped (postProcessContent_retyped _)).
  apply scanContent_sub_bullets.
Qed.

(** C9. The scan is total. Every iteration pushes one item and moves the
    cursor forward by at least one line, never past the end; a line that
    no other rule takes is pushed as a paragraph; as many iterations as
    there are lines bring the cursor to the end, where the loop stops,
    and more fuel changes nothing; the output then holds every line:
    flattened, it has as many entries as the input has lines. *)
Theorem scan_total (input : list jsstring) :
  let nl := nonEmptyLinesOf input in
  (forall st,
     scan_i st < length nl ->
     scan_i st < scan_i (scanStep nl st) <= length nl
     /\ exists item, content (scanStep nl st) = content st ++ [item])
  /\ (forall st,
        codeCommitted nl (scan_i st) = false ->
        getHeadingLevel (lineAt nl (scan_i st)) = None ->
        (headerProbAt nl (scan_i st) < 70)%Z ->
        numberedHit (lineAt nl (scan_i st)) (numberedListCounter st) = None ->
        exec reBullet (lineAt nl (scan_i st)) = None ->
        subBulletHit (lineAt nl (scan_i st)) (content st) = None ->
        (bulletProbAt nl st < 60 \/ 120 <= jslength (lineAt nl (scan_i st)))%Z ->
        scanStep nl st
        = mkScan (scan_i st + 1) 0 (introIndex nl st)
            (content st
             ++ [textItem paragraph (Some (lineAt nl (scan_i st)))
                   (100 - headerProbAt nl (scan_i st) - bulletProbAt nl st)]))
  /\ (forall fuel,
        length nl <= fuel ->
        scanLoop fuel nl initialScan = scanLoop (length nl) nl initialScan)
  /\ scan_i (scanLoop (length nl) nl initialScan) = length nl
  /\ length (flatten (extractContent input)) = length nl.
Proof.
  intros nl. split; [|split; [|split; [|split]]].
  - intros st Hi. split; [now apply scanStep_advances|].
    destruct (ScanStep_progress (scanStep_spec nl st) Hi) as (item & _ & Hc & _).
    now exists item.
  - intros st Hc Hl Hh Hn Hb Hs Hp.
    destruct (scanStep_spec nl st)
      as [Hc'|lvl Hc' Hl'|Hc' Hl' Hh'|num rest Hc' Hl' Hh' Hn'|bm Hc' Hl' Hh' Hn' Hb'
          |stripped Hc' Hl' Hh' Hn' Hb' Hs'|Hc' Hl' Hh' Hn' Hb' Hs' Hp' Hlen'
          |Hc' Hl' Hh' Hn' Hb' Hs' Hp']; try congruence; lia.
  - intros fuel Hfuel. apply scanLoop_enough_fuel; cbn; lia.
  - apply scanLoop_end; cbn; lia.
  - symmetry. eapply Forall2_length. apply flatten_extractContent.
Qed.

(** The heading-level override, once code-block detection has passed. *)
Lemma scanStep_heading (nl : list jsstring) (st : ScanState) (level : ItemType) :
  codeCommitted nl (scan_i st) = false ->
  getHeadingLevel (lineAt nl (scan_i st)) = Some level ->
  scanStep nl st
  = mkScan (scan_i st + 1) 0 (introIndex nl st)
      (content st ++ [textItem level (Some (lineAt nl (scan_i st))) 95]).
Proof.
  intros Hc Hl.
  destruct (scanStep_spec nl st)
    as [Hc'|lvl Hc' Hl'|Hc' Hl' Hh'|num rest Hc' Hl' Hh' Hn'|bm Hc' Hl' Hh' Hn' Hb'
        |stripped Hc' Hl' Hh' Hn' Hb' Hs'|Hc' Hl' Hh' Hn' Hb' Hs' Hp' Hlen'
        |Hc' Hl' Hh' Hn' Hb' Hs' Hp']; try congruence.
Qed.

Lemma scanStep_code (nl : list jsstring) (st : ScanState) :
  codeCommitted nl (scan_i st) = true ->
  scanStep nl st
  = mkScan (scan_i st + length (codeGroupAt nl (scan_i st))) 0 (introIndex nl st)
      (content st
       ++ [codeItem (codeGroupAt nl (scan_i st)) (codeProbAt nl (scan_i st))]).
Proof.
  intros Hc.
  destruct (scanStep_spec nl st)
    as [Hc'|lvl Hc' Hl'|Hc' Hl' Hh'|num rest Hc' Hl' Hh' Hn'|bm Hc' Hl' Hh' Hn' Hb'
        |stripped Hc' Hl' Hh' Hn' Hb' Hs'|Hc' Hl' Hh' Hn' Hb' Hs' Hp' Hlen'
        |Hc' Hl' Hh' Hn' Hb' Hs' Hp']; congruence.
Qed.

Lemma numericPrefix_level (text : jsstring) (level : ItemType) :
  Trimmed text -> NumericPrefix text level -> getHeadingLevel text = Some level.
Proof.
  intros Htrim Hcase. unfold getHeadingLevel. rewrite (trim_fixed Htrim).
  destruct Hcase as [[Ht ->]|[[Ht ->]|[Ht ->]]].
  - now rewrite (section3_level _ Ht).
  - destruct (section2_level _ Ht) as [-> ->]. reflexivity.
  - destruct (section1_level _ Ht) as (-> & -> & ->). reflexivity.
Qed.

(** C4 (as amended). The numeric heading override comes second, after
    code-block detection, and it applies to the lines the scan reaches.
    Every line is either reached, an iteration of the loop starting at
    it, or absorbed into the code block committed at an earlier line,
    never both. When the scan reaches a line at which no code block is
    committed, a line [N.N.N Capital] is pushed as a heading of level 3,
    a line [N.N Capital] as level 2 and a line [N. Capital] as level 1,
    with the whole line as text and confidence 95, before any
    probabilistic scoring is consulted, and that heading is the item of
    the final output at the place it was pushed to. When a code block is
    committed at the line, the code block is pushed and is in the final
    output; it holds the line and the lines absorbed after it, whatever
    their numbering. *)
Theorem numeric_heading_override (input : list jsstring) :
  let nl := nonEmptyLinesOf input in
  (forall i, i < length nl -> Reached nl i \/ Absorbed nl i)
  /\ (forall i, Absorbed nl i -> ~ Reached nl i)
  /\ (forall st level,
        scan_i st < length nl -> codeCommitted nl (scan_i st) = false ->
        NumericPrefix (lineAt nl (scan_i st)) level ->
        scanStep nl st
        = mkScan (scan_i st + 1) 0 (introIndex nl st)
            (content st ++ [textItem level (Some (lineAt nl (scan_i st))) 95]))
  /\ (forall st,
        scan_i st < length nl -> codeCommitted nl (scan_i st) = true ->
        scanStep nl st
        = mkScan (scan_i st + length (codeGroupAt nl (scan_i st))) 0 (introIndex nl st)
            (content st
             ++ [codeItem (codeGroupAt nl (scan_i st)) (codeProbAt nl (scan_i st))]))
  /\ (forall k level,
        let st := scanLoop k nl initialScan in
        scan_i st < length nl -> codeCommitted nl (scan_i st) = false ->
        NumericPrefix (lineAt nl (scan_i st)) level ->
        nth_error (extractContent input) (length (content st))
        = Some (textItem level (Some (lineAt nl (scan_i st))) 95))
  /\ (forall k,
        let st := scanLoop k nl initialScan in
        scan_i st < length nl -> codeCommitted nl (scan_i st) = true ->
        nth_error (extractContent input) (length (content st))
        = Some (codeItem (codeGroupAt nl (scan_i st)) (codeProbAt nl (scan_i st)))
        /\ codeGroupAt nl (scan_i st)
           = firstn (length (codeGroupAt nl (scan_i st))) (skipn (scan_i st) nl)).
Proof.
  intros nl.
  assert (Hstep : forall st level,
            scan_i st < length nl -> codeCommitted nl (scan_i st) = false ->
            NumericPrefix (lineAt nl (scan_i st)) level ->
            scanStep nl st
            = mkScan (scan_i st + 1) 0 (introIndex nl st)
                (content st ++ [textItem level (Some (lineAt nl (scan_i st))) 95])).
  { intros st level Hi Hc Hcase. apply scanStep_heading; [exact Hc|].
    apply numericPrefix_level; [|exact Hcase].
    eapply Forall_forall; [apply nonEmptyLinesOf_trimmed|]. now apply nth_In. }
  split; [apply reached_or_absorbed|].
  split; [apply absorbed_not_reached|].
  split; [exact Hstep|].
  split; [intros st _; apply scanStep_code|].
  split.
  - intros k level st Hi Hc Hcase.
    assert (Hpush : content (scanStep nl st)
                    = content st ++ [textItem level (Some (lineAt nl (scan_i st))) 95])
      by now rewrite (Hstep st level Hi Hc Hcase).
    assert (Hty : type (textItem level (Some (lineAt nl (scan_i st))) 95) <> paragraph).
    { cbn [type textItem].
      destruct Hcase as [[_ ->]|[[_ ->]|[_ ->]]]; discriminate. }
    exact (@reached_in_output _ input k _ Hi Hpush Hty).
  - intros k st Hi Hc. split; [|now apply codeGroupAt_run].
    assert (Hpush : content (scanStep nl st)
                    = content st
                      ++ [codeItem (codeGroupAt nl (scan_i st)) (codeProbAt nl (scan_i st))])
      by now rewrite (scanStep_code nl st Hc).
    assert (Hty : type (codeItem (codeGroupAt nl (scan_i st)) (codeProbAt nl (scan_i st)))
                  <> paragraph) by discriminate.
    exact (@reached_in_output _ input k _ Hi Hpush Hty).
Qed.

(** C6 (as amended). Every analyzer returns at most 100. The
    code-probability is never negative; the header-probability can be
    negative, down to -45, and the bullet-probability down to -20: the
    scores are capped at 100 and not raised to 0. *)
Theorem scores_bounded (text : jsstring) (prevText nextText : option jsstring)
        (context : list jsstring) (isAfterListIntro : bool) :
  (-45 <= analyzeHeaderProbability text prevText nextText <= 100)%Z
  /\ (0 <= analyzeCodeProbability text context <= 100)%Z
  /\ (-20 <= analyzeBulletProbability text prevText isAfterListIntro <= 100)%Z.
Proof.
  split; [apply analyzeHeaderProbability_bounds|].
  split; [apply analyzeCodeProbability_bounds|apply analyzeBulletProbability_bounds].
Qed.

(** C7 (as amended). The pass keeps the length of the sequence and
    decides each item from its neighbours alone, once: the item at [k]
    becomes a bullet exactly when it is a paragraph whose text is not
    empty and is shorter than 100 code units, and either (a) the raw item
    before it has a text that matches a list-introduction pattern, or
    (b) the item pushed just before it is a bullet and the raw item after
    it is a bullet; every other item is pushed unchanged. *)
Theorem postProcess_reclassifies (items : list ContentItem) :
  length (postProcessContent items) = length items
  /\ forall k item,
       nth_error items k = Some item ->
       nth_error (postProcessContent items) k
       = Some (if shortParagraph item
                  && (introducesList (before items k)
                      || hasType bullet (before (postProcessContent items) k)
                         && hasType bullet (nth_error items (S k)))
               then withType item bullet else item).
Proof.
  split; [apply postProcessContent_length|].
  intros k item. apply postProcessContent_nth.
Qed.

(** C10. A line that starts with a hyphen and goes on is never pushed as
    a sub-bullet, whatever was pushed before it, although the sub-bullet
    pattern matches it: the iteration pushes a code block when one is
    committed there, else a heading when the header-probability is 70 or
    more, and else, at the bullet rules, a bullet of confidence 95 whose
    text is the line without its hyphen and the white space after it. *)
Theorem hyphen_line_is_bullet (input : list jsstring) (st : ScanState)
        (rest : list N) :
  let nl := nonEmptyLinesOf input in
  let text := lineAt nl (scan_i st) in
  scan_i st < length nl -> text = chr "-" :: rest -> rest <> [] ->
  exec reSubBullet text = Some [(1, stripBullet text)]
  /\ scanStep nl st
     = (if codeCommitted nl (scan_i st)
        then mkScan (scan_i st + length (codeGroupAt nl (scan_i st))) 0
               (introIndex nl st)
               (content st
                ++ [codeItem (codeGroupAt nl (scan_i st)) (codeProbAt nl (scan_i st))])
        else if (70 <=? headerProbAt nl (scan_i st))%Z
        then mkScan (scan_i st + 1) 0 (introIndex nl st)
               (content st
                ++ [textItem (scoredLevel text (prevOf nl (scan_i st))) (Some text)
                      (headerProbAt nl (scan_i st))])
        else mkScan (scan_i st + 1) (numberedListCounter st) (introIndex nl st)
               (content st ++ [textItem bullet (Some (stripBullet text)) 95]))
  /\ forall item,
       lastOf (content (scanStep nl st)) = Some item -> type item <> sub_bullet.
Proof.
  intros nl text Hi Htext Hrest.
  assert (Htrim : Trimmed text).
  { eapply Forall_forall; [apply nonEmptyLinesOf_trimmed|]. now apply nth_In. }
  assert (Hdef : lineAt nl (scan_i st) = text) by reflexivity.
  clearbody text.
  assert (Hbul : exec reBullet text = Some [(1, stripBullet text)]).
  { rewrite Htext in Htrim |- *. rewrite (exec_reBullet Htrim). cbn [existsb].
    destruct rest; [congruence|reflexivity]. }
  assert (Hsub : exec reSubBullet text = Some [(1, stripBullet text)]).
  { rewrite Htext in Htrim |- *. rewrite (exec_reSubBullet Htrim). cbn [existsb].
    destruct rest; [congruence|reflexivity]. }
  assert (Hlvl : getHeadingLevel text = None).
  { rewrite Htext in Htrim |- *. now apply hyphen_no_heading_level. }
  assert (Hnum : numberedHit text (numberedListCounter st) = None).
  { rewrite Htext. apply hyphen_not_numbered. }
  assert (Hstep :
    scanStep nl st
    = (if codeCommitted nl (scan_i st)
       then mkScan (scan_i st + length (codeGroupAt nl (scan_i st))) 0
              (introIndex nl st)
              (content st
               ++ [codeItem (codeGroupAt nl (scan_i st)) (codeProbAt nl (scan_i st))])
       else if (70 <=? headerProbAt nl (scan_i st))%Z
       then mkScan (scan_i st + 1) 0 (introIndex nl st)
              (content st
               ++ [textItem (scoredLevel text (prevOf nl (scan_i st))) (Some text)
                     (headerProbAt nl (scan_i st))])
       else mkScan (scan_i st + 1) (numberedListCounter st) (introIndex nl st)
              (content st ++ [textItem bullet (Some (stripBullet text)) 95]))).
  { destruct (scanStep_spec nl st)
      as [Hc'|lvl Hc' Hl'|Hc' Hl' Hh'|num r Hc' Hl' Hh' Hn'|bm Hc' Hl' Hh' Hn' Hb'
          |stripped Hc' Hl' Hh' Hn' Hb' Hs'|Hc' Hl' Hh' Hn' Hb' Hs' Hp' Hlen'
          |Hc' Hl' Hh' Hn' Hb' Hs' Hp']; rewrite ?Hdef in *; rewrite Hc';
      try congruence.
    - now rewrite (proj2 (Z.leb_le _ _) Hh').
    - rewrite (proj2 (Z.leb_gt _ _) Hh'). rewrite Hbul in Hb'.
      injection Hb' as <-. reflexivity. }
  repeat split; [exact Hsub|exact Hstep|].
  intros item. rewrite Hstep.
  destruct (codeCommitted nl (scan_i st)); [|destruct (70 <=? _)%Z];
    cbn [content]; rewrite lastOf_snoc; intros [= <-]; cbn; try discriminate.
  apply isHeading_not_sub_bullet, scoredLevel_heading.
Qed.

End Pipeline.

(* ------------------------------------------------------------------ *)
(** ** The classifier on concrete inputs                               *)
(* ------------------------------------------------------------------ *)

Section Examples.

(** The inputs below are ASCII, and the classifier runs with the ASCII
    case tables, which are exact on them. *)
#[local] Existing Instance asciiCase.

(** C3 (as amended). On ["1. Setup"; "Install the tool"; "2. Configure";
    "Edit the config file"] the classifier returns four items: a level-1
    heading, a paragraph, a level-1 heading, a paragraph. The numbered
    lines are taken by the heading override, which comes before the
    numbered-list rule (that rule would have matched "1. Setup" too), and
    a heading keeps the whole line as its text, numeric prefix included. *)
Theorem numbered_sections_example :
  extractContent
    [str "1. Setup"; str "Install the tool"; str "2. Configure";
     str "Edit the config file"]
  = [textItem heading1 (Some (str "1. Setup")) 95;
     textItem paragraph (Some (str "Install the tool")) 45;
     textItem heading1 (Some (str "2. Configure")) 95;
     textItem paragraph (Some (str "Edit the config file")) 45]
  /\ getHeadingLevel (str "1. Setup") = Some heading1
  /\ numberedHit (str "1. Setup") 0 = Some (1%Z, Some (str "Setup")).
Proof. repeat split; vm_compute; reflexivity. Qed.

(** C3, as stated: the headings would hold "Setup" and "Configure". *)
Lemma numbered_sections_keep_prefix :
  map (fun item => (type item, text item))
      (extractContent
         [str "1. Setup"; str "Install the tool"; str "2. Configure";
          str "Edit the config file"])
  <> [(heading1, Some (str "Setup")); (paragraph, Some (str "Install the tool"));
      (heading1, Some (str "Configure"));
      (paragraph, Some (str "Edit the config file"))].
Proof. vm_compute. discriminate. Qed.

(** C1, as stated: flattening would give the input back. A numbered line
    loses its numeral. *)
Lemma flatten_loses_marker :
  [str "1) apple"] <> []
  /\ flatten (extractContent [str "1) apple"]) <> nonEmptyLinesOf [str "1) apple"].
Proof. split; [discriminate|]. vm_compute. discriminate. Qed.

(** An inferred bullet keeps its line whole: a bullet that has lost the
    first code unit of a line the bullet pattern does not match is not
    an item of that line. *)
Lemma inferred_bullet_keeps_line :
  let line := str "Hello world" in
  let cut := textItem bullet (Some (str "ello world")) 77 in
  let whole := textItem bullet (Some line) 77 in
  Partition Keeps [line] [whole] /\ ~ Partition Keeps [line] [cut].
Proof.
  intros line cut whole. split.
  - change [line] with ([line] ++ []). constructor; [|constructor].
    now apply keeps_text with (entry := line).
  - intros Hp. inversion Hp as [|ls rest item items Hk Hrest Hls]; subst.
    inversion Hrest; subst. rewrite app_nil_r in Hls. subst ls.
    inversion Hk as [? ? Hty|l e it _ He Htx]; subst; [discriminate|].
    vm_compute in He, Htx. congruence.
Qed.

Lemma extractContent_covers_witness :
  let input := [str "1) apple"; str "  - pear"; str ""; str "Plain words"] in
  let nl := nonEmptyLinesOf input in
  let out := extractContent input in
  In (str "1) apple") nl
  /\ entryOf numbered (str "1) apple") = Some (str "apple")
  /\ EntryShape numbered (str "1) apple") (str "apple")
  /\ Partition Keeps nl out
  /\ map Some (flatten out) = entriesOf (lineTypes out) nl
  /\ lineTypes out = [numbered; bullet; paragraph]
  /\ flatten out = [str "apple"; str "pear"; str "Plain words"].
Proof.
  intros input nl out.
  assert (H1 : In (str "1) apple") nl) by (vm_compute; left; reflexivity).
  assert (H2 : entryOf numbered (str "1) apple") = Some (str "apple"))
    by (vm_compute; reflexivity).
  pose proof (extractContent_covers input) as (Hp & _ & He & Hs).
  split; [exact H1|]. split; [exact H2|].
  split; [exact (Hs numbered (str "1) apple") (str "apple") H1 H2)|].
  split; [exact Hp|]. split; [exact He|].
  split; vm_compute; reflexivity.
Defined.

(** C2, as stated: every run of numbered items would count 1, 2, 3, ...
    After a bullet the numbering goes on at 2, and a second "1)" restarts
    a run in its middle. *)
Lemma numbering_not_from_one :
  map (fun item => (type item, number item))
      (extractContent [str "1) a"; str "- b"; str "2) c"])
  = [(numbered, Some 1%Z); (bullet, None); (numbered, Some 2%Z)]
  /\ countsFromOne None (extractContent [str "1) a"; str "- b"; str "2) c"]) = false
  /\ countsFromOne None (extractContent [str "1) a"; str "1) b"]) = false.
Proof. repeat split; vm_compute; reflexivity. Qed.

Lemma numbering_continues_or_restarts_witness :
  let input := [str "1) a"; str "- b"; str "2) c"] in
  let item := numberedItem (Some (str "c")) 2 in
  nth_error (extractContent input) 2 = Some item /\ type item = numbered
  /\ exists n,
       number item = Some n
       /\ (n = 1%Z
           \/ exists j p,
                j < 2 /\ nth_error (extractContent input) j = Some p
                /\ type p = numbered /\ number p = Some (n - 1)%Z
                /\ forall m q,
                     j < m < 2 -> nth_error (extractContent input) m = Some q ->
                     type q = bullet \/ type q = sub_bullet).
Proof.
  intros input item.
  assert (H1 : nth_error (extractContent input) 2 = Some item)
    by (vm_compute; reflexivity).
  assert (H2 : type item = numbered) by reflexivity.
  split; [exact H1|]. split; [exact H2|].
  exact (numbering_continues_or_restarts input 2 H1 H2).
Defined.

(** C4, as stated: a line [N. Capital] would always be a heading. Code
    detection comes first and takes this one. *)
Lemma numbered_code_line_is_code :
  test reSection1 (str "1. Database.insert(x__c);") = true
  /\ map type (extractContent [str "1. Database.insert(x__c);"]) = [code_block].
Proof. split; vm_compute; reflexivity. Qed.

(** A numbered line between two lines of code: no code block is
    committed at it, but the scan does not reach it, the block opened at
    the line before takes it. *)
Lemma numbered_line_absorbed :
  let input := [str "var total = 0;"; str "1. Setup"; str "var count = 1;"] in
  let nl := nonEmptyLinesOf input in
  test reSection1 (lineAt nl 1) = true
  /\ codeCommitted nl 1 = false
  /\ Absorbed nl 1
  /\ extractContent input = [codeItem nl 75].
Proof.
  intros input nl.
  split; [vm_compute; reflexivity|]. split; [vm_compute; reflexivity|].
  split; [|vm_compute; reflexivity].
  exists 0. vm_compute. repeat split; lia.
Qed.

Lemma numeric_heading_override_witness :
  let input := [str "Plain words come first here"; str "1.2.3 Design Notes"] in
  let nl := nonEmptyLinesOf input in
  let st := scanLoop 1 nl initialScan in
  scan_i st < length nl
  /\ codeCommitted nl (scan_i st) = false
  /\ NumericPrefix (lineAt nl (scan_i st)) heading3
  /\ scanStep nl st
     = mkScan (scan_i st + 1) 0 (introIndex nl st)
         (content st ++ [textItem heading3 (Some (lineAt nl (scan_i st))) 95])
  /\ nth_error (extractContent input) (length (content st))
     = Some (textItem heading3 (Some (str "1.2.3 Design Notes")) 95)
  /\ (Reached nl 1 \/ Absorbed nl 1).
Proof.
  intros input nl st.
  assert (H1 : scan_i st < length nl) by (vm_compute; lia).
  assert (H2 : codeCommitted nl (scan_i st) = false) by (vm_compute; reflexivity).
  assert (H3 : NumericPrefix (lineAt nl (scan_i st)) heading3)
    by (left; split; vm_compute; reflexivity).
  assert (H4 : 1 < length nl) by (vm_compute; lia).
  pose proof (numeric_heading_override input) as (Hra & _ & Hstep & _ & Hout & _).
  split; [exact H1|]. split; [exact H2|]. split; [exact H3|].
  split; [exact (Hstep st heading3 H1 H2 H3)|].
  split; [exact (Hout 1 heading3 H1 H2 H3)|exact (Hra 1 H4)].
Defined.


(** C6, as stated: the scores would never be negative. *)
Lemma long_sentence_scores_negative :
  let text :=
    str "The quick brown fox jumps over the lazy dog while the other animals watch from a distance and wonder, and then the fox goes home to sleep until morning." in
  ~ (0 <= analyzeBulletProbability text None false <= 100)%Z
  /\ ~ (0 <= analyzeHeaderProbability text (Some (str "x")) None <= 100)%Z
  /\ analyzeBulletProbability text None false = (-20)%Z
  /\ analyzeHeaderProbability text (Some (str "x")) None = (-45)%Z.
Proof.
  intros text.
  assert (Hb : analyzeBulletProbability text None false = (-20)%Z)
    by (vm_compute; reflexivity).
  assert (Hh : analyzeHeaderProbability text (Some (str "x")) None = (-45)%Z)
    by (vm_compute; reflexivity).
  rewrite Hb, Hh. repeat split; lia.
Qed.

(** C7, as stated: a paragraph after a list introduction would always
    become a bullet. One of 100 code units or more stays a paragraph. *)
Lemma long_paragraph_after_intro_kept :
  let long :=
    str "The quick brown fox jumps over the lazy dog while the other animals watch from a distance and wonder." in
  let items := scanContent [str "Note:"; long] in
  map type items = [paragraph; paragraph]
  /\ introducesList (before items 1) = true
  /\ map type (postProcessContent items) = [paragraph; paragraph].
Proof. repeat split; vm_compute; reflexivity. Qed.

Lemma postProcess_reclassifies_witness :
  let items :=
    [textItem bullet (Some (str "b")) 95; textItem paragraph (Some (str "see:")) 50;
     textItem paragraph (Some (str "z")) 50] in
  let item := textItem paragraph (Some (str "z")) 50 in
  nth_error items 2 = Some item
  /\ nth_error (postProcessContent items) 2 = Some (withType item bullet).
Proof.
  intros items item.
  assert (H1 : nth_error items 2 = Some item) by reflexivity.
  split; [exact H1|].
  exact (proj2 (postProcess_reclassifies items) 2 item H1).
Defined.

Lemma sub_bullets_follow_bullets_witness :
  let input := [str "- a"; [9702; 32; 97]%N] in
  let item := textItem sub_bullet (Some (str "a")) 90 in
  nth_error (extractContent input) 1 = Some item /\ type item = sub_bullet
  /\ exists p,
       0 < 1 /\ nth_error (extractContent input) (1 - 1) = Some p /\ type p = bullet.
Proof.
  intros input item.
  assert (H1 : nth_error (extractContent input) 1 = Some item)
    by (vm_compute; reflexivity).
  assert (H2 : type item = sub_bullet) by reflexivity.
  split; [exact H1|]. split; [exact H2|].
  exact (sub_bullets_follow_bullets input 1 H1 H2).
Defined.

Lemma scan_total_witness :
  let input :=
    [str "1. Setup"; str "Install the tool"; str "2. Configure";
     str "Edit the config file"] in
  let nl := nonEmptyLinesOf input in
  scan_i initialScan < length nl
  /\ (scan_i initialScan < scan_i (scanStep nl initialScan) <= length nl
      /\ exists item,
           content (scanStep nl initialScan) = content initialScan ++ [item])
  /\ (length nl <= 10
      /\ scanLoop 10 nl initialScan = scanLoop (length nl) nl initialScan).
Proof.
  intros input nl.
  assert (H1 : scan_i initialScan < length nl) by (vm_compute; lia).
  assert (H2 : length nl <= 10) by (vm_compute; lia).
  split; [exact H1|]. split.
  - exact (proj1 (scan_total input) initialScan H1).
  - split; [exact H2|].
    exact (proj1 (proj2 (proj2 (scan_total input))) 10 H2).
Defined.

Lemma hyphen_line_is_bullet_witness :
  let input := [str "- a"; str "- b"] in
  let nl := nonEmptyLinesOf input in
  let st := scanStep nl initialScan in
  scan_i st < length nl /\ lineAt nl (scan_i st) = chr "-" :: str " b"
  /\ str " b" <> []
  /\ hasType bullet (lastOf (content st)) = true
  /\ exec reSubBullet (lineAt nl (scan_i st))
     = Some [(1, stripBullet (lineAt nl (scan_i st)))]
  /\ forall item,
       lastOf (content (scanStep nl st)) = Some item -> type item <> sub_bullet.
Proof.
  intros input nl st.
  assert (H1 : scan_i st < length nl) by (vm_compute; lia).
  assert (H2 : lineAt nl (scan_i st) = chr "-" :: str " b")
    by (vm_compute; reflexivity).
  assert (H3 : str " b" <> []) by discriminate.
  split; [exact H1|]. split; [exact H2|]. split; [exact H3|].
  split; [vm_compute; reflexivity|].
  pose proof (hyphen_line_is_bullet input st H1 H2 H3) as (Hsub & _ & Hlast).
  split; [exact Hsub|exact Hlast].
Defined.

End Examples.

(* ------------------------------------------------------------------ *)
(** ** Facts about global replacement                                  *)
(* ------------------------------------------------------------------ *)

(** A length returned by [matchLength] is the length of a match. *)
Lemma matchLength_sound (r : regex) (b a : list N) (m : nat) :
  matchLength r b a = Some m ->
  exists y, matches r (b, a) y /\ m = length a - length (snd y).
Proof.
  unfold matchLength. rewrite rmatch_grp.
  match goal with |- context [rmatch r ?x ?c ?k] => destruct (rmatch r x c k) as [g|] eqn:Hm end;
    [|discriminate].
  apply rmatch_sound in Hm as (y & c' & Hy & Hk).
  unfold accept in Hk. injection Hk as <-. cbn [capture snd Nat.eqb].
  intros [= <-]. exists y. split; [exact Hy|].
  rewrite length_firstn. lia.
Qed.

Lemma matchLength_none (r : regex) (b a : list N) :
  (forall y, ~ matches r (b, a) y) -> matchLength r b a = None.
Proof.
  intros Hno. destruct (matchLength r b a) as [m|] eqn:Hm; [|reflexivity].
  apply matchLength_sound in Hm as (y & Hy & _). now apply Hno in Hy.
Qed.

(** Where the pattern has a match, [matchLength] finds one. *)
Lemma matchLength_complete (r : regex) (b a : list N) (y : cursor) :
  matches r (b, a) y -> matchLength r b a <> None.
Proof.
  intros Hy. unfold matchLength.
  pose proof (@rmatch_complete (Grp 0 r) _ _ (m_grp 0 Hy) [] accept) as Hc.
  destruct (rmatch (Grp 0 r) (b, a) [] accept) as [g|] eqn:Hm.
  - rewrite rmatch_grp in Hm. apply rmatch_sound in Hm as (z & c' & _ & Hk).
    unfold accept in Hk. injection Hk as <-. cbn [capture Nat.eqb]. discriminate.
  - exfalso. apply Hc; [discriminate|reflexivity].
Qed.

Lemma replaceScan_skip (r : regex) (rep : jsstring) (k : nat) (b : list N) (a : N)
      (rest : list N) :
  replaceScan r rep (S k) b (a :: rest) = replaceScan r rep k (a :: b) rest.
Proof. reflexivity. Qed.

Lemma replaceScan_none (r : regex) (rep : jsstring) (b : list N) (a : N)
      (rest : list N) :
  matchLength r b (a :: rest) = None ->
  replaceScan r rep 0 b (a :: rest) = a :: replaceScan r rep 0 (a :: b) rest.
Proof. intros Hm. cbn [replaceScan]. now rewrite Hm. Qed.

Lemma replaceScan_some (r : regex) (rep : jsstring) (b : list N) (a : N)
      (rest : list N) (m : nat) :
  matchLength r b (a :: rest) = Some m ->
  replaceScan r rep 0 b (a :: rest)
  = rep ++ (if Nat.eqb m 0 then [a] else [])
        ++ replaceScan r rep (m - 1) (a :: b) rest.
Proof. intros Hm. cbn [replaceScan]. now rewrite Hm. Qed.

(** Every match of a pattern that starts with a class starts with a code
    unit of the class. *)
Lemma matches_starts (p : N -> bool) (r : regex) (x y : cursor) :
  matches r x y -> StartsWith p r ->
  exists c rest, snd x = c :: rest /\ p c = true.
Proof.
  induction 1 as [x|q a b rest Hq|r1 r2 x y z _ IH1 _ _
                  |r1 r2 x y _ IH|r1 r2 x y _ IH|r x
                  |r x y z _ _ _ _|a|b|x _|n r x y _ IH];
    cbn [StartsWith]; intros Hs; try contradiction.
  - exists a, rest. split; [reflexivity|now apply Hs].
  - now apply IH1.
  - now apply IH.
  - now apply IH.
  - now apply IH.
Qed.

(** A pattern whose matches start with a code unit the subject does not
    hold leaves the subject as it is. *)
Lemma replaceScan_id (p : N -> bool) (r : regex) (rep : jsstring) :
  StartsWith p r ->
  forall s b, forallb (fun c => negb (p c)) s = true -> replaceScan r rep 0 b s = s.
Proof.
  intros Hs. induction s as [|a rest IH]; intros b Hall.
  - cbn [replaceScan]. rewrite matchLength_none; [reflexivity|].
    intros y Hy. destruct (@matches_starts p _ _ _ Hy Hs) as (c & t & Hx & _). discriminate.
  - cbn [forallb] in Hall. apply andb_true_iff in Hall as [Ha Hrest].
    rewrite replaceScan_none.
    + now rewrite IH.
    + apply matchLength_none. intros y Hy.
      destruct (@matches_starts p _ _ _ Hy Hs) as (c & t & Hx & Hc).
      cbn in Hx. injection Hx as <- <-. rewrite Hc in Ha. discriminate.
Qed.

(** The code units of the result come from the replacement or are code
    units of the subject at which the pattern did not match, or matched
    the empty string. *)
Lemma replaceScan_forall (r : regex) (rep : jsstring) (qin q : N -> bool) :
  forallb q rep = true ->
  (forall b c rest,
      qin c = true ->
      matchLength r b (c :: rest) = None \/ matchLength r b (c :: rest) = Some 0 ->
      q c = true) ->
  forall s skip b,
    forallb qin s = true -> forallb q (replaceScan r rep skip b s) = true.
Proof.
  intros Hrep Hkeep. induction s as [|a rest IH]; intros skip b Hall.
  - destruct skip as [|k]; cbn [replaceScan]; [|reflexivity].
    destruct (matchLength r b []); [|reflexivity].
    now rewrite app_nil_r.
  - cbn [forallb] in Hall. apply andb_true_iff in Hall as [Ha Hrest].
    destruct skip as [|k]; [|rewrite replaceScan_skip; now apply IH].
    destruct (matchLength r b (a :: rest)) as [m|] eqn:Hm.
    + rewrite (@replaceScan_some r rep b a rest m Hm), !forallb_app, Hrep, IH by exact Hrest.
      destruct m as [|m]; cbn; [|reflexivity].
      rewrite (Hkeep b a rest Ha); auto.
    + rewrite (@replaceScan_none r rep b a rest Hm). cbn [forallb].
      rewrite IH by exact Hrest. rewrite (Hkeep b a rest Ha); auto.
Qed.

(* ------------------------------------------------------------------ *)
(** ** Facts about the lines                                           *)
(* ------------------------------------------------------------------ *)

Lemma trim_trim (s : jsstring) : trim (trim s) = trim s.
Proof.
  destruct (list_eq_dec N.eq_dec (trim s) []) as [He|Hne].
  - rewrite He. reflexivity.
  - apply trim_fixed, trim_clean, Hne.
Qed.

Lemma nonEmptyLinesOf_fixed (lines : list jsstring) :
  Forall Trimmed lines -> nonEmptyLinesOf lines = lines.
Proof.
  unfold nonEmptyLinesOf. induction 1 as [|l lines Hl _ IH]; [reflexivity|].
  cbn [map filter]. rewrite (trim_fixed Hl).
  rewrite (proj2 (jseqb_nil l)) by apply Hl. cbn [negb]. now rewrite IH.
Qed.

Lemma trimStart_In (s : jsstring) (c : N) : In c (trimStart s) -> In c s.
Proof.
  destruct (trimStart_suffix s) as [ws Hws]. intros Hin.
  rewrite Hws. apply in_or_app. now right.
Qed.

Lemma trim_In (s : jsstring) (c : N) : In c (trim s) -> In c s.
Proof.
  unfold trim, trimEnd. intros Hin. apply in_rev in Hin.
  apply trimStart_In in Hin. apply in_rev in Hin. now apply trimStart_In.
Qed.

(** No piece of a split holds the separator. *)
Lemma splitAt_pieces (sep : N) (s : jsstring) :
  forall cur, ~ In sep cur -> Forall (fun l => ~ In sep l) (splitAt sep s cur).
Proof.
  induction s as [|c s IH]; intros cur Hcur; cbn [splitAt].
  - constructor; [|constructor]. now rewrite <- in_rev.
  - destruct (N.eqb_spec c sep) as [->|Hne].
    + constructor; [now rewrite <- in_rev|]. apply IH. intros [].
    + apply IH. intros [Heq|Hin]; [now apply Hne|now apply Hcur].
Qed.


(* ------------------------------------------------------------------ *)
(** ** Facts about [parseHtmlToLines]                                  *)
(* ------------------------------------------------------------------ *)

Lemma upperA_lt (a : N) : upperA a = 60%N -> a = 60%N.
Proof.
  unfold upperA, isLower. destruct ((97 <=? a) && (a <=? 122))%N eqn:Hl; [|auto].
  apply andb_true_iff in Hl as [H1 H2]. apply N.leb_le in H1, H2. lia.
Qed.

Lemma chi_lt (a : N) : N.eqb (upperA a) (upperA 60) = true -> isMarkup a = true.
Proof.
  intros Ha. apply N.eqb_eq in Ha. change (upperA 60) with 60%N in Ha.
  apply upperA_lt in Ha. now subst a.
Qed.

Lemma eqb_lt (a : N) : N.eqb 60 a = true -> isMarkup a = true.
Proof. intros Ha. apply N.eqb_eq in Ha. now subst a. Qed.

Lemma eqb_amp (a : N) : N.eqb 38 a = true -> isMarkup a = true.
Proof. intros Ha. apply N.eqb_eq in Ha. now subst a. Qed.

Lemma replaceAll_plain (r : regex) (rep s : jsstring) :
  StartsWith isMarkup r ->
  forallb (fun c => negb (isMarkup c)) s = true -> replaceAll r rep s = s.
Proof. intros Hs Hall. unfold replaceAll. now apply (replaceScan_id isMarkup). Qed.

Lemma parseHtmlToLines_plain (s : jsstring) :
  forallb (fun c => negb (isMarkup c)) s = true ->
  parseHtmlToLines s = nonEmptyLinesOf (splitLines s).
Proof.
  intros Hall. unfold parseHtmlToLines, decodeEntities, removeTags, markListItems,
    breakBlocks, removeScripts.
  cbv zeta.
  assert (H1 : replaceAll (reScript (length s)) [] s = s)
    by (apply replaceAll_plain; [exact chi_lt|exact Hall]).
  rewrite H1.
  assert (H2 : replaceAll (reStyle (length s)) [] s = s)
    by (apply replaceAll_plain; [exact chi_lt|exact Hall]).
  rewrite H2.
  rewrite (@replaceAll_plain reCloseBlock LF s eqb_lt Hall).
  rewrite (@replaceAll_plain reOpenBlock LF s eqb_lt Hall).
  rewrite (@replaceAll_plain reListItem listItemMarker s eqb_lt Hall).
  rewrite (@replaceAll_plain reTag [] s eqb_lt Hall).
  rewrite (@replaceAll_plain (lit "&amp;") _ s eqb_amp Hall).
  rewrite (@replaceAll_plain (lit "&lt;") _ s eqb_amp Hall).
  rewrite (@replaceAll_plain (lit "&gt;") _ s eqb_amp Hall).
  rewrite (@replaceAll_plain (lit "&quot;") _ s eqb_amp Hall).
  rewrite (@replaceAll_plain (lit "&#39;") _ s eqb_amp Hall).
  rewrite (@replaceAll_plain (lit "&nbsp;") _ s eqb_amp Hall).
  reflexivity.
Qed.

(** *** The list-item step finds nothing to replace *)

Lemma matches_star_run (p : N -> bool) (run : list N) :
  forall b rest,
    forallb p run = true ->
    matches (Star (Chr p)) (b, run ++ rest) (rev run ++ b, rest).
Proof.
  induction run as [|a run IH]; intros b rest Hall.
  - apply m_star_stop.
  - cbn [forallb] in Hall. apply andb_true_iff in Hall as [Ha Hrun].
    cbn [rev app]. rewrite <- app_assoc. cbn [app].
    eapply m_star_more; [now apply m_chr|]. now apply IH.
Qed.

(** The first code unit of a class, and what comes before and after it. *)
Lemma existsb_first (p : N -> bool) (l : list N) :
  existsb p l = true ->
  exists run x rest,
    l = run ++ x :: rest /\ forallb (fun c => negb (p c)) run = true /\ p x = true.
Proof.
  induction l as [|a l IH]; cbn [existsb]; [discriminate|].
  destruct (p a) eqn:Ha.
  - intros _. exists [], a, l. now repeat split.
  - cbn [orb]. intros Hl. destruct (IH Hl) as (run & x & rest & -> & Hrun & Hx).
    exists (a :: run), x, rest. cbn [forallb]. rewrite Ha, Hrun. now repeat split.
Qed.

Lemma listItemAhead_first (a : N) (t : list N) :
  listItemAhead (a :: t) = true ->
  exists l i rest,
    a = 60%N /\ t = l :: i :: rest /\ upperA l = 76%N /\ upperA i = 73%N
    /\ existsb (N.eqb 62) rest = true.
Proof.
  destruct t as [|l [|i rest]]; cbn [listItemAhead]; try discriminate.
  intros Hl. apply andb_true_iff in Hl as [Hl H4].
  apply andb_true_iff in Hl as [Hl H3]. apply andb_true_iff in Hl as [H1 H2].
  apply N.eqb_eq in H1, H2, H3. exists l, i, rest. now repeat split.
Qed.

(** Where the list-item pattern matches, an [<li...>] tag is ahead. *)
Lemma reListItem_ahead (b s : list N) (y : cursor) :
  matches reListItem (b, s) y -> listItemAhead s = true.
Proof.
  intros Hm. unfold reListItem in Hm.
  apply matches_seq_inv in Hm as (x1 & H1 & Hm). apply matches_ch_inv in H1.
  apply matches_seq_inv in Hm as (x2 & H2 & Hm).
  apply matches_seq_inv in H2 as (x3 & Hl & Hi).
  apply matches_chr_inv in Hl as (l & Hl & Hx1).
  apply matches_chr_inv in Hi as (i & Hi & Hx3).
  apply matches_seq_inv in Hm as (x4 & Hrun & Hgt).
  apply matches_star_chr_inv in Hrun as (run & _ & Hx2).
  apply matches_ch_inv in Hgt.
  cbn [snd] in H1. rewrite H1, Hx1, Hx3, Hx2, Hgt.
  cbn [listItemAhead]. rewrite N.eqb_refl. cbn [andb].
  apply N.eqb_eq in Hl, Hi.
  change (upperA l = 76%N) in Hl. change (upperA i = 73%N) in Hi.
  rewrite Hl, Hi. cbn [andb N.eqb Pos.eqb].
  rewrite existsb_app. cbn [existsb]. change (chr ">") with 62%N.
  rewrite N.eqb_refl. now rewrite orb_true_r.
Qed.

Lemma replaceScan_listItem_id (rep : jsstring) (s : jsstring) :
  forall b, noListItemTag s = true -> replaceScan reListItem rep 0 b s = s.
Proof.
  induction s as [|a rest IH]; intros b Hno.
  - cbn [replaceScan]. rewrite matchLength_none; [reflexivity|].
    intros y Hy. apply reListItem_ahead in Hy. discriminate.
  - cbn [noListItemTag] in Hno. apply andb_true_iff in Hno as [Ha Hrest].
    rewrite replaceScan_none; [now rewrite IH|].
    apply matchLength_none. intros y Hy. apply reListItem_ahead in Hy.
    rewrite Hy in Ha. discriminate.
Qed.

(** A match of the block pattern starts at a [<] and is not empty. *)
Lemma reOpenBlock_match (b a : list N) (m : nat) :
  matchLength reOpenBlock b a = Some m -> m <> 0.
Proof.
  intros Hm. apply matchLength_sound in Hm as (y & Hy & ->).
  unfold reOpenBlock in Hy. apply matches_seq_inv in Hy as (x1 & H1 & Hy).
  apply matches_ch_inv in H1. cbn [snd] in H1.
  apply matches_advance in Hy as (n & _ & ->).
  rewrite length_advance, H1. cbn [length]. lia.
Qed.

(** Where the block pattern fails at an [<li], no [>] follows. *)
Lemma reOpenBlock_fails (b : list N) (l i : N) (rest : list N) :
  matchLength reOpenBlock b (60%N :: l :: i :: rest) = None ->
  upperA l = 76%N -> upperA i = 73%N ->
  existsb (N.eqb 62) rest = false.
Proof.
  intros Hm Hl Hi. destruct (existsb (N.eqb 62) rest) eqn:Hgt; [|reflexivity].
  exfalso. apply existsb_first in Hgt as (run & x & post & -> & Hrun & Hx).
  apply N.eqb_eq in Hx. subst x.
  refine (@matchLength_complete reOpenBlock b _ (62%N :: rev run ++ i :: l :: 60%N :: b, post) _ Hm).
  unfold reOpenBlock.
  eapply m_seq; [now apply m_chr|].
  eapply m_seq.
  - unfold blockName. cbn [alts map].
    apply m_alt_r, m_alt_r, m_alt_r, m_alt_l.
    change (liti "li") with (Seq (chi 108) (chi 105)).
    eapply m_seq; apply m_chr.
    + rewrite Hl. reflexivity.
    + rewrite Hi. reflexivity.
  - eapply m_seq.
    + apply matches_star_run.
      rewrite forallb_forall in Hrun |- *. intros c Hc. specialize (Hrun c Hc).
      change (chr ">") with 62%N. now rewrite N.eqb_sym.
    + now apply m_chr.
Qed.

(** What the scan writes first, when it is not a line feed, is the code
    unit ahead, kept. *)
Lemma replaceScan_kept (r : regex) (b s : list N) (c : N) (out : list N) :
  replaceScan r LF 0 b s = c :: out -> c <> 10%N ->
  exists rest, s = c :: rest /\ out = replaceScan r LF 0 (c :: b) rest.
Proof.
  intros Hout Hc. destruct s as [|a rest]; cbn [replaceScan] in Hout.
  - destruct (matchLength r b []); [|discriminate].
    cbn in Hout. injection Hout as <- _. congruence.
  - destruct (matchLength r b (a :: rest)).
    + cbn in Hout. injection Hout as <- _. congruence.
    + injection Hout as <- <-. now exists rest.
Qed.

Lemma replaceScan_no_gt (r : regex) (s : list N) (skip : nat) (b : list N) :
  existsb (N.eqb 62) s = false ->
  existsb (N.eqb 62) (replaceScan r LF skip b s) = false.
Proof.
  intros Hs.
  assert (Hall : forallb (fun c => negb (N.eqb 62 c)) s = true).
  { apply forallb_forall. intros c Hc. destruct (N.eqb 62 c) eqn:He; [|reflexivity].
    assert (existsb (N.eqb 62) s = true) by (apply existsb_exists; eauto). congruence. }
  pose proof (@replaceScan_forall r LF _ (fun c => negb (N.eqb 62 c)) eq_refl
                (fun _ _ _ H _ => H) s skip b Hall) as Hout.
  destruct (existsb (N.eqb 62) (replaceScan r LF skip b s)) eqn:He; [|reflexivity].
  apply existsb_exists in He as (c & Hc & He).
  rewrite forallb_forall in Hout. specialize (Hout c Hc). rewrite He in Hout. discriminate.
Qed.

(** After the block tags are replaced, no [<li...>] tag is left. *)
Lemma replaceScan_openBlock_noListItem (s : list N) :
  forall skip b, noListItemTag (replaceScan reOpenBlock LF skip b s) = true.
Proof.
  induction s as [|a rest IH]; intros skip b.
  - destruct skip as [|k]; cbn [replaceScan]; [|reflexivity].
    destruct (matchLength reOpenBlock b []); reflexivity.
  - destruct skip as [|k]; [|rewrite replaceScan_skip; apply IH].
    destruct (matchLength reOpenBlock b (a :: rest)) as [m|] eqn:Hm.
    + rewrite (@replaceScan_some reOpenBlock LF b a rest m Hm).
      apply reOpenBlock_match in Hm.
      destruct m as [|m]; [congruence|]. cbn [Nat.eqb app LF noListItemTag].
      rewrite IH, andb_true_r.
      destruct (listItemAhead _) eqn:Hl; [|reflexivity].
      apply listItemAhead_first in Hl as (? & ? & ? & Hl & _). discriminate.
    + rewrite (@replaceScan_none reOpenBlock LF b a rest Hm).
      cbn [noListItemTag]. rewrite IH, andb_true_r.
      destruct (listItemAhead _) eqn:Hl; [|reflexivity]. exfalso.
      apply listItemAhead_first in Hl as (l & i & out & -> & Hout & Hl & Hi & Hgt).
      apply replaceScan_kept in Hout as (rest1 & -> & Hout).
      2:{ intros ->. discriminate. }
      symmetry in Hout. apply replaceScan_kept in Hout as (rest2 & -> & Hout).
      2:{ intros ->. discriminate. }
      pose proof (@reOpenBlock_fails b l i rest2 Hm Hl Hi) as Hno.
      rewrite Hout, replaceScan_no_gt in Hgt by exact Hno. discriminate.
Qed.

(* ------------------------------------------------------------------ *)
(** ** Facts about the file name                                       *)
(* ------------------------------------------------------------------ *)

Lemma matchLength_chr (p : N -> bool) (b : list N) (a : N) (rest : list N) :
  matchLength (Chr p) b (a :: rest) = if p a then Some 1 else None.
Proof.
  unfold matchLength. rewrite rmatch_grp, rmatch_chr_cons.
  destruct (p a); [|reflexivity].
  unfold accept. cbn [capture Nat.eqb snd length].
  now rewrite Nat.sub_succ_l, Nat.sub_diag by lia.
Qed.


(** Replacing a class by nothing filters it out. *)
Lemma replaceScan_chr (p : N -> bool) (s : list N) :
  forall b, replaceScan (Chr p) [] 0 b s = filter (fun c => negb (p c)) s.
Proof.
  induction s as [|a rest IH]; intros b; [reflexivity|].
  cbn [replaceScan filter]. rewrite matchLength_chr.
  destruct (p a); cbn [negb Nat.eqb Nat.sub app]; now rewrite IH.
Qed.

Lemma titleUnit_not_space (c : N) : titleUnit c = true -> isWhiteSpace c = false.
Proof.
  intros Ht.
  assert (Hr : (45 <= c <= 122)%N).
  { unfold titleUnit, isWordChar, isUpper, isLower, isDigit in Ht.
    repeat (apply orb_true_iff in Ht as [Ht|Ht]);
      try (apply N.eqb_eq in Ht; lia);
      try (apply andb_true_iff in Ht as [Ha Hb]; apply N.leb_le in Ha, Hb; lia). }
  destruct (isWhiteSpace c) eqn:Hw; [|reflexivity]. exfalso.
  unfold isWhiteSpace in Hw.
  repeat (apply orb_true_iff in Hw as [Hw|Hw]);
    try (apply N.eqb_eq in Hw; lia);
    try (apply andb_true_iff in Hw as [Ha Hb]; apply N.leb_le in Ha, Hb; lia).
Qed.

Lemma filter_fixed {A : Type} (f : A -> bool) (l : list A) :
  forallb f l = true -> filter f l = l.
Proof.
  induction l as [|x l IH]; cbn; [reflexivity|]. intros Hall.
  apply andb_true_iff in Hall as [Hx Hl]. now rewrite Hx, IH.
Qed.

Lemma forallb_filter {A : Type} (f : A -> bool) (l : list A) :
  forallb f (filter f l) = true.
Proof.
  induction l as [|x l IH]; cbn; [reflexivity|].
  destruct (f x) eqn:Hx; cbn; [now rewrite Hx|exact IH].
Qed.

Lemma forallb_impl {A : Type} (f g : A -> bool) (l : list A) :
  (forall x, f x = true -> g x = true) -> forallb f l = true -> forallb g l = true.
Proof.
  intros Hfg. rewrite !forallb_forall. auto.
Qed.

Lemma plus_space_nonempty (b a : list N) : matchLength (Plus space) b a <> Some 0.
Proof.
  intros Hm. apply matchLength_sound in Hm as (y & Hy & Hlen).
  apply matches_plus_chr_inv in Hy as (c & run & _ & _ & Hx).
  cbn [snd] in Hx. rewrite Hx in Hlen. cbn [length app] in Hlen.
  rewrite length_app in Hlen. lia.
Qed.

Lemma plus_space_fails (b : list N) (c : N) (rest : list N) :
  matchLength (Plus space) b (c :: rest) = None -> isWhiteSpace c = false.
Proof.
  intros Hm. destruct (isWhiteSpace c) eqn:Hc; [|reflexivity]. exfalso.
  refine (@matchLength_complete (Plus space) b _ (c :: b, rest) _ Hm).
  eapply m_seq; [now apply m_chr|apply m_star_stop].
Qed.

Lemma cleanTitle_units (docTitle : jsstring) :
  forallb titleUnit (cleanTitle docTitle) = true.
Proof.
  unfold cleanTitle, replaceAll at 1.
  apply (@replaceScan_forall (Plus space) (str "_")
           (fun c => isWordChar c || isWhiteSpace c || N.eqb c 45) titleUnit).
  - reflexivity.
  - intros b c rest Hin [Hm|Hm].
    + apply plus_space_fails in Hm. unfold titleUnit.
      rewrite Hm, orb_false_r in Hin. exact Hin.
    + now apply plus_space_nonempty in Hm.
  - unfold replaceAll, reUnsafe. rewrite replaceScan_chr.
    eapply forallb_impl; [|apply forallb_filter].
    intros x Hx. cbn beta in Hx. now rewrite negb_involutive in Hx.
Qed.

Lemma cleanTitle_fixed (docTitle : jsstring) :
  forallb titleUnit docTitle = true -> cleanTitle docTitle = docTitle.
Proof.
  intros Hall. unfold cleanTitle.
  assert (H1 : replaceAll reUnsafe [] docTitle = docTitle).
  { unfold replaceAll, reUnsafe. rewrite replaceScan_chr. apply filter_fixed.
    eapply forallb_impl; [|exact Hall].
    intros x Hx. rewrite negb_involutive. unfold titleUnit in Hx.
    apply orb_true_iff in Hx as [-> | ->]; [reflexivity|].
    now rewrite !orb_true_r. }
  rewrite H1. unfold replaceAll.
  apply (@replaceScan_id isWhiteSpace).
  - cbn. auto.
  - eapply forallb_impl; [|exact Hall].
    intros x Hx. now rewrite titleUnit_not_space.
Qed.

(* ------------------------------------------------------------------ *)
(** ** Facts about the statistics                                      *)
(* ------------------------------------------------------------------ *)

Lemma computeStats_cons (item : ContentItem) (content : list ContentItem) :
  let s := computeStats content in
  let s' := computeStats (item :: content) in
  match type item with
  | heading1 | heading2 | heading3 =>
      s' = mkStats (S (headings s)) (bullets s) (numberedItems s) (codeBlocks s) (paragraphs s)
  | bullet | sub_bullet =>
      s' = mkStats (headings s) (S (bullets s)) (numberedItems s) (codeBlocks s) (paragraphs s)
  | numbered =>
      s' = mkStats (headings s) (bullets s) (S (numberedItems s)) (codeBlocks s) (paragraphs s)
  | code_block =>
      s' = mkStats (headings s) (bullets s) (numberedItems s) (S (codeBlocks s)) (paragraphs s)
  | paragraph =>
      s' = mkStats (headings s) (bullets s) (numberedItems s) (codeBlocks s) (S (paragraphs s))
  end.
Proof.
  unfold computeStats. cbn [filter headings bullets numberedItems codeBlocks paragraphs].
  destruct (type item); reflexivity.
Qed.

Lemma computeStats_total (content : list ContentItem) :
  headings (computeStats content) + bullets (computeStats content)
  + numberedItems (computeStats content) + codeBlocks (computeStats content)
  + paragraphs (computeStats content) = length content.
Proof.
  induction content as [|item content IH]; [reflexivity|].
  pose proof (computeStats_cons item content) as Hc. cbv zeta in Hc.
  destruct (type item); rewrite Hc; cbn [headings bullets numberedItems codeBlocks paragraphs length]; lia.
Qed.

Lemma Holds_linesHeld (ls : list jsstring) (item : ContentItem) :
  Holds ls item -> linesHeld item = length ls /\ 1 <= length ls.
Proof.
  unfold linesHeld.
  destruct 1 as [ls item Ht Hl Hne|line item Ht _|line item Ht _|line item Ht _].
  - rewrite Ht, Hl. split; [reflexivity|]. destruct ls; [congruence|cbn; lia].
  - destruct Ht as [[Ht|[Ht|Ht]]|[Ht|Ht]]; rewrite Ht; cbn; lia.
  - destruct Ht as [Ht|Ht]; rewrite Ht; cbn; lia.
  - rewrite Ht; cbn; lia.
Qed.

Lemma Covers_linesHeld (ls : list jsstring) (items : list ContentItem) :
  Covers ls items ->
  list_sum (map linesHeld items) = length ls /\ length items <= length ls.
Proof.
  induction 1 as [|ls rest item items Hh _ [IH1 IH2]]; [now split|].
  apply Holds_linesHeld in Hh as [Hh H1].
  change (list_sum (map linesHeld (item :: items)))
    with (linesHeld item + list_sum (map linesHeld items)).
  cbn [length]. rewrite length_app, Hh, IH1. lia.
Qed.

(* ------------------------------------------------------------------ *)
(** ** What the scan pushes                                            *)
(* ------------------------------------------------------------------ *)

Lemma In_firstn {A : Type} (n : nat) (l : list A) (x : A) :
  In x (firstn n l) -> In x l.
Proof. intros Hin. rewrite <- (firstn_skipn n l). apply in_or_app. now left. Qed.

Lemma In_skipn {A : Type} (n : nat) (l : list A) (x : A) :
  In x (skipn n l) -> In x l.
Proof. intros Hin. rewrite <- (firstn_skipn n l). apply in_or_app. now right. Qed.

Section Pushed.

Context `{UnicodeCase}.

(** A property of the item each iteration pushes holds of every item of
    the scan. *)
Lemma scanContent_pushed (Q : ContentItem -> Prop) (nl : list jsstring) :
  (forall st st' item,
      scan_i st < length nl -> ScanStep nl st st' ->
      content st' = content st ++ [item] -> Q item) ->
  Forall Q (scanContent nl).
Proof.
  intros Hstep. unfold scanContent.
  apply (@scanLoop_invariant _ (fun st => Forall Q (content st))).
  - intros st Hst Hi.
    destruct (ScanStep_progress (scanStep_spec nl st) Hi) as (item & n & Hc & _).
    rewrite Hc. apply Forall_app. split; [exact Hst|].
    constructor; [|constructor].
    exact (Hstep st _ item Hi (scanStep_spec nl st) Hc).
  - constructor.
Qed.

Lemma postProcessContent_Forall (Q : ContentItem -> Prop) (items : list ContentItem) :
  (forall x, Q x -> type x = paragraph -> Q (withType x bullet)) ->
  Forall Q items -> Forall Q (postProcessContent items).
Proof.
  intros Hq Hall. pose proof (postProcessContent_retyped items) as Hr.
  induction Hr as [|x y a b Hxy _ IH]; [constructor|].
  inversion Hall; subst. constructor; [|now apply IH].
  destruct Hxy as [->|[Hp ->]]; [assumption|now apply Hq].
Qed.

End Pushed.

Lemma afterMarker_nonempty (pre rest : list N) :
  Trimmed (pre ++ rest) -> rest <> [] -> afterMarker rest <> [].
Proof.
  intros Htrim Hne.
  destruct (trimmed_rest pre Htrim Hne) as (d & rest' & Hd & Hws).
  unfold afterMarker. rewrite Hd. cbn [takeWhile].
  rewrite (not_space_not_terminator _ Hws). discriminate.
Qed.

(** What the numbered rule reads from a line when it fires. *)
Lemma numberedHit_shape (text : jsstring) (counter num : Z) (rest : option jsstring) :
  Trimmed text -> numberedHit text counter = Some (num, rest) ->
  exists digits p w tail,
    text = digits ++ p :: w :: tail /\ digits <> [] /\ forallb isDigit digits = true
    /\ (p = chr "." \/ p = chr ")") /\ isWhiteSpace w = true
    /\ num = parseInt digits /\ rest = Some (afterMarker (w :: tail)).
Proof.
  intros Htrim. unfold numberedHit.
  destruct (exec reNumbered text) as [g|] eqn:Hg; [|discriminate].
  destruct (exec_reNumbered Htrim Hg) as (ds & p & w & tail & -> & Hne & Hds & Hp & Hw & ->).
  cbn [capture Nat.eqb].
  destruct (_ || _)%bool; [|discriminate]. intros [= <- <-].
  exists ds, p, w, tail. now repeat split.
Qed.

(** A numeral followed by a dot and white space has a heading level. *)
Lemma dotted_numeral_level (digits : list N) (w : N) (tail : list N) :
  Trimmed (digits ++ chr "." :: w :: tail) ->
  digits <> [] -> forallb isDigit digits = true -> isWhiteSpace w = true ->
  getHeadingLevel (digits ++ chr "." :: w :: tail) <> None.
Proof.
  intros Htrim Hne Hds Hw. unfold getHeadingLevel. rewrite (trim_fixed Htrim).
  destruct (test reLevel3 _); [discriminate|].
  destruct (test reLevel2 _); [discriminate|].
  assert (H1 : test reLevel1 (digits ++ chr "." :: w :: tail) = true).
  { unfold reLevel1. apply test_bol_iff.
    destruct digits as [|d0 run]; [congruence|].
    cbn [forallb] in Hds. apply andb_true_iff in Hds as [Hd0 Hrun].
    exists (w :: chr "." :: rev run ++ [d0], tail).
    eapply m_seq.
    - unfold Plus, digit. eapply m_seq; [now apply m_chr|].
      now apply matches_star_run.
    - eapply m_seq; [apply m_chr; apply N.eqb_refl|]. now apply m_chr. }
  rewrite H1. discriminate.
Qed.

(* ------------------------------------------------------------------ *)
(** ** Further properties of the pipeline                              *)
(* ------------------------------------------------------------------ *)

Section PipelineItems.

Context `{UnicodeCase}.

Lemma pushed_has_content (nl : list jsstring) (st st' : ScanState)
      (item : ContentItem) :
  Forall Trimmed nl -> scan_i st < length nl -> ScanStep nl st st' ->
  content st' = content st ++ [item] -> HasContent item.
Proof.
  intros Hall Hi Hstep Hc.
  assert (Htrim : Trimmed (lineAt nl (scan_i st))).
  { eapply Forall_forall; [exact Hall|]. now apply nth_In. }
  assert (Hne : lineAt nl (scan_i st) <> []) by apply Htrim.
  destruct Hstep as [Hc'|lvl Hc' Hl|Hc' Hl Hh|num rest Hc' Hl Hh Hn|bm Hc' Hl Hh Hn Hb
                     |stripped Hc' Hl Hh Hn Hb Hs|Hc' Hl Hh Hn Hb Hs Hp Hlen
                     |Hc' Hl Hh Hn Hb Hs Hp];
    cbn [content] in Hc; apply app_inv_head in Hc; injection Hc as <-.
  - unfold HasContent. cbn [type codeItem lines].
    exists (codeGroupAt nl (scan_i st)). split; [reflexivity|]. split; [discriminate|].
    destruct (codeGroupAt_run nl Hi) as [_ ->].
    apply Forall_forall. intros l Hl. apply In_firstn, In_skipn in Hl.
    rewrite Forall_forall in Hall. apply (Hall l Hl).
  - apply getHeadingLevel_heading in Hl.
    unfold HasContent. cbn [type textItem text].
    destruct Hl as [->|[->| ->]]; eauto.
  - unfold HasContent. cbn [type textItem text].
    destruct (scoredLevel_heading (lineAt nl (scan_i st)) (prevOf nl (scan_i st)))
      as [->|[->| ->]]; eauto.
  - destruct (numberedHit_shape _ Htrim Hn)
      as (ds & p & w & tail & Heq & _ & _ & _ & _ & _ & ->).
    unfold HasContent. cbn [type numberedItem text].
    eexists. split; [reflexivity|].
    apply (@afterMarker_nonempty (ds ++ [p])); [|discriminate].
    rewrite <- app_assoc. cbn [app]. now rewrite <- Heq.
  - unfold HasContent. cbn [type textItem text].
    destruct (lineAt nl (scan_i st)) as [|a rest] eqn:Hline; [congruence|].
    rewrite (exec_reBullet Htrim) in Hb.
    destruct (existsb _ _); [|discriminate].
    destruct rest as [|r0 rest]; [discriminate|]. injection Hb as <-.
    cbn [capture Nat.eqb]. eexists. split; [reflexivity|].
    apply (@afterMarker_nonempty [a]); [exact Htrim|discriminate].
  - unfold HasContent. cbn [type textItem text].
    unfold subBulletHit in Hs.
    destruct (lineAt nl (scan_i st)) as [|a rest] eqn:Hline; [congruence|].
    rewrite (exec_reSubBullet Htrim) in Hs.
    destruct (existsb _ _); [|discriminate].
    destruct rest as [|r0 rest]; [discriminate|].
    destruct (_ && _)%bool; [|discriminate]. injection Hs as <-.
    cbn [capture Nat.eqb]. eexists. split; [reflexivity|].
    apply (@afterMarker_nonempty [a]); [exact Htrim|discriminate].
  - unfold HasContent. cbn [type textItem text]. eauto.
  - unfold HasContent. cbn [type textItem text]. eauto.
Qed.

Lemma HasContent_retyped (x : ContentItem) :
  HasContent x -> type x = paragraph -> HasContent (withType x bullet).
Proof. unfold HasContent. intros Hx Hp. rewrite Hp in Hx. exact Hx. Qed.

Lemma pushed_numbered (nl : list jsstring) (st st' : ScanState)
      (item : ContentItem) :
  Forall Trimmed nl -> scan_i st < length nl -> ScanStep nl st st' ->
  content st' = content st ++ [item] ->
  type item = numbered -> FromParenLine nl item.
Proof.
  intros Hall Hi Hstep Hc.
  assert (Htrim : Trimmed (lineAt nl (scan_i st))).
  { eapply Forall_forall; [exact Hall|]. now apply nth_In. }
  destruct Hstep as [Hc'|lvl Hc' Hl|Hc' Hl Hh|num rest Hc' Hl Hh Hn|bm Hc' Hl Hh Hn Hb
                     |stripped Hc' Hl Hh Hn Hb Hs|Hc' Hl Hh Hn Hb Hs Hp Hlen
                     |Hc' Hl Hh Hn Hb Hs Hp];
    cbn [content] in Hc; apply app_inv_head in Hc; injection Hc as <-;
    cbn [type codeItem textItem numberedItem]; try discriminate.
  - intros ->. apply getHeadingLevel_heading in Hl.
    now apply isHeading_not_numbered in Hl.
  - intros Hs. exfalso.
    eapply isHeading_not_numbered; [apply scoredLevel_heading|exact Hs].
  - intros _.
    destruct (numberedHit_shape _ Htrim Hn)
      as (ds & p & w & tail & Heq & Hne & Hds & Hp & Hw & -> & ->).
    destruct Hp as [-> | ->].
    + exfalso. rewrite Heq in Htrim, Hl.
      exact (@dotted_numeral_level ds w tail Htrim Hne Hds Hw Hl).
    + exists (lineAt nl (scan_i st)), ds, w, tail.
      repeat split; try assumption. now apply nth_In.
Qed.

End PipelineItems.

Lemma singleton_inj {A : Type} (x y : A) : [x] = [y] -> x = y.
Proof. now intros [= ->]. Qed.

Section PushedConfidence.

Context `{UnicodeCase}.

Lemma pushed_confidence (nl : list jsstring) (st st' : ScanState)
      (item : ContentItem) :
  ScanStep nl st st' -> content st' = content st ++ [item] ->
  ConfidenceInRange item.
Proof.
  intros Hstep Hc.
  pose proof (analyzeCodeProbability_bounds (lineAt nl (scan_i st))
                (contextAt nl (scan_i st))) as Hcode.
  pose proof (analyzeHeaderProbability_bounds (lineAt nl (scan_i st))
                (prevOf nl (scan_i st)) (nextOf nl (scan_i st))) as Hhead.
  pose proof (analyzeBulletProbability_bounds (lineAt nl (scan_i st))
                (prevOf nl (scan_i st)) (afterListIntro nl st)) as Hbul.
  change (0 <= codeProbAt nl (scan_i st) <= 100)%Z in Hcode.
  change (-45 <= headerProbAt nl (scan_i st) <= 100)%Z in Hhead.
  change (-20 <= bulletProbAt nl st <= 100)%Z in Hbul.
  destruct Hstep as [Hc'|lvl Hc' Hl|Hc' Hl Hh|num rest Hc' Hl Hh Hn|bm Hc' Hl Hh Hn Hb
                     |stripped Hc' Hl Hh Hn Hb Hs|Hc' Hl Hh Hn Hb Hs Hp Hlen
                     |Hc' Hl Hh Hn Hb Hs Hp];
    cbn [content] in Hc; apply app_inv_head, singleton_inj in Hc; subst item;
    lazy beta iota delta [ConfidenceInRange type codeItem textItem numberedItem confidence].
  - unfold codeCommitted in Hc'. apply andb_true_iff in Hc' as [Hc' _].
    apply Z.leb_le in Hc'. eexists. split; [reflexivity|lia].
  - apply getHeadingLevel_heading in Hl.
    destruct Hl as [->|[->| ->]]; eexists; (split; [reflexivity|lia]).
  - destruct (scoredLevel_heading (lineAt nl (scan_i st)) (prevOf nl (scan_i st)))
      as [->|[->| ->]]; eexists; (split; [reflexivity|lia]).
  - reflexivity.
  - eexists. split; [reflexivity|lia].
  - reflexivity.
  - eexists. split; [reflexivity|lia].
  - eexists. split; [reflexivity|lia].
Qed.

Lemma ConfidenceInRange_retyped (x : ContentItem) :
  ConfidenceInRange x -> type x = paragraph -> ConfidenceInRange (withType x bullet).
Proof. unfold ConfidenceInRange. intros Hx Hp. rewrite Hp in Hx. exact Hx. Qed.

End PushedConfidence.

(* ------------------------------------------------------------------ *)
(** ** Lines that start with a glyph                                   *)
(* ------------------------------------------------------------------ *)

Lemma roman_is_letter (a : N) :
  existsb (N.eqb a) (str "ivxIVX") = true -> isUpper (upperA a) = true.
Proof.
  cbn [existsb str map list_ascii_of_string N_of_ascii]. intros Ha.
  repeat (apply orb_true_iff in Ha as [Ha|Ha]);
    try discriminate; apply N.eqb_eq in Ha; subst a; reflexivity.
Qed.

(** A line that starts with neither a digit nor a letter has no heading
    level and is no numbered line. *)
Lemma glyph_no_heading_level (a : N) (rest : list N) :
  Trimmed (a :: rest) -> isDigit a = false -> isUpper (upperA a) = false ->
  getHeadingLevel (a :: rest) = None.
Proof.
  intros Htrim Hd Hu. unfold getHeadingLevel. rewrite (trim_fixed Htrim).
  unfold reLevel3, reLevel2, reLevel1, reLetter, reRoman.
  rewrite !test_bol_false; [reflexivity| | | | |]; intros y Hy.
  - apply matches_plus_first in Hy. apply roman_is_letter in Hy. congruence.
  - apply matches_chr_first in Hy. congruence.
  - apply matches_plus_first in Hy. congruence.
  - apply matches_plus_first in Hy. congruence.
  - apply matches_plus_first in Hy. congruence.
Qed.

Lemma glyph_not_numbered (a : N) (rest : list N) (counter : Z) :
  isDigit a = false -> numberedHit (a :: rest) counter = None.
Proof.
  intros Hd. unfold numberedHit, reNumbered. rewrite exec_bol_none; [reflexivity|].
  intros y Hy. apply matches_grp_plus_first in Hy. congruence.
Qed.

(* ------------------------------------------------------------------ *)
(** ** Lines that are a header keyword                                 *)
(* ------------------------------------------------------------------ *)

Lemma analyzeCodeProbability_own (text : jsstring) (context : list jsstring) :
  analyzeCodeProbability text context
  = Z.min (addIf (2 <=? Z.of_nat
                     (length (filter (fun c => existsb (fun p => test p c) CODE_PATTERNS)
                                context)))%Z
             20 (ownCodeScore text)) 100.
Proof. reflexivity. Qed.

Lemma ownCodeScore_low (nl : list jsstring) (i : nat) :
  (ownCodeScore (lineAt nl i) < 40)%Z -> codeCommitted nl i = false.
Proof.
  intros Hown. unfold codeCommitted, codeProbAt.
  rewrite analyzeCodeProbability_own.
  assert (Hlt : (Z.min (addIf (2 <=? Z.of_nat
                     (length (filter (fun c => existsb (fun p => test p c) CODE_PATTERNS)
                                (contextAt nl i))))%Z
             20 (ownCodeScore (lineAt nl i))) 100 < 60)%Z).
  { unfold addIf. destruct (2 <=? _)%Z; lia. }
  now rewrite (proj2 (Z.leb_gt _ _) Hlt).
Qed.

Section Keywords.

Context `{UnicodeCase}.

(** The loop returns 90 at a keyword equal to the line, unless an
    earlier keyword followed by a colon starts the line. *)
Lemma keywordLoop_exact (keywords : list jsstring) (trimmed : jsstring) :
  In trimmed keywords ->
  forallb (fun k => negb (startsWith trimmed (k ++ str ":"))) keywords = true ->
  forall score, keywordLoop keywords trimmed score = Return 90.
Proof.
  induction keywords as [|k rest IH]; intros Hin Hall score; [contradiction|].
  cbn [keywordLoop]. unfold jseqb.
  destruct (list_eq_dec N.eq_dec trimmed k) as [_|Hne]; [reflexivity|].
  cbn [forallb] in Hall. apply andb_true_iff in Hall as [Hk Hrest].
  apply negb_true_iff in Hk. rewrite Hk.
  apply IH; [|exact Hrest]. destruct Hin as [Heq|Hin]; [congruence|exact Hin].
Qed.

(** The loop returns 85 at the first keyword that, followed by a colon,
    starts the line, when the line is no keyword itself. *)
Lemma keywordLoop_colon (keywords : list jsstring) (trimmed : jsstring) :
  existsb (fun k => startsWith trimmed (k ++ str ":")) keywords = true ->
  forallb (fun k => negb (jseqb trimmed k)) keywords = true ->
  forall score, keywordLoop keywords trimmed score = Return 85.
Proof.
  induction keywords as [|k rest IH]; intros Hex Hall score; [discriminate|].
  cbn [keywordLoop]. cbn [forallb] in Hall. apply andb_true_iff in Hall as [Hk Hrest].
  apply negb_true_iff in Hk. rewrite Hk.
  cbn [existsb] in Hex. destruct (startsWith trimmed (k ++ str ":")); [reflexivity|].
  now apply IH.
Qed.

End Keywords.

(** What can be computed of each header keyword: it is trimmed, it is no
    numbered section, no keyword followed by a colon starts it, it has no
    heading level, and its own code score is below 40. *)
Lemma keywords_checked :
  forallb (fun t =>
             jseqb (trim t) t
             && negb (test reSection3 t) && negb (test reSection2 t)
             && negb (test reSection1 t)
             && forallb (fun k => negb (startsWith t (k ++ str ":"))) HEADER_KEYWORDS
             && match getHeadingLevel t with None => true | Some _ => false end
             && (ownCodeScore t <? 40)%Z)
          HEADER_KEYWORDS = true.
Proof. vm_compute. reflexivity. Qed.

(* ------------------------------------------------------------------ *)
(** ** One iteration on a marked line                                  *)
(* ------------------------------------------------------------------ *)

Lemma hasType_lastOf (t : ItemType) (items : list ContentItem) :
  (0 <? Z.of_nat (length items))%Z && hasType t (lastOf items)
  = hasType t (lastOf items).
Proof. destruct items as [|x items]; [reflexivity|]. cbn [length]. now destruct (hasType _ _). Qed.

Lemma isSubGlyph_cases (a : N) :
  isSubGlyph a = true ->
  isDigit a = false /\ isUpper (upperA a) = false
  /\ existsb (N.eqb a) [8226; 45; 42; 8226]%N = false
  /\ existsb (N.eqb a) [9702; 8227; 8259; 8729; 45]%N = true.
Proof.
  unfold isSubGlyph. cbn [existsb]. intros Ha.
  repeat (apply orb_true_iff in Ha as [Ha|Ha]);
    try discriminate; apply N.eqb_eq in Ha; subst a; now repeat split.
Qed.

Lemma isBulletGlyph_cases (a : N) :
  isBulletGlyph a = true ->
  isDigit a = false /\ isUpper (upperA a) = false
  /\ existsb (N.eqb a) [8226; 45; 42; 8226]%N = true.
Proof.
  unfold isBulletGlyph. cbn [existsb]. intros Ha.
  repeat (apply orb_true_iff in Ha as [Ha|Ha]);
    try discriminate; apply N.eqb_eq in Ha; subst a; now repeat split.
Qed.

Section MarkedLines.

Context `{UnicodeCase}.

Lemma scanStep_bullet_glyph (nl : list jsstring) (st : ScanState)
      (glyph : N) (rest : list N) :
  Trimmed (lineAt nl (scan_i st)) ->
  lineAt nl (scan_i st) = glyph :: rest -> isBulletGlyph glyph = true -> rest <> [] ->
  scanStep nl st
  = (if codeCommitted nl (scan_i st)
     then mkScan (scan_i st + length (codeGroupAt nl (scan_i st))) 0
            (introIndex nl st)
            (content st
             ++ [codeItem (codeGroupAt nl (scan_i st)) (codeProbAt nl (scan_i st))])
     else if (70 <=? headerProbAt nl (scan_i st))%Z
     then mkScan (scan_i st + 1) 0 (introIndex nl st)
            (content st
             ++ [textItem (scoredLevel (glyph :: rest) (prevOf nl (scan_i st)))
                   (Some (glyph :: rest)) (headerProbAt nl (scan_i st))])
     else mkScan (scan_i st + 1) (numberedListCounter st) (introIndex nl st)
            (content st ++ [textItem bullet (Some (afterMarker rest)) 95])).
Proof.
  intros Htrim Htext Hg Hrest.
  destruct (isBulletGlyph_cases _ Hg) as (Hd & Hu & Hset).
  rewrite Htext in Htrim.
  assert (Hbul : exec reBullet (glyph :: rest) = Some [(1, afterMarker rest)]).
  { rewrite (exec_reBullet Htrim), Hset. destruct rest; [congruence|reflexivity]. }
  pose proof (glyph_no_heading_level Htrim Hd Hu) as Hlvl.
  pose proof (@glyph_not_numbered glyph rest (numberedListCounter st) Hd) as Hnum.
  destruct (scanStep_spec nl st)
    as [Hc'|lvl Hc' Hl'|Hc' Hl' Hh'|num r Hc' Hl' Hh' Hn'|bm Hc' Hl' Hh' Hn' Hb'
        |stripped Hc' Hl' Hh' Hn' Hb' Hs'|Hc' Hl' Hh' Hn' Hb' Hs' Hp' Hlen'
        |Hc' Hl' Hh' Hn' Hb' Hs' Hp']; rewrite ?Htext in *; rewrite Hc';
    try congruence.
  - now rewrite (proj2 (Z.leb_le _ _) Hh').
  - rewrite (proj2 (Z.leb_gt _ _) Hh'). rewrite Hbul in Hb'.
    injection Hb' as <-. reflexivity.
Qed.

Lemma scanStep_sub_glyph (nl : list jsstring) (st : ScanState)
      (glyph : N) (rest : list N) :
  Trimmed (lineAt nl (scan_i st)) ->
  lineAt nl (scan_i st) = glyph :: rest -> isSubGlyph glyph = true -> rest <> [] ->
  scanStep nl st
  = (if codeCommitted nl (scan_i st)
     then mkScan (scan_i st + length (codeGroupAt nl (scan_i st))) 0
            (introIndex nl st)
            (content st
             ++ [codeItem (codeGroupAt nl (scan_i st)) (codeProbAt nl (scan_i st))])
     else if (70 <=? headerProbAt nl (scan_i st))%Z
     then mkScan (scan_i st + 1) 0 (introIndex nl st)
            (content st
             ++ [textItem (scoredLevel (glyph :: rest) (prevOf nl (scan_i st)))
                   (Some (glyph :: rest)) (headerProbAt nl (scan_i st))])
     else if hasType bullet (lastOf (content st))
     then mkScan (scan_i st + 1) (numberedListCounter st) (introIndex nl st)
            (content st ++ [textItem sub_bullet (Some (afterMarker rest)) 90])
     else if (60 <=? bulletProbAt nl st)%Z && (jslength (glyph :: rest) <? 120)%Z
     then mkScan (scan_i st + 1) (numberedListCounter st) (introIndex nl st)
            (content st ++ [textItem bullet (Some (glyph :: rest)) (bulletProbAt nl st)])
     else mkScan (scan_i st + 1) 0 (introIndex nl st)
            (content st
             ++ [textItem paragraph (Some (glyph :: rest))
                   (100 - headerProbAt nl (scan_i st) - bulletProbAt nl st)])).
Proof.
  intros Htrim Htext Hg Hrest.
  destruct (isSubGlyph_cases _ Hg) as (Hd & Hu & Hnot & Hset).
  rewrite Htext in Htrim.
  assert (Hbul : exec reBullet (glyph :: rest) = None).
  { now rewrite (exec_reBullet Htrim), Hnot. }
  assert (Hsub : subBulletHit (glyph :: rest) (content st)
                 = if hasType bullet (lastOf (content st))
                   then Some (Some (afterMarker rest)) else None).
  { unfold subBulletHit. rewrite (exec_reSubBullet Htrim), Hset.
    destruct rest as [|r0 rest0]; [congruence|].
    rewrite hasType_lastOf. reflexivity. }
  pose proof (glyph_no_heading_level Htrim Hd Hu) as Hlvl.
  pose proof (@glyph_not_numbered glyph rest (numberedListCounter st) Hd) as Hnum.
  destruct (scanStep_spec nl st)
    as [Hc'|lvl Hc' Hl'|Hc' Hl' Hh'|num r Hc' Hl' Hh' Hn'|bm Hc' Hl' Hh' Hn' Hb'
        |stripped Hc' Hl' Hh' Hn' Hb' Hs'|Hc' Hl' Hh' Hn' Hb' Hs' Hp' Hlen'
        |Hc' Hl' Hh' Hn' Hb' Hs' Hp']; rewrite ?Htext in *; rewrite Hc';
    try congruence.
  - now rewrite (proj2 (Z.leb_le _ _) Hh').
  - rewrite (proj2 (Z.leb_gt _ _) Hh'). rewrite Hsub in Hs'.
    destruct (hasType bullet (lastOf (content st))); [|discriminate].
    injection Hs' as <-. reflexivity.
  - rewrite (proj2 (Z.leb_gt _ _) Hh'). rewrite Hsub in Hs'.
    destruct (hasType bullet (lastOf (content st))); [discriminate|].
    rewrite (proj2 (Z.leb_le _ _) Hp'), (proj2 (Z.ltb_lt _ _) Hlen'). reflexivity.
  - rewrite (proj2 (Z.leb_gt _ _) Hh'). rewrite Hsub in Hs'.
    destruct (hasType bullet (lastOf (content st))); [discriminate|].
    destruct Hp' as [Hp'|Hp'].
    + now rewrite (proj2 (Z.leb_gt _ _) Hp').
    + rewrite (proj2 (Z.ltb_ge _ _) Hp'). now rewrite andb_false_r.
Qed.

(** A line equal to a header keyword. *)
Lemma scanStep_keyword (nl : list jsstring) (st : ScanState) :
  scan_i st < length nl -> In (lineAt nl (scan_i st)) HEADER_KEYWORDS ->
  codeCommitted nl (scan_i st) = false
  /\ headerProbAt nl (scan_i st) = 90%Z
  /\ scanStep nl st
     = mkScan (scan_i st + 1) 0 (introIndex nl st)
         (content st
          ++ [textItem (scoredLevel (lineAt nl (scan_i st)) (prevOf nl (scan_i st)))
                (Some (lineAt nl (scan_i st))) 90]).
Proof.
  intros Hi Hin.
  pose proof keywords_checked as Hk. rewrite forallb_forall in Hk.
  specialize (Hk _ Hin).
  repeat (apply andb_true_iff in Hk as [Hk ?]).
  match goal with H : (ownCodeScore _ <? 40)%Z = true |- _ =>
    apply Z.ltb_lt in H; pose proof (ownCodeScore_low nl (scan_i st) H) as Hcode end.
  assert (Hlvl : getHeadingLevel (lineAt nl (scan_i st)) = None).
  { destruct (getHeadingLevel (lineAt nl (scan_i st))); [discriminate|reflexivity]. }
  assert (Hprob : headerProbAt nl (scan_i st) = 90%Z).
  { unfold headerProbAt, analyzeHeaderProbability.
    assert (Ht : trim (lineAt nl (scan_i st)) = lineAt nl (scan_i st)).
    { unfold jseqb in Hk. now destruct (list_eq_dec N.eq_dec _ _). }
    rewrite Ht.
    repeat match goal with H : negb ?b = true |- _ =>
      apply negb_true_iff in H; rewrite H end.
    now rewrite keywordLoop_exact. }
  split; [exact Hcode|]. split; [exact Hprob|].
  destruct (scanStep_spec nl st)
    as [Hc'|lvl Hc' Hl'|Hc' Hl' Hh'|num r Hc' Hl' Hh' Hn'|bm Hc' Hl' Hh' Hn' Hb'
        |stripped Hc' Hl' Hh' Hn' Hb' Hs'|Hc' Hl' Hh' Hn' Hb' Hs' Hp' Hlen'
        |Hc' Hl' Hh' Hn' Hb' Hs' Hp']; try congruence; lia.
Qed.

End MarkedLines.

(* ------------------------------------------------------------------ *)
(** ** Facts about the formatted document                              *)
(* ------------------------------------------------------------------ *)

Lemma mapIndexed_length {A B : Type} (f : A -> nat -> B) (l : list A) :
  forall index, length (mapIndexed f l index) = length l.
Proof. induction l as [|x l IH]; intros index; cbn; [reflexivity|now rewrite IH]. Qed.

Lemma mapIndexed_nth {A B : Type} (f : A -> nat -> B) (l : list A) :
  forall index k x,
    nth_error l k = Some x ->
    nth_error (mapIndexed f l index) k = Some (f x (index + k)).
Proof.
  induction l as [|y l IH]; intros index k x Hk; [now destruct k|].
  destruct k as [|k]; cbn in Hk |- *.
  - injection Hk as <-. now rewrite Nat.add_0_r.
  - rewrite (IH (S index) k x Hk). f_equal. f_equal. lia.
Qed.

Lemma mapIndexed_map {A B C : Type} (f : A -> nat -> B) (g : B -> C) (h : A -> C)
      (l : list A) :
  (forall x index, g (f x index) = h x) ->
  forall index, map g (mapIndexed f l index) = map h l.
Proof.
  intros Hgf. induction l as [|x l IH]; intros index; cbn; [reflexivity|].
  now rewrite Hgf, IH.
Qed.

(** The rows of a code table show the lines, one row a line. *)
Lemma createCodeBlockTable_texts (lines : list jsstring) :
  blockTexts (Table (createCodeBlockTable lines)) = lines.
Proof.
  cbn [blockTexts createCodeBlockTable rows].
  rewrite (@mapIndexed_map _ _ _ _ _ (fun line : jsstring => line)).
  - apply map_id.
  - intros line index. cbn. now rewrite !app_nil_r.
Qed.

Lemma renderItem_texts (lastType : option ItemType) (item : ContentItem) :
  HasContent item ->
  flat_map blockTexts (renderItem lastType item) = shownTexts item.
Proof.
  unfold HasContent, renderItem, shownTexts, flattenItem, textOrEmpty.
  destruct (type item) eqn:Hty.
  - intros (t & -> & _). rewrite flat_map_app.
    replace (flat_map blockTexts
               match lastType with
               | Some t0 => if negb (ItemType_eqb t0 heading1)
                            then [spacer (Some 200%Z) None] else []
               | None => []
               end) with (@nil jsstring).
    + cbn. now rewrite app_nil_r.
    + destruct lastType as [t0|]; [|reflexivity].
      destruct (negb (ItemType_eqb t0 heading1)); reflexivity.
  - intros (t & -> & _). cbn. now rewrite app_nil_r.
  - intros (t & -> & _). cbn. now rewrite app_nil_r.
  - intros (t & -> & _). cbn. now rewrite app_nil_r.
  - intros (t & -> & _). cbn. now rewrite app_nil_r.
  - intros (t & -> & _). cbn. now rewrite app_nil_r, <- app_assoc.
  - intros (ls & -> & Hne & _). destruct ls as [|l ls]; [congruence|].
    cbn [flat_map]. rewrite createCodeBlockTable_texts. cbn. now rewrite app_nil_r.
  - intros (t & -> & _). cbn. now rewrite app_nil_r.
Qed.

Lemma mainContent_texts (content : list ContentItem) :
  Forall HasContent content ->
  forall lastType,
    flat_map blockTexts (mainContent lastType content) = flat_map shownTexts content.
Proof.
  induction 1 as [|item content Hitem _ IH]; intros lastType; [reflexivity|].
  cbn [mainContent flat_map]. rewrite flat_map_app.
  now rewrite (@renderItem_texts lastType item Hitem), IH.
Qed.

Lemma renderItem_toc (lastType : option ItemType) (item : ContentItem) :
  tocEntries (renderItem lastType item) = headingOf item.
Proof.
  unfold renderItem, headingOf, tocEntries.
  destruct (type item); try (cbn; now rewrite ?app_nil_r).
  - rewrite flat_map_app.
    destruct lastType as [t0|]; [destruct (negb (ItemType_eqb t0 heading1))|];
      cbn; now rewrite app_nil_r.
  - destruct (lines item) as [[|l ls]|]; reflexivity.
Qed.

Lemma mainContent_toc (content : list ContentItem) :
  forall lastType, tocEntries (mainContent lastType content) = flat_map headingOf content.
Proof.
  induction content as [|item content IH]; intros lastType; [reflexivity|].
  cbn [mainContent flat_map]. unfold tocEntries in *. rewrite flat_map_app.
  fold (tocEntries (renderItem lastType item)).
  now rewrite renderItem_toc, IH.
Qed.

Lemma length_flat_map {A B : Type} (f : A -> list B) (l : list A) :
  length (flat_map f l) = list_sum (map (fun x => length (f x)) l).
Proof.
  induction l as [|x l IH]; [reflexivity|].
  cbn [flat_map map]. rewrite length_app, IH. reflexivity.
Qed.

Lemma shownTexts_length (item : ContentItem) :
  HasContent item -> length (shownTexts item) = linesHeld item.
Proof.
  unfold HasContent, shownTexts, flattenItem, linesHeld.
  destruct (type item); intros (t & Ht & _); rewrite ?Ht; reflexivity.
Qed.

Lemma headingOf_count (content : list ContentItem) :
  length (flat_map headingOf content) = headings (computeStats content).
Proof.
  induction content as [|item content IH]; [reflexivity|].
  pose proof (computeStats_cons item content) as Hc. cbv zeta in Hc.
  cbn [flat_map]. rewrite length_app, IH. unfold headingOf.
  destruct (type item); rewrite Hc; reflexivity.
Qed.

(** The texts of a whole document. *)
Lemma formatDocument_texts (content : list ContentItem)
      (docTitle subtitle organization author currentDate : jsstring) :
  Forall HasContent content ->
  flat_map blockTexts
    (formatDocument content docTitle subtitle organization author currentDate)
  = [docTitle]
    ++ (if truthy (Some subtitle) then [subtitle] else [])
    ++ [if truthy (Some organization) then organization else str "TechTorch Inc.";
        str "As of " ++ currentDate;
        if truthy (Some author)
        then str "Version 1.0 (" ++ author ++ str ")" else str "Version 1.0";
        str "Table of Contents"]
    ++ flat_map shownTexts content
    ++ [str "End of Document"].
Proof.
  intros Hall. unfold formatDocument, createFormattedDocument.
  rewrite !flat_map_app, (mainContent_texts Hall None). unfold titlePage.
  generalize (flat_map shownTexts content). intros body.
  generalize (if truthy (Some organization) then organization
              else str "TechTorch Inc."). intros org.
  rewrite !flat_map_app.
  destruct (truthy (Some subtitle)); destruct author; cbn; now rewrite ?app_nil_r.
Qed.

(* ------------------------------------------------------------------ *)
(** ** Facts about tags                                                *)
(* ------------------------------------------------------------------ *)

(** A match of a pattern without anchors consumes a run of the class,
    and the pattern matches the same run wherever it is ahead. *)
Lemma matches_consumes (q : N -> bool) (r : regex) (x y : cursor) :
  matches r x y -> Consumes q r ->
  exists run,
    snd x = run ++ snd y /\ fst y = rev run ++ fst x /\ forallb q run = true
    /\ forall b t, matches r (b, run ++ t) (rev run ++ b, t).
Proof.
  induction 1 as [x|p a b rest Hp|r1 r2 x y z _ IH1 _ IH2
                  |r1 r2 x y _ IH|r1 r2 x y _ IH|r x
                  |r x y z _ IH1 _ IH2|a|b|x _|n r x y _ IH];
    cbn [Consumes]; intros Hc; try contradiction.
  - exists []. repeat split. intros b t. apply m_eps.
  - exists [a]. cbn [snd fst app rev forallb]. rewrite (Hc a Hp).
    repeat split. intros b0 t. now apply m_chr.
  - destruct Hc as [Hc1 Hc2].
    destruct (IH1 Hc1) as (run1 & Hx & Hy & Hq1 & Hm1).
    destruct (IH2 Hc2) as (run2 & Hy2 & Hz & Hq2 & Hm2).
    exists (run1 ++ run2). rewrite Hx, Hy2, Hz, Hy, forallb_app, Hq1, Hq2.
    rewrite rev_app_distr, <- !app_assoc. repeat split.
    intros b t. rewrite <- !app_assoc.
    eapply m_seq; [apply Hm1|apply Hm2].
  - destruct Hc as [Hc1 _]. destruct (IH Hc1) as (run & Hx & Hy & Hq & Hm).
    exists run. repeat split; try assumption. intros b t. apply m_alt_l, Hm.
  - destruct Hc as [_ Hc2]. destruct (IH Hc2) as (run & Hx & Hy & Hq & Hm).
    exists run. repeat split; try assumption. intros b t. apply m_alt_r, Hm.
  - exists []. repeat split. intros b t. apply m_star_stop.
  - destruct (IH1 Hc) as (run1 & Hx & Hy & Hq1 & Hm1).
    destruct (IH2 Hc) as (run2 & Hy2 & Hz & Hq2 & Hm2).
    exists (run1 ++ run2). rewrite Hx, Hy2, Hz, Hy, forallb_app, Hq1, Hq2.
    rewrite rev_app_distr, <- !app_assoc. repeat split.
    intros b t. rewrite <- !app_assoc.
    eapply m_star_more; [apply Hm1|apply Hm2].
  - destruct (IH Hc) as (run & Hx & Hy & Hq & Hm).
    exists run. repeat split; try assumption. intros b t. apply m_grp, Hm.
Qed.

Lemma notGtUnit_gt : notGtUnit 62 = false.
Proof. reflexivity. Qed.

(** A pattern [<R>], where [R] consumes no [>], matches a tag exactly
    when [R] matches the whole body, and then the match is the tag. *)
Lemma tag_match (R : regex) (b body rest : list N) (y : cursor) :
  Consumes notGtUnit R -> forallb notGtUnit body = true ->
  matches (Seq (ch "<") (Seq R (ch ">"))) (b, 60%N :: body ++ 62%N :: rest) y ->
  snd y = rest /\ matches R ([], body) (rev body, []).
Proof.
  intros Hc Hbody Hm.
  apply matches_seq_inv in Hm as (x1 & H1 & Hm). apply matches_ch_inv in H1.
  apply matches_seq_inv in Hm as (x2 & H2 & H3). apply matches_ch_inv in H3.
  destruct (@matches_consumes notGtUnit _ _ _ H2 Hc) as (run & Hx1 & _ & Hrun & Hmove).
  cbn [snd] in H1. injection H1 as H1. rewrite <- H1, H3 in Hx1.
  change (chr ">") with 62%N in Hx1.
  destruct (@run_unique notGtUnit body run 62%N 62%N rest (snd y) Hbody Hrun
              notGtUnit_gt notGtUnit_gt Hx1) as [-> Heq].
  injection Heq as ->. split; [reflexivity|].
  specialize (Hmove [] []). now rewrite !app_nil_r in Hmove.
Qed.

Lemma tag_match_build (R : regex) (b body rest : list N) :
  Consumes notGtUnit R -> matches R ([], body) (rev body, []) ->
  matches (Seq (ch "<") (Seq R (ch ">"))) (b, 60%N :: body ++ 62%N :: rest)
          (62%N :: rev body ++ 60%N :: b, rest).
Proof.
  intros Hc Hm.
  destruct (@matches_consumes notGtUnit _ _ _ Hm Hc) as (run & Hx & _ & _ & Hmove).
  cbn [snd] in Hx. rewrite app_nil_r in Hx. subst run.
  eapply m_seq; [apply m_chr; reflexivity|].
  eapply m_seq; [apply Hmove|]. apply m_chr. reflexivity.
Qed.

(** The length [matchLength] finds for such a pattern at a tag. *)
Lemma matchLength_tag (r R : regex) (b body rest : list N) :
  (forall x y, matches r x y <-> matches (Seq (ch "<") (Seq R (ch ">"))) x y) ->
  Consumes notGtUnit R -> forallb notGtUnit body = true ->
  (matches R ([], body) (rev body, []) ->
   matchLength r b (60%N :: body ++ 62%N :: rest) = Some (S (S (length body))))
  /\ (~ matches R ([], body) (rev body, []) ->
      matchLength r b (60%N :: body ++ 62%N :: rest) = None).
Proof.
  intros Heq Hc Hbody. split.
  - intros Hm.
    destruct (matchLength r b (60%N :: body ++ 62%N :: rest)) as [m|] eqn:Hl.
    + apply matchLength_sound in Hl as (y & Hy & ->).
      apply Heq in Hy. destruct (@tag_match R b body rest y Hc Hbody Hy) as [-> _].
      f_equal. cbn [length]. rewrite length_app. cbn [length]. lia.
    + exfalso. eapply matchLength_complete; [|exact Hl].
      apply Heq. now apply tag_match_build.
  - intros Hno. apply matchLength_none. intros y Hy. apply Heq in Hy.
    now destruct (@tag_match R b body rest y Hc Hbody Hy) as [_ Hm].
Qed.

Lemma matches_seq_assoc (r1 r2 r3 : regex) (x y : cursor) :
  matches (Seq (Seq r1 r2) r3) x y <-> matches (Seq r1 (Seq r2 r3)) x y.
Proof.
  split; intros Hm.
  - apply matches_seq_inv in Hm as (x2 & H12 & H3).
    apply matches_seq_inv in H12 as (x1 & H1 & H2).
    eapply m_seq; [exact H1|]. eapply m_seq; eassumption.
  - apply matches_seq_inv in Hm as (x1 & H1 & H23).
    apply matches_seq_inv in H23 as (x2 & H2 & H3).
    eapply m_seq; [|exact H3]. eapply m_seq; eassumption.
Qed.

Lemma matches_seq_congr (r1 r2 r2' : regex) :
  (forall x y, matches r2 x y <-> matches r2' x y) ->
  forall x y, matches (Seq r1 r2) x y <-> matches (Seq r1 r2') x y.
Proof.
  intros Heq x y. split; intros Hm;
    apply matches_seq_inv in Hm as (x1 & H1 & H2);
    (eapply m_seq; [exact H1|now apply Heq]).
Qed.

(** *** The patterns of [parseHtmlToLines] at a tag *)

Ltac solve_consumes :=
  cbn [Consumes blockName alts seqs map liti str list_ascii_of_string chi];
  repeat split; intros a Ha; unfold notGtUnit;
  destruct (N.eqb_spec a 62) as [Heq|_]; try reflexivity;
  subst a; vm_compute in Ha; discriminate.

Lemma blockName_consumes : Consumes notGtUnit blockName.
Proof. unfold blockName. solve_consumes. Qed.

Lemma notGt_consumes : Consumes notGtUnit (Star notGt).
Proof. cbn. intros a Ha. exact Ha. Qed.

Lemma bodyOk_notGt (body : jsstring) :
  bodyOk body = true ->
  body <> [] /\ forallb notGtUnit body = true
  /\ forallb (fun c => negb (N.eqb 60 c)) body = true
  /\ startsWithFold body (str "script") = false
  /\ startsWithFold body (str "style") = false.
Proof.
  unfold bodyOk. intros Hok.
  apply andb_true_iff in Hok as [Hok Hstyle].
  apply andb_true_iff in Hok as [Hok Hscript].
  apply andb_true_iff in Hok as [Hne Hall].
  apply negb_true_iff in Hne, Hscript, Hstyle. apply jseqb_nil in Hne.
  repeat split; try assumption.
  - eapply forallb_impl; [|exact Hall]. intros x Hx.
    apply andb_true_iff in Hx as [_ Hx]. exact Hx.
  - eapply forallb_impl; [|exact Hall]. intros x Hx.
    apply andb_true_iff in Hx as [Hx _]. now rewrite N.eqb_sym.
Qed.

(** The block pattern followed by [[^>]*] matches a whole body exactly
    when the block pattern matches at its start. *)
Lemma open_body (body : jsstring) :
  forallb notGtUnit body = true ->
  matches (Seq blockName (Star notGt)) ([], body) (rev body, [])
  <-> blockAt body = true.
Proof.
  intros Hbody. unfold blockAt. split.
  - intros Hm. apply matches_seq_inv in Hm as (x1 & H1 & _).
    pose proof (@rmatch_complete blockName _ _ H1 [] accept) as Hc.
    destruct (rmatch blockName ([], body) [] accept); [reflexivity|].
    exfalso. apply Hc; [discriminate|reflexivity].
  - destruct (rmatch blockName ([], body) [] accept) as [g|] eqn:Hm; [|discriminate].
    intros _. apply rmatch_sound in Hm as (y & _ & Hy & _).
    destruct (@matches_consumes notGtUnit _ _ _ Hy blockName_consumes)
      as (run & Hx & Hfst & _ & _).
    cbn [snd fst] in Hx, Hfst. rewrite app_nil_r in Hfst.
    eapply m_seq; [exact Hy|]. destruct y as [yb ya]. cbn [snd fst] in *. subst yb.
    rewrite Hx in Hbody |- *. rewrite forallb_app in Hbody.
    apply andb_true_iff in Hbody as [_ Hya].
    rewrite rev_app_distr.
    pose proof (@matches_star_run notGtUnit ya (rev run) [] Hya) as Hs.
    now rewrite app_nil_r in Hs.
Qed.

Lemma close_body (body : jsstring) :
  forallb notGtUnit body = true ->
  matches (Seq (Chr (N.eqb 47)) (Seq blockName (Star notGt))) ([], body) (rev body, [])
  <-> match body with
      | c :: name => N.eqb c 47 && blockAt name
      | [] => false
      end = true.
Proof.
  intros Hbody. split.
  - intros Hm. apply matches_seq_inv in Hm as (x1 & H1 & H2).
    inversion H1 as [|p a b rest Hp| | | | | | | | |]; subst.
    apply N.eqb_eq in Hp. subst a. cbn [N.eqb Pos.eqb andb].
    cbn [forallb] in Hbody. apply andb_true_iff in Hbody as [_ Hrest].
    destruct (@matches_consumes notGtUnit _ _ _ H2
                (conj blockName_consumes notGt_consumes))
      as (run & Hx & _ & _ & Hmove).
    cbn [snd] in Hx. rewrite app_nil_r in Hx. subst run.
    apply (@open_body rest Hrest). specialize (Hmove [] []).
    now rewrite !app_nil_r in Hmove.
  - destruct body as [|c name]; [discriminate|].
    intros Hc. apply andb_true_iff in Hc as [Hc Hname].
    apply N.eqb_eq in Hc. subst c.
    cbn [forallb] in Hbody. apply andb_true_iff in Hbody as [_ Hrest].
    apply (@open_body name Hrest) in Hname.
    destruct (@matches_consumes notGtUnit _ _ _ Hname
                (conj blockName_consumes notGt_consumes))
      as (run & Hx & _ & _ & Hmove).
    cbn [snd] in Hx. rewrite app_nil_r in Hx. subst run.
    eapply m_seq; [now apply m_chr|].
    specialize (Hmove [47%N] []). rewrite app_nil_r in Hmove.
    cbn [rev]. exact Hmove.
Qed.

Lemma tag_body (body : jsstring) :
  forallb notGtUnit body = true -> body <> [] ->
  matches (Plus notGt) ([], body) (rev body, []).
Proof.
  intros Hbody Hne. destruct body as [|c body]; [congruence|].
  cbn [forallb] in Hbody. apply andb_true_iff in Hbody as [Hc Hrest].
  unfold Plus. eapply m_seq; [now apply m_chr|].
  pose proof (@matches_star_run notGtUnit body [c] [] Hrest) as Hs.
  rewrite app_nil_r in Hs. cbn [rev]. exact Hs.
Qed.

Lemma reOpenBlock_tag (b body rest : list N) :
  bodyOk body = true ->
  matchLength reOpenBlock b (60%N :: body ++ 62%N :: rest)
  = if blockAt body then Some (S (S (length body))) else None.
Proof.
  intros Hok. destruct (bodyOk_notGt _ Hok) as (_ & Hbody & _).
  destruct (@matchLength_tag reOpenBlock (Seq blockName (Star notGt)) b body rest)
    as [Hyes Hno].
  - intros x y. unfold reOpenBlock.
    apply matches_seq_congr. intros x' y'. symmetry. apply matches_seq_assoc.
  - exact (conj blockName_consumes notGt_consumes).
  - exact Hbody.
  - destruct (blockAt body) eqn:Hb.
    + apply Hyes. now apply open_body.
    + apply Hno. intros Hm. apply (@open_body body Hbody) in Hm. congruence.
Qed.

Lemma reCloseBlock_tag (b body rest : list N) :
  bodyOk body = true ->
  matchLength reCloseBlock b (60%N :: body ++ 62%N :: rest)
  = if match body with
       | c :: name => N.eqb c 47 && blockAt name
       | [] => false
       end
    then Some (S (S (length body))) else None.
Proof.
  intros Hok. destruct (bodyOk_notGt _ Hok) as (_ & Hbody & _).
  destruct (@matchLength_tag reCloseBlock
              (Seq (Chr (N.eqb 47)) (Seq blockName (Star notGt))) b body rest)
    as [Hyes Hno].
  - intros x y. unfold reCloseBlock.
    change (lit "</") with (Seq (ch "<") (Chr (N.eqb 47))).
    rewrite matches_seq_assoc.
    apply matches_seq_congr. intros x' y'.
    rewrite matches_seq_assoc.
    apply matches_seq_congr. intros x'' y''. symmetry. apply matches_seq_assoc.
  - split; [|exact (conj blockName_consumes notGt_consumes)].
    cbn [Consumes]. intros a Ha. apply N.eqb_eq in Ha. now subst a.
  - exact Hbody.
  - destruct (match body with c :: name => _ | [] => false end) eqn:Hb.
    + apply Hyes. now apply close_body.
    + apply Hno. intros Hm. apply (@close_body body Hbody) in Hm. congruence.
Qed.

Lemma reTag_tag (b body rest : list N) :
  bodyOk body = true ->
  matchLength reTag b (60%N :: body ++ 62%N :: rest) = Some (S (S (length body))).
Proof.
  intros Hok. destruct (bodyOk_notGt _ Hok) as (Hne & Hbody & _).
  destruct (@matchLength_tag reTag (Plus notGt) b body rest) as [Hyes _].
  - intros x y. reflexivity.
  - cbn. split; intros a Ha; exact Ha.
  - exact Hbody.
  - apply Hyes. now apply tag_body.
Qed.

(** A literal under the [i] flag matches only where the subject starts
    with it, case ignored. *)
Lemma matches_liti (l : list N) :
  l <> [] ->
  forall b s y, matches (seqs (map chi l)) (b, s) y -> startsWithFold s l = true.
Proof.
  induction l as [|c l IH]; intros Hne b s y Hm; [congruence|].
  destruct l as [|c' l].
  - cbn [map seqs] in Hm. apply matches_chr_inv in Hm as (a & Ha & Hs).
    cbn [snd] in Hs. rewrite Hs. cbn [startsWithFold]. cbv beta in Ha.
    rewrite Ha. now destruct (snd y).
  - change (seqs (map chi (c :: c' :: l)))
      with (Seq (chi c) (seqs (map chi (c' :: l)))) in Hm.
    apply matches_seq_inv in Hm as (x1 & H1 & H2).
    apply matches_chr_inv in H1 as (a & Ha & Hs). cbn [snd] in Hs. rewrite Hs.
    cbn [startsWithFold]. cbv beta in Ha. rewrite Ha. cbn [andb].
    destruct x1 as [b1 s1]. cbn [snd].
    assert (Hne' : c' :: l <> []) by discriminate.
    exact (IH Hne' b1 s1 y H2).
Qed.

Lemma startsWithFold_cut (p body : jsstring) (c : N) (rest : list N) :
  forallb (fun x => negb (N.eqb (upperA c) (upperA x))) p = true ->
  startsWithFold (body ++ c :: rest) p = true -> startsWithFold body p = true.
Proof.
  revert body. induction p as [|x p IH]; intros body Hp Hs; [now destruct body|].
  cbn [forallb] in Hp. apply andb_true_iff in Hp as [Hx Hp].
  destruct body as [|d body]; cbn [app startsWithFold] in Hs |- *.
  - apply andb_true_iff in Hs as [Hs _]. rewrite Hs in Hx. discriminate.
  - apply andb_true_iff in Hs as [Hd Hs]. rewrite Hd. cbn [andb]. now apply IH.
Qed.

Lemma reScript_tag (n : nat) (b body rest : list N) :
  bodyOk body = true ->
  matchLength (reScript n) b (60%N :: body ++ 62%N :: rest) = None.
Proof.
  intros Hok. destruct (bodyOk_notGt _ Hok) as (_ & _ & _ & Hscript & _).
  apply matchLength_none. intros y Hy. unfold reScript in Hy.
  apply matches_seq_inv in Hy as (x1 & H1 & _).
  assert (Hne : str "<script" <> []) by discriminate.
  destruct x1 as [b1 s1]. apply (matches_liti Hne) in H1.
  cbn [startsWithFold str map list_ascii_of_string] in H1.
  apply andb_true_iff in H1 as [_ H1].
  apply startsWithFold_cut in H1; [|reflexivity].
  cbn [str map list_ascii_of_string] in Hscript. congruence.
Qed.

Lemma reStyle_tag (n : nat) (b body rest : list N) :
  bodyOk body = true ->
  matchLength (reStyle n) b (60%N :: body ++ 62%N :: rest) = None.
Proof.
  intros Hok. destruct (bodyOk_notGt _ Hok) as (_ & _ & _ & _ & Hstyle).
  apply matchLength_none. intros y Hy. unfold reStyle in Hy.
  apply matches_seq_inv in Hy as (x1 & H1 & _).
  assert (Hne : str "<style" <> []) by discriminate.
  destruct x1 as [b1 s1]. apply (matches_liti Hne) in H1.
  cbn [startsWithFold str map list_ascii_of_string] in H1.
  apply andb_true_iff in H1 as [_ H1].
  apply startsWithFold_cut in H1; [|reflexivity].
  cbn [str map list_ascii_of_string] in Hstyle. congruence.
Qed.

(** *** A replacement over texts and tags *)

Lemma replaceScan_nil (p : N -> bool) (r : regex) (rep : jsstring) (b : list N) :
  StartsWith p r -> replaceScan r rep 0 b [] = [].
Proof.
  intros Hs. cbn [replaceScan]. rewrite matchLength_none; [reflexivity|].
  intros y Hy. destruct (@matches_starts p _ _ _ Hy Hs) as (c & t & Hx & _).
  discriminate.
Qed.

(** Code units that cannot start a match are copied. *)
Lemma replaceScan_copy (p : N -> bool) (r : regex) (rep : jsstring) :
  StartsWith p r ->
  forall a b rest,
    forallb (fun c => negb (p c)) a = true ->
    replaceScan r rep 0 b (a ++ rest) = a ++ replaceScan r rep 0 (rev a ++ b) rest.
Proof.
  intros Hs. induction a as [|c a IH]; intros b rest Hall; [reflexivity|].
  cbn [forallb] in Hall. apply andb_true_iff in Hall as [Hc Ha].
  cbn [app rev]. rewrite replaceScan_none.
  - rewrite IH by exact Ha. now rewrite <- app_assoc.
  - apply matchLength_none. intros y Hy.
    destruct (@matches_starts p _ _ _ Hy Hs) as (c' & t & Hx & Hc').
    cbn in Hx. injection Hx as <- <-. rewrite Hc' in Hc. discriminate.
Qed.

(** The code units of a match are passed over. *)
Lemma replaceScan_pass (r : regex) (rep : jsstring) (m : list N) :
  forall b rest,
    replaceScan r rep (length m) b (m ++ rest) = replaceScan r rep 0 (rev m ++ b) rest.
Proof.
  induction m as [|c m IH]; intros b rest; [reflexivity|].
  cbn [length app rev]. rewrite replaceScan_skip, IH. now rewrite <- app_assoc.
Qed.

Lemma segmentOk_no_lt (seg : Segment) :
  segmentOk seg = true ->
  match seg with
  | TextSeg a => forallb (fun c => negb (N.eqb 60 c)) a = true
  | TagSeg body => forallb (fun c => negb (N.eqb 60 c)) (body ++ [62%N]) = true
  end.
Proof.
  destruct seg as [a|body]; cbn [segmentOk]; intros Hok.
  - eapply forallb_impl; [|exact Hok]. intros x Hx. unfold isMarkup in Hx.
    apply negb_true_iff, orb_false_iff in Hx as [Hx _].
    now rewrite N.eqb_sym, Hx.
  - destruct (bodyOk_notGt _ Hok) as (_ & _ & Hlt & _).
    now rewrite forallb_app, Hlt.
Qed.

(** A pattern that starts with [<] and, at a tag, matches the whole tag
    or nothing, replaces the tags it matches and leaves the rest. *)
Lemma replaceScan_segments (r : regex) (rep : jsstring) (decide : jsstring -> bool) :
  StartsWith (N.eqb 60) r ->
  (forall b body rest,
      bodyOk body = true ->
      matchLength r b (60%N :: body ++ 62%N :: rest)
      = if decide body then Some (S (S (length body))) else None) ->
  forall segs b,
    forallb segmentOk segs = true ->
    replaceScan r rep 0 b (htmlOf segs) = htmlOf (map (replaceTag decide rep) segs).
Proof.
  intros Hs Hdec. induction segs as [|seg segs IH]; intros b Hok.
  - cbn [htmlOf flat_map map]. exact (@replaceScan_nil (N.eqb 60) r rep b Hs).
  - cbn [forallb] in Hok. apply andb_true_iff in Hok as [Hseg Hsegs].
    pose proof (segmentOk_no_lt seg Hseg) as Hlt.
    unfold htmlOf in *. cbn [flat_map map].
    destruct seg as [a|body]; cbn [segmentString replaceTag].
    + rewrite (@replaceScan_copy (N.eqb 60) r rep Hs) by exact Hlt. now rewrite IH.
    + cbn [segmentOk] in Hseg. cbn [app]. rewrite <- app_assoc. cbn [app].
      specialize (Hdec b body (flat_map segmentString segs) Hseg).
      destruct (decide body).
      * rewrite (@replaceScan_some r rep b _ _ _ Hdec).
        cbn [Nat.eqb app Nat.sub segmentString].
        change (body ++ 62%N :: flat_map segmentString segs)
          with (body ++ [62%N] ++ flat_map segmentString segs).
        rewrite app_assoc.
        replace (length body - 0) with (length body) by lia.
        replace (S (length body)) with (length (body ++ [62%N]))
          by (rewrite length_app; cbn; lia).
        rewrite replaceScan_pass. now rewrite IH.
      * rewrite (@replaceScan_none r rep b _ _ Hdec). cbn [segmentString app].
        f_equal.
        change (body ++ 62%N :: flat_map segmentString segs)
          with (body ++ [62%N] ++ flat_map segmentString segs).
        rewrite app_assoc.
        rewrite (@replaceScan_copy (N.eqb 60) r rep Hs) by exact Hlt.
        rewrite IH by exact Hsegs. now rewrite <- app_assoc.
Qed.

Lemma chi_lt_starts (a : N) : N.eqb (upperA a) (upperA 60) = true -> N.eqb 60 a = true.
Proof.
  intros Ha. apply N.eqb_eq in Ha. change (upperA 60) with 60%N in Ha.
  apply upperA_lt in Ha. now subst a.
Qed.

Lemma replaceTag_ok (decide : jsstring -> bool) (rep : jsstring) (segs : list Segment) :
  segmentOk (TextSeg rep) = true ->
  forallb segmentOk segs = true ->
  forallb segmentOk (map (replaceTag decide rep) segs) = true.
Proof.
  intros Hrep. induction segs as [|seg segs IH]; [reflexivity|].
  cbn [forallb map]. intros Hok. apply andb_true_iff in Hok as [Hseg Hsegs].
  rewrite IH by exact Hsegs. rewrite andb_true_r.
  destruct seg as [a|body]; cbn [replaceTag]; [exact Hseg|].
  now destruct (decide body).
Qed.

Lemma replaceTag_none (rep : jsstring) (segs : list Segment) :
  map (replaceTag (fun _ => false) rep) segs = segs.
Proof.
  induction segs as [|seg segs IH]; [reflexivity|].
  cbn [map]. rewrite IH. now destruct seg.
Qed.

(** The three tag replacements, one after another, leave what
    [renderSegment] describes. *)
Lemma replaceTag_render (segs : list Segment) :
  htmlOf
    (map (replaceTag (fun _ => true) [])
       (map (replaceTag blockAt LF)
          (map (replaceTag (fun body => match body with
                                        | c :: name => N.eqb c 47 && blockAt name
                                        | [] => false
                                        end) LF) segs)))
  = flat_map renderSegment segs.
Proof.
  unfold htmlOf. induction segs as [|seg segs IH]; [reflexivity|].
  cbn [map flat_map]. rewrite IH. f_equal.
  destruct seg as [a|body]; cbn [replaceTag segmentString renderSegment]; [reflexivity|].
  unfold isBlockTag.
  destruct (match body with c :: name => _ | [] => false end);
    cbn [replaceTag segmentString].
  - now rewrite orb_true_r.
  - rewrite orb_false_r. destruct (blockAt body); reflexivity.
Qed.

Lemma render_plain (segs : list Segment) :
  forallb segmentOk segs = true ->
  forallb (fun c => negb (isMarkup c)) (flat_map renderSegment segs) = true.
Proof.
  induction segs as [|seg segs IH]; [reflexivity|].
  cbn [forallb flat_map]. intros Hok. apply andb_true_iff in Hok as [Hseg Hsegs].
  rewrite forallb_app, IH by exact Hsegs. rewrite andb_true_r.
  destruct seg as [a|body]; cbn [renderSegment]; [exact Hseg|].
  now destruct (isBlockTag body).
Qed.

(** [parseHtmlToLines] on texts and tags. *)
Lemma parseHtmlToLines_segments (segs : list Segment) :
  forallb segmentOk segs = true ->
  parseHtmlToLines (htmlOf segs)
  = nonEmptyLinesOf (splitLines (flat_map renderSegment segs)).
Proof.
  intros Hok.
  assert (Hscripts : removeScripts (htmlOf segs) = htmlOf segs).
  { unfold removeScripts. cbv zeta.
    assert (H1 : replaceAll (reScript (length (htmlOf segs))) [] (htmlOf segs)
                 = htmlOf segs).
    { unfold replaceAll.
      rewrite (@replaceScan_segments (reScript (length (htmlOf segs))) []
                 (fun _ => false) chi_lt_starts) by
        (try exact Hok; intros b body rest Hb; now apply reScript_tag).
      now rewrite replaceTag_none. }
    rewrite H1. unfold replaceAll.
    rewrite (@replaceScan_segments (reStyle (length (htmlOf segs))) []
               (fun _ => false) chi_lt_starts) by
      (try exact Hok; intros b body rest Hb; now apply reStyle_tag).
    now rewrite replaceTag_none. }
  set (closing := fun body : jsstring =>
                    match body with
                    | c :: name => N.eqb c 47 && blockAt name
                    | [] => false
                    end).
  assert (Hok1 : forallb segmentOk (map (replaceTag closing LF) segs) = true)
    by now apply replaceTag_ok.
  assert (Hok2 : forallb segmentOk
                   (map (replaceTag blockAt LF) (map (replaceTag closing LF) segs))
                 = true) by now apply replaceTag_ok.
  assert (Hblocks : breakBlocks (htmlOf segs)
                    = htmlOf (map (replaceTag blockAt LF)
                                (map (replaceTag closing LF) segs))).
  { unfold breakBlocks. cbv zeta. unfold replaceAll.
    rewrite (@replaceScan_segments reCloseBlock LF closing (fun a H => H)) by
      (try exact Hok; intros b body rest Hb; now apply reCloseBlock_tag).
    rewrite (@replaceScan_segments reOpenBlock LF blockAt (fun a H => H)) by
      (try exact Hok1; intros b body rest Hb; now apply reOpenBlock_tag).
    reflexivity. }
  assert (Hitems : markListItems (breakBlocks (htmlOf segs)) = breakBlocks (htmlOf segs)).
  { unfold markListItems, replaceAll at 1. apply replaceScan_listItem_id.
    unfold breakBlocks, replaceAll at 1. apply replaceScan_openBlock_noListItem. }
  assert (Htags : removeTags (breakBlocks (htmlOf segs)) = flat_map renderSegment segs).
  { rewrite Hblocks. unfold removeTags, replaceAll.
    rewrite (@replaceScan_segments reTag [] (fun _ => true) (fun a H => H)) by
      (try exact Hok2; intros b body rest Hb; now apply reTag_tag).
    apply replaceTag_render. }
  unfold parseHtmlToLines. cbv zeta.
  rewrite Hscripts, Hitems, Htags.
  pose proof (render_plain segs Hok) as Hplain.
  unfold decodeEntities. cbv zeta.
  rewrite (@replaceAll_plain (lit "&amp;") _ _ eqb_amp Hplain).
  rewrite (@replaceAll_plain (lit "&lt;") _ _ eqb_amp Hplain).
  rewrite (@replaceAll_plain (lit "&gt;") _ _ eqb_amp Hplain).
  rewrite (@replaceAll_plain (lit "&quot;") _ _ eqb_amp Hplain).
  rewrite (@replaceAll_plain (lit "&#39;") _ _ eqb_amp Hplain).
  rewrite (@replaceAll_plain (lit "&nbsp;") _ _ eqb_amp Hplain).
  reflexivity.
Qed.

(* ------------------------------------------------------------------ *)
(** ** Lines that start with a header keyword and a colon              *)
(* ------------------------------------------------------------------ *)

Lemma startsWith_app (p s : jsstring) : startsWith (p ++ s) p = true.
Proof.
  induction p as [|c p IH]; [now destruct s|].
  cbn [app startsWith]. now rewrite N.eqb_refl, IH.
Qed.

(** What can be computed of each header keyword: it holds no colon, it
    starts with something other than a digit and goes on with something
    other than a closing parenthesis, and the first code unit after its
    roman numerals, if it starts with any, is no dot. *)
Lemma keywords_shape :
  forallb (fun k =>
             negb (existsb (N.eqb 58) k)
             && match k with
                | c1 :: c2 :: _ => negb (isDigit c1) && negb (N.eqb c2 41)
                | _ => false
                end
             && match dropWhile (fun a => existsb (N.eqb a) (str "ivxIVX")) k with
                | c :: _ => negb (N.eqb c 46)
                | [] => false
                end)
          HEADER_KEYWORDS = true.
Proof. vm_compute. reflexivity. Qed.

Lemma forallb_takeWhile (p : N -> bool) (l : list N) :
  forallb p (takeWhile p l) = true.
Proof.
  induction l as [|x l IH]; [reflexivity|]. cbn [takeWhile].
  destruct (p x) eqn:Hx; [|reflexivity]. cbn [forallb]. now rewrite Hx, IH.
Qed.

(** Where a run of a class ends in a string is where it ends in a prefix
    of the string that goes beyond the run. *)
Lemma run_meets (p : N -> bool) (run l suffix : list N) (d : N) (rest2 : list N)
      (c : N) (rest : list N) :
  forallb p run = true -> p d = false -> dropWhile p l = c :: rest ->
  run ++ d :: rest2 = l ++ suffix -> d = c.
Proof.
  intros Hrun Hd Hdrop Heq.
  pose proof (takeWhile_dropWhile p l) as Hsplit. rewrite Hdrop in Hsplit.
  pose proof (dropWhile_head _ _ Hdrop) as Hc.
  rewrite <- Hsplit, <- app_assoc in Heq. cbn [app] in Heq.
  destruct (@run_unique p _ _ _ _ _ _ Hrun (forallb_takeWhile p l) Hd Hc Heq)
    as [_ Hhead].
  now injection Hhead.
Qed.

Section KeywordColon.

Context `{UnicodeCase}.

Lemma keyword_colon_facts (keyword tail : jsstring) :
  In keyword HEADER_KEYWORDS -> Trimmed (keyword ++ str ":" ++ tail) ->
  getHeadingLevel (keyword ++ str ":" ++ tail) = None
  /\ forall prev next,
       analyzeHeaderProbability (keyword ++ str ":" ++ tail) prev next = 85%Z.
Proof.
  intros Hin Htrim.
  pose proof keywords_shape as Hk. rewrite forallb_forall in Hk.
  specialize (Hk _ Hin).
  apply andb_true_iff in Hk as [Hk Hroman]. apply andb_true_iff in Hk as [Hcolon Hk].
  apply negb_true_iff in Hcolon.
  destruct keyword as [|c1 [|c2 kw]]; try discriminate.
  apply andb_true_iff in Hk as [Hd Hp].
  apply negb_true_iff in Hd, Hp.
  set (text := (c1 :: c2 :: kw) ++ str ":" ++ tail) in *.
  assert (Htext : text = c1 :: c2 :: (kw ++ str ":" ++ tail)) by reflexivity.
  assert (Hsect : forall r, test (Seq Bol (Seq (Plus digit) r)) text = false).
  { intros r. apply test_bol_false. intros y Hy. rewrite Htext in Hy.
    apply matches_plus_first in Hy. congruence. }
  split.
  - unfold getHeadingLevel. rewrite (trim_fixed Htrim).
    unfold reLevel3, reLevel2, reLevel1. rewrite !Hsect.
    unfold reLetter, reRoman.
    rewrite !test_bol_false; [reflexivity| |]; intros y Hy.
    + apply matches_seq_inv in Hy as (x1 & H1 & Hy).
      apply matches_plus_chr_inv in H1 as (a & run & Ha & Hrun & Hx).
      apply matches_seq_inv in Hy as (x2 & Hdot & _).
      apply matches_ch_inv in Hdot. cbn [snd] in Hx. rewrite Hdot in Hx.
      destruct (dropWhile (fun a0 => existsb (N.eqb a0) (str "ivxIVX")) (c1 :: c2 :: kw))
        as [|c rest] eqn:Hdrop; [discriminate|].
      apply negb_true_iff in Hroman.
      assert (Hall : forallb (fun a0 => existsb (N.eqb a0) (str "ivxIVX")) (a :: run)
                     = true).
      { cbn [forallb]. unfold oneOf in Ha. cbv beta in Ha. now rewrite Ha, Hrun. }
      pose proof (@run_meets (fun a0 => existsb (N.eqb a0) (str "ivxIVX"))
                    (a :: run) (c1 :: c2 :: kw) (str ":" ++ tail) (chr ".")
                    (snd x2) c rest Hall eq_refl Hdrop (eq_sym Hx)) as Hdot'.
      rewrite <- Hdot' in Hroman. discriminate.
    + rewrite Htext in Hy.
      apply matches_seq_inv in Hy as (x1 & H1 & Hy).
      apply matches_chr_inv in H1 as (a & _ & Hx). cbn [snd] in Hx.
      injection Hx as _ Hx.
      apply matches_seq_inv in Hy as (x2 & Hparen & _).
      apply matches_ch_inv in Hparen. rewrite <- Hx in Hparen.
      injection Hparen as Hparen _. subst c2. discriminate.
  - intros prev next. unfold analyzeHeaderProbability. rewrite (trim_fixed Htrim).
    unfold reSection3, reSection2, reSection1. rewrite !Hsect.
    rewrite keywordLoop_colon; [reflexivity| |].
    + apply existsb_exists. exists (c1 :: c2 :: kw). split; [exact Hin|].
      unfold text. rewrite app_assoc. apply startsWith_app.
    + apply forallb_forall. intros k Hkin. apply negb_true_iff. unfold jseqb.
      destruct (list_eq_dec N.eq_dec text k) as [Heq|_]; [|reflexivity].
      exfalso. pose proof keywords_shape as Hk'. rewrite forallb_forall in Hk'.
      specialize (Hk' _ Hkin).
      apply andb_true_iff in Hk' as [Hk' _]. apply andb_true_iff in Hk' as [Hk' _].
      apply negb_true_iff in Hk'. rewrite <- Heq in Hk'.
      unfold text in Hk'. rewrite !existsb_app in Hk'.
      cbn in Hk'. now rewrite orb_true_r in Hk'.
Qed.

(** A line that starts with a header keyword and a colon. *)
Lemma scanStep_keyword_colon (nl : list jsstring) (st : ScanState)
      (keyword tail : jsstring) :
  Trimmed (lineAt nl (scan_i st)) ->
  In keyword HEADER_KEYWORDS ->
  lineAt nl (scan_i st) = keyword ++ str ":" ++ tail ->
  codeCommitted nl (scan_i st) = false ->
  scanStep nl st
  = mkScan (scan_i st + 1) 0 (introIndex nl st)
      (content st
       ++ [textItem (scoredLevel (lineAt nl (scan_i st)) (prevOf nl (scan_i st)))
             (Some (lineAt nl (scan_i st))) 85]).
Proof.
  intros Htrim Hin Hline Hcode.
  rewrite Hline in Htrim.
  destruct (keyword_colon_facts tail Hin Htrim) as [Hlvl Hprob].
  assert (Hh : headerProbAt nl (scan_i st) = 85%Z).
  { unfold headerProbAt. rewrite Hline. apply Hprob. }
  rewrite <- Hline in Hlvl.
  destruct (scanStep_spec nl st)
    as [Hc'|lvl Hc' Hl'|Hc' Hl' Hh'|num r Hc' Hl' Hh' Hn'|bm Hc' Hl' Hh' Hn' Hb'
        |stripped Hc' Hl' Hh' Hn' Hb' Hs'|Hc' Hl' Hh' Hn' Hb' Hs' Hp' Hlen'
        |Hc' Hl' Hh' Hn' Hb' Hs' Hp']; try congruence; lia.
Qed.

End KeywordColon.

(* ------------------------------------------------------------------ *)
(** ** Facts about the entities                                        *)
(* ------------------------------------------------------------------ *)

(** A literal matches exactly where the subject starts with it. *)
Lemma matches_lit (l : list N) :
  l <> [] ->
  forall b s y,
    matches (seqs (map (fun c => Chr (N.eqb c)) l)) (b, s) y ->
    exists rest, s = l ++ rest /\ snd y = rest.
Proof.
  induction l as [|c l IH]; intros Hne b s y Hm; [congruence|].
  destruct l as [|c' l].
  - cbn [map seqs] in Hm. apply matches_chr_inv in Hm as (a & Ha & Hs).
    apply N.eqb_eq in Ha. subst a. cbn [snd] in Hs. exists (snd y). now split.
  - change (seqs (map (fun c0 => Chr (N.eqb c0)) (c :: c' :: l)))
      with (Seq (Chr (N.eqb c)) (seqs (map (fun c0 => Chr (N.eqb c0)) (c' :: l)))) in Hm.
    apply matches_seq_inv in Hm as (x1 & H1 & H2).
    apply matches_chr_inv in H1 as (a & Ha & Hs).
    apply N.eqb_eq in Ha. subst a. cbn [snd] in Hs.
    destruct x1 as [b1 s1]. cbn [snd] in Hs.
    assert (Hne' : c' :: l <> []) by discriminate.
    destruct (IH Hne' b1 s1 y H2) as (rest & Hs1 & Hy).
    exists rest. split; [|exact Hy]. rewrite Hs, Hs1. reflexivity.
Qed.

Lemma matches_lit_build (l : list N) :
  l <> [] ->
  forall b rest,
    matches (seqs (map (fun c => Chr (N.eqb c)) l)) (b, l ++ rest) (rev l ++ b, rest).
Proof.
  induction l as [|c l IH]; intros Hne b rest; [congruence|].
  destruct l as [|c' l].
  - cbn [map seqs app rev]. apply m_chr. apply N.eqb_refl.
  - change (seqs (map (fun c0 => Chr (N.eqb c0)) (c :: c' :: l)))
      with (Seq (Chr (N.eqb c)) (seqs (map (fun c0 => Chr (N.eqb c0)) (c' :: l)))).
    assert (Hne' : c' :: l <> []) by discriminate.
    eapply m_seq; [apply m_chr; apply N.eqb_refl|].
    specialize (IH Hne' (c :: b) rest).
    change (rev (c :: c' :: l)) with (rev (c' :: l) ++ [c]).
    rewrite <- app_assoc. exact IH.
Qed.

Lemma matchLength_lit (w : string) (b rest : list N) :
  str w <> [] -> matchLength (lit w) b (str w ++ rest) = Some (length (str w)).
Proof.
  intros Hne. unfold lit.
  destruct (matchLength _ b (str w ++ rest)) as [m|] eqn:Hm.
  - apply matchLength_sound in Hm as (y & Hy & ->).
    destruct (matches_lit Hne Hy) as (rest' & Heq & ->).
    apply app_inv_head in Heq. subst rest'. f_equal. rewrite length_app. lia.
  - exfalso. eapply matchLength_complete; [|exact Hm].
    now apply matches_lit_build.
Qed.

Lemma startsWith_prefix (p s : jsstring) :
  startsWith s p = true -> exists rest, s = p ++ rest.
Proof.
  revert s. induction p as [|c p IH]; intros s Hs; [now exists s|].
  destruct s as [|d s]; cbn [startsWith] in Hs; [discriminate|].
  apply andb_true_iff in Hs as [Hc Hs]. apply N.eqb_eq in Hc. subst d.
  destruct (IH s Hs) as [rest ->]. now exists rest.
Qed.

Lemma matchLength_lit_miss (w : string) (b s : list N) :
  str w <> [] -> startsWith s (str w) = false -> matchLength (lit w) b s = None.
Proof.
  intros Hne Hs. apply matchLength_none. intros y Hy. unfold lit in Hy.
  destruct (matches_lit Hne Hy) as (rest & -> & _).
  now rewrite startsWith_app in Hs.
Qed.

Lemma eqb_amp_starts (a : N) : N.eqb 38 a = true -> N.eqb 38 a = true.
Proof. exact (fun H => H). Qed.

(** One occurrence of the entity, and no other [&]. *)
Lemma replaceAll_hit (w : string) (rep pre rest : jsstring) :
  str w <> [] -> StartsWith (N.eqb 38) (lit w) ->
  forallb noAmp pre = true -> forallb noAmp rest = true ->
  replaceAll (lit w) rep (pre ++ str w ++ rest) = pre ++ rep ++ rest.
Proof.
  intros Hne Hs Hpre Hrest. unfold replaceAll.
  rewrite (@replaceScan_copy (N.eqb 38) (lit w) rep Hs) by exact Hpre.
  f_equal. destruct (str w) as [|c l] eqn:Hw; [congruence|].
  cbn [app].
  assert (Hm : matchLength (lit w) (rev pre ++ []) (c :: l ++ rest)
               = Some (S (length l))).
  { change (c :: l ++ rest) with ((c :: l) ++ rest). rewrite <- Hw.
    rewrite (matchLength_lit w _ rest) by (rewrite Hw; discriminate).
    now rewrite Hw. }
  rewrite (@replaceScan_some _ rep _ _ _ _ Hm). cbn [Nat.eqb app Nat.sub].
  f_equal. rewrite Nat.sub_0_r, replaceScan_pass.
  apply (@replaceScan_id (N.eqb 38)); assumption.
Qed.

(** A lone [&] that does not start the entity, and no other [&]. *)
Lemma replaceAll_miss (w : string) (rep pre rest : jsstring) :
  str w <> [] -> StartsWith (N.eqb 38) (lit w) ->
  forallb noAmp pre = true -> forallb noAmp rest = true ->
  startsWith (38%N :: rest) (str w) = false ->
  replaceAll (lit w) rep (pre ++ 38%N :: rest) = pre ++ 38%N :: rest.
Proof.
  intros Hne Hs Hpre Hrest Hmiss. unfold replaceAll.
  rewrite (@replaceScan_copy (N.eqb 38) (lit w) rep Hs) by exact Hpre.
  f_equal. rewrite replaceScan_none by now apply matchLength_lit_miss.
  f_equal. apply (@replaceScan_id (N.eqb 38)); assumption.
Qed.

(** No [&] at all. *)
Lemma replaceAll_none (w : string) (rep s : jsstring) :
  StartsWith (N.eqb 38) (lit w) -> forallb noAmp s = true ->
  replaceAll (lit w) rep s = s.
Proof. intros Hs Hall. unfold replaceAll. now apply (@replaceScan_id (N.eqb 38)). Qed.

Lemma plain_noAmp (s : jsstring) :
  forallb (fun c => negb (isMarkup c)) s = true -> forallb noAmp s = true.
Proof.
  apply forallb_impl. intros x Hx. unfold isMarkup in Hx.
  apply negb_true_iff, orb_false_iff in Hx as [_ Hx].
  unfold noAmp. now rewrite N.eqb_sym, Hx.
Qed.

(* ------------------------------------------------------------------ *)
(** ** The statistics before and after the corrective pass             *)
(* ------------------------------------------------------------------ *)

Lemma computeStats_retyped (a b : list ContentItem) :
  Forall2 Retyped a b ->
  headings (computeStats b) = headings (computeStats a)
  /\ numberedItems (computeStats b) = numberedItems (computeStats a)
  /\ codeBlocks (computeStats b) = codeBlocks (computeStats a)
  /\ bullets (computeStats a) <= bullets (computeStats b)
  /\ paragraphs (computeStats b) <= paragraphs (computeStats a)
  /\ bullets (computeStats b) + paragraphs (computeStats b)
     = bullets (computeStats a) + paragraphs (computeStats a).
Proof.
  induction 1 as [|x y a b Hxy _ IH]; [repeat split; lia|].
  pose proof (computeStats_cons x a) as Hx. pose proof (computeStats_cons y b) as Hy.
  cbv zeta in Hx, Hy.
  destruct IH as (H1 & H2 & H3 & H4 & H5 & H6).
  destruct Hxy as [->|[Hp ->]].
  - destruct (type x); rewrite Hx, Hy;
      cbn [headings bullets numberedItems codeBlocks paragraphs]; repeat split; lia.
  - cbn [withType type] in Hy. rewrite Hp in Hx. rewrite Hx, Hy.
    cbn [headings bullets numberedItems codeBlocks paragraphs]. repeat split; lia.
Qed.

(** *** An entity whose ampersand is itself written as an entity *)

Lemma noAmp_cons (c : N) (s : jsstring) :
  noAmp c = true -> forallb noAmp s = true -> forallb noAmp (c :: s) = true.
Proof. intros Hc Hs. cbn [forallb]. now rewrite Hc, Hs. Qed.

Lemma noAmp_app (a b : jsstring) :
  forallb noAmp a = true -> forallb noAmp b = true -> forallb noAmp (a ++ b) = true.
Proof. intros Ha Hb. now rewrite forallb_app, Ha, Hb. Qed.

Ltac no_amp :=
  repeat first [ assumption
               | apply noAmp_app
               | apply noAmp_cons; [reflexivity|] ].

(** One replacement of [decodeEntities] on a string with at most one [&]. *)
Ltac decode_step :=
  match goal with
  | |- context [replaceAll (lit ?w) ?rep (?pre ++ 38%N :: ?rest)] =>
      first
        [ rewrite (@replaceAll_miss w rep pre rest)
            by first [discriminate | exact eqb_amp_starts | solve [no_amp] | reflexivity]
        | let tail := eval cbn in (skipn (length (str w) - 1) rest) in
          change (pre ++ 38%N :: rest) with (pre ++ str w ++ tail);
          rewrite (@replaceAll_hit w rep pre tail)
            by first [discriminate | exact eqb_amp_starts | solve [no_amp]] ]
  | |- context [replaceAll (lit ?w) ?rep (?pre ++ ?t)] =>
      rewrite (@replaceAll_none w rep (pre ++ t))
        by first [exact eqb_amp_starts | solve [no_amp]]
  end.

Lemma decodeEntities_later (pre s name : jsstring) (c : N) :
  forallb noAmp pre = true -> forallb noAmp s = true -> In (name, c) laterEntities ->
  decodeEntities (pre ++ str "&" ++ name ++ s) = pre ++ c :: s
  /\ decodeEntities (pre ++ str "&amp;" ++ name ++ s) = pre ++ c :: s.
Proof.
  intros Hpre Hs Hin. unfold laterEntities in Hin. cbn [In] in Hin.
  unfold decodeEntities. cbv zeta.
  repeat destruct Hin as [Hin|Hin]; try contradiction;
    injection Hin as <- <-;
    cbn [str map list_ascii_of_string app];
    change (N_of_ascii "&") with 38%N;
    (split; repeat (decode_step; cbn [app]); reflexivity).
Qed.

Lemma noLt_steps (t : jsstring) :
  forallb (fun c => negb (N.eqb 60 c)) t = true ->
  removeTags (markListItems (breakBlocks (removeScripts t))) = t.
Proof.
  intros Ht.
  assert (Hid : forall r rep, StartsWith (N.eqb 60) r -> replaceAll r rep t = t).
  { intros r rep Hr. unfold replaceAll. now apply (@replaceScan_id (N.eqb 60)). }
  unfold removeTags, markListItems, breakBlocks, removeScripts. cbv zeta.
  rewrite (Hid (reScript (length t)) [] chi_lt_starts).
  rewrite (Hid (reStyle (length t)) [] chi_lt_starts).
  rewrite (Hid reCloseBlock LF (fun a H => H)).
  rewrite (Hid reOpenBlock LF (fun a H => H)).
  rewrite (Hid reListItem listItemMarker (fun a H => H)).
  now rewrite (Hid reTag [] (fun a H => H)).
Qed.

Lemma plain_noLt (s : jsstring) :
  forallb (fun c => negb (isMarkup c)) s = true ->
  forallb (fun c => negb (N.eqb 60 c)) s = true.
Proof.
  apply forallb_impl. intros x Hx. unfold isMarkup in Hx.
  apply negb_true_iff, orb_false_iff in Hx as [Hx _].
  now rewrite N.eqb_sym, Hx.
Qed.

Lemma laterEntities_noLt (name : jsstring) (c : N) :
  In (name, c) laterEntities -> forallb (fun c => negb (N.eqb 60 c)) name = true.
Proof.
  unfold laterEntities. cbn [In]. intros Hin.
  repeat destruct Hin as [Hin|Hin]; try contradiction; injection Hin as <- _;
    reflexivity.
Qed.

(* ------------------------------------------------------------------ *)
(** ** The lines of a file                                             *)
(* ------------------------------------------------------------------ *)

Section FileLines.

Context `{UnicodeCase}.

(** X1. The lines [parseHtmlToLines] returns are already in the form
    the scan works on: none is empty, none has white space at either
    end, none holds a line feed. So the trimming and filtering at the
    start of [extractContent] leaves them as they are, and in HTML mode
    the scan runs on exactly the lines [parseHtmlToLines] returned. *)
Theorem parseHtmlToLines_normalized (html raw : jsstring) :
  Forall (fun l => Trimmed l /\ ~ In 10%N l) (parseHtmlToLines html)
  /\ nonEmptyLinesOf (parseHtmlToLines html) = parseHtmlToLines html
  /\ extractContentOfFile (mkFile (Some html) raw)
     = postProcessContent (scanContent (parseHtmlToLines html)).
Proof.
  assert (Htrim : Forall Trimmed (parseHtmlToLines html))
    by apply nonEmptyLinesOf_trimmed.
  split; [|split].
  - apply Forall_forall. intros l Hl. split.
    + rewrite Forall_forall in Htrim. now apply Htrim.
    + unfold parseHtmlToLines in Hl. apply filter_In in Hl as [Hl _].
      apply in_map_iff in Hl as (piece & <- & Hpiece).
      intros Hin. apply trim_In in Hin.
      pose proof (@splitAt_pieces 10%N
                    (decodeEntities (removeTags (markListItems (breakBlocks (removeScripts html)))))
                    [] (fun f => f)) as Hp.
      rewrite Forall_forall in Hp. exact (Hp piece Hpiece Hin).
  - now apply nonEmptyLinesOf_fixed.
  - unfold extractContentOfFile, linesOfFile, extractContent. cbn [convertToHtml].
    now rewrite nonEmptyLinesOf_fixed.
Qed.

(** X2. On a text without [<] and without [&] the HTML path does
    nothing but cut the text into lines: [parseHtmlToLines] returns the
    trimmed non-empty lines of the text, and [extractContent] gives the
    same items whether the text arrives as HTML or, the HTML conversion
    having failed, as raw text. *)
Theorem plain_text_both_ways (t : jsstring) :
  forallb (fun c => negb (isMarkup c)) t = true ->
  parseHtmlToLines t = nonEmptyLinesOf (splitLines t)
  /\ extractContentOfFile (mkFile (Some t) t) = extractContentOfFile (mkFile None t).
Proof.
  intros Hplain. pose proof (parseHtmlToLines_plain t Hplain) as Hp.
  split; [exact Hp|].
  unfold extractContentOfFile, linesOfFile, extractContent.
  cbn [convertToHtml extractRawText]. rewrite Hp.
  now rewrite (nonEmptyLinesOf_fixed (nonEmptyLinesOf_trimmed _)).
Qed.

End FileLines.

(** X3. The step of [parseHtmlToLines] that turns [<li>] tags into a
    line feed and a bullet marker never changes the string: the step
    before it has already replaced every opening tag whose name starts
    with [li] by a bare line feed, so no [<li...>] is left to match. A
    list item of the HTML therefore reaches the scan without a bullet
    glyph. *)
Theorem list_item_marker_never_written (cleaned : jsstring) :
  noListItemTag (breakBlocks cleaned) = true
  /\ markListItems (breakBlocks cleaned) = breakBlocks cleaned.
Proof.
  assert (Hno : noListItemTag (breakBlocks cleaned) = true).
  { unfold breakBlocks, replaceAll at 1. apply replaceScan_openBlock_noListItem. }
  split; [exact Hno|].
  unfold markListItems, replaceAll at 1. now apply replaceScan_listItem_id.
Qed.

(* ------------------------------------------------------------------ *)
(** ** [parseHtmlToLines] on texts and tags                            *)
(* ------------------------------------------------------------------ *)

(** X4. On an HTML source made of texts without [<] and [&] and of
    tags [<body>] whose body is not empty, holds no [<] and no [>] and
    does not start a script or style element, [parseHtmlToLines] does
    this: a tag whose name, after the [/] of a closing tag, starts with
    p, div, h1 to h6, li, tr or br in either case becomes a line break,
    every other tag disappears, the texts stay, and the result is cut at
    the line feeds into trimmed non-empty lines. Attributes do not
    matter, a list item gets a line break and no bullet marker, and an
    inline tag joins the texts around it. *)
Theorem parseHtmlToLines_of_tags (segs : list Segment) :
  forallb segmentOk segs = true ->
  parseHtmlToLines (htmlOf segs)
  = nonEmptyLinesOf (splitLines (flat_map renderSegment segs)).
Proof. apply parseHtmlToLines_segments. Qed.

(** X5. An entity whose ampersand is itself written as an entity is
    decoded twice. [&amp;] is replaced first, and the replacements that
    follow see the ampersand it leaves: so [&amp;lt;] gives the same as
    [&lt;], the character [<], and likewise for gt, quot, #39 and nbsp.
    A source that spells out the name of an entity, as [&amp;lt;] does,
    loses it on the way to the lines. *)
Theorem entities_decoded_twice (pre s name : jsstring) (c : N) :
  forallb (fun a => negb (isMarkup a)) pre = true ->
  forallb (fun a => negb (isMarkup a)) s = true ->
  In (name, c) laterEntities ->
  decodeEntities (pre ++ str "&" ++ name ++ s) = pre ++ c :: s
  /\ decodeEntities (pre ++ str "&amp;" ++ name ++ s) = pre ++ c :: s
  /\ parseHtmlToLines (pre ++ str "&amp;" ++ name ++ s)
     = nonEmptyLinesOf (splitLines (pre ++ c :: s)).
Proof.
  intros Hpre Hs Hin.
  destruct (@decodeEntities_later pre s name c (plain_noAmp _ Hpre)
              (plain_noAmp _ Hs) Hin) as [H1 H2].
  split; [exact H1|]. split; [exact H2|].
  unfold parseHtmlToLines. cbv zeta. rewrite noLt_steps.
  - now rewrite H2.
  - rewrite !forallb_app, (plain_noLt _ Hpre), (plain_noLt _ Hs),
      (@laterEntities_noLt name c Hin). reflexivity.
Qed.

(* ------------------------------------------------------------------ *)
(** ** The items of the output                                         *)
(* ------------------------------------------------------------------ *)

Section OutputItems.

Context `{UnicodeCase}.

(** X6. Trimming is idempotent, and so is the normalization at the
    start of [extractContent]: its result holds only trimmed lines, a
    second pass returns it unchanged, and [extractContent] gives the
    same items on the normalized lines as on the lines themselves. *)
Theorem lines_normalized_once (lines : list jsstring) :
  (forall s, trim (trim s) = trim s)
  /\ nonEmptyLinesOf (nonEmptyLinesOf lines) = nonEmptyLinesOf lines
  /\ extractContent (nonEmptyLinesOf lines) = extractContent lines.
Proof.
  assert (Hfix : nonEmptyLinesOf (nonEmptyLinesOf lines) = nonEmptyLinesOf lines)
    by apply nonEmptyLinesOf_fixed, nonEmptyLinesOf_trimmed.
  split; [apply trim_trim|]. split; [exact Hfix|].
  unfold extractContent. now rewrite Hfix.
Qed.

(** X7. [extractContent] returns no item exactly when every line of
    the input is empty or white space only; in particular it returns
    none on an input without lines. *)
Theorem empty_output_iff_blank_input (input : list jsstring) :
  extractContent input = [] <-> Forall (fun l => trim l = []) input.
Proof.
  split.
  - intros Hout. pose proof (extractContent_holds_lines input) as Hcov.
    rewrite Hout in Hcov. inversion Hcov as [Hnl|]; subst.
    apply Forall_forall. intros l Hl.
    destruct (list_eq_dec N.eq_dec (trim l) []) as [He|Hne]; [exact He|].
    exfalso. assert (Hin : In (trim l) (nonEmptyLinesOf input)).
    { unfold nonEmptyLinesOf. apply filter_In. split; [now apply in_map|].
      apply negb_true_iff. now apply jseqb_nil. }
    rewrite <- Hnl in Hin. exact Hin.
  - intros Hall. unfold extractContent.
    assert (Hnl : nonEmptyLinesOf input = []).
    { unfold nonEmptyLinesOf. induction Hall as [|l ls Hl _ IH]; [reflexivity|].
      cbn [map filter]. rewrite Hl. exact IH. }
    rewrite Hnl. reflexivity.
Qed.

(** X8. Every item [extractContent] returns has something to show: a
    code block has at least one line and none of its lines is empty;
    every other item has a text, and the text is not empty, also where
    the marker of a bullet or the numeral of a numbered line has been
    removed from it. *)
Theorem items_have_content (input : list jsstring) :
  Forall HasContent (extractContent input).
Proof.
  unfold extractContent.
  apply postProcessContent_Forall; [exact HasContent_retyped|].
  apply scanContent_pushed. intros st st' item.
  apply pushed_has_content, nonEmptyLinesOf_trimmed.
Qed.

(** X9. A numbered item is only ever made from a line of the form
    [N) text]: a numeral, a closing parenthesis, white space, text. A
    line [N. text] never becomes one, although the numbered pattern
    accepts the dot: the heading-level rule comes first and takes every
    such line. The item holds the value of the numeral and the text
    after the white space. *)
Theorem numbered_items_from_paren_lines (input : list jsstring)
        (item : ContentItem) :
  In item (extractContent input) -> type item = numbered ->
  FromParenLine (nonEmptyLinesOf input) item.
Proof.
  intros Hin Hty.
  assert (Hall : Forall (fun it => type it = numbered ->
                                   FromParenLine (nonEmptyLinesOf input) it)
                        (extractContent input)).
  { unfold extractContent. apply postProcessContent_Forall.
    - intros x _ Hp Hb. cbn in Hb. discriminate.
    - apply scanContent_pushed. intros st st' it.
      apply pushed_numbered, nonEmptyLinesOf_trimmed. }
  rewrite Forall_forall in Hall. now apply Hall.
Qed.

(** X10. The confidence of an item of the output depends on its type:
    a heading carries one from 70 to 100, a code block one from 60 to
    100, a sub-bullet 90, and a numbered item none at all. The
    confidence of a paragraph is 100 minus its header- and
    bullet-probabilities, neither of which is bounded below by 0, so it
    is only known to lie between -69 and 165; a bullet can be such a
    paragraph, retyped by the corrective pass with its confidence
    kept. *)
Theorem confidence_ranges (input : list jsstring) :
  Forall ConfidenceInRange (extractContent input).
Proof.
  unfold extractContent.
  apply postProcessContent_Forall; [exact ConfidenceInRange_retyped|].
  apply scanContent_pushed. intros st st' item _. apply pushed_confidence.
Qed.

End OutputItems.

(* ------------------------------------------------------------------ *)
(** ** One iteration of the scan on a marked line                      *)
(* ------------------------------------------------------------------ *)

Section MarkedLineRules.

Context `{UnicodeCase}.

(** X11. When the scan reaches a line that starts with the bullet glyph
    U+2022 or with an asterisk and goes on, that is, when an iteration
    of the loop starts at it, whatever the state, the iteration pushes a
    code block when one is committed there, else a heading when the
    header-probability is 70 or more, and else a bullet of confidence 95
    whose text is the line without the glyph and the white space after
    it; the numbered-run counter is kept. So the item pushed for it is
    never a paragraph, a numbered item or a sub-bullet, and the line has
    no heading level of its own. A line the scan does not reach, one
    absorbed into a code block opened at an earlier line, is not
    concerned. *)
Theorem bullet_glyph_line_is_bullet (input : list jsstring) (st : ScanState)
        (glyph : N) (rest : list N) :
  let nl := nonEmptyLinesOf input in
  scan_i st < length nl ->
  lineAt nl (scan_i st) = glyph :: rest -> isBulletGlyph glyph = true ->
  rest <> [] ->
  getHeadingLevel (glyph :: rest) = None
  /\ scanStep nl st
     = (if codeCommitted nl (scan_i st)
        then mkScan (scan_i st + length (codeGroupAt nl (scan_i st))) 0
               (introIndex nl st)
               (content st
                ++ [codeItem (codeGroupAt nl (scan_i st)) (codeProbAt nl (scan_i st))])
        else if (70 <=? headerProbAt nl (scan_i st))%Z
        then mkScan (scan_i st + 1) 0 (introIndex nl st)
               (content st
                ++ [textItem (scoredLevel (glyph :: rest) (prevOf nl (scan_i st)))
                      (Some (glyph :: rest)) (headerProbAt nl (scan_i st))])
        else mkScan (scan_i st + 1) (numberedListCounter st) (introIndex nl st)
               (content st ++ [textItem bullet (Some (afterMarker rest)) 95])).
Proof.
  intros nl Hi Htext Hg Hrest.
  assert (Htrim : Trimmed (lineAt nl (scan_i st))).
  { eapply Forall_forall; [apply nonEmptyLinesOf_trimmed|]. now apply nth_In. }
  split.
  - destruct (isBulletGlyph_cases _ Hg) as (Hd & Hu & _).
    rewrite Htext in Htrim. now apply glyph_no_heading_level.
  - now apply scanStep_bullet_glyph.
Qed.

(** X12. A line that starts with one of the secondary glyphs (U+25E6,
    U+2023, U+2043, U+2219) and goes on becomes a sub-bullet, of
    confidence 90 and without its glyph, only when the item pushed just
    before it is a bullet (and no code block is committed and the
    header-probability is below 70). After anything else, a sub-bullet
    included, the sub-bullet rule is skipped and the line goes to the
    inferred-bullet rule or to the paragraph rule, which keep the whole
    line, glyph included, as the text. *)
Theorem sub_glyph_line_needs_bullet (input : list jsstring) (st : ScanState)
        (glyph : N) (rest : list N) :
  let nl := nonEmptyLinesOf input in
  scan_i st < length nl ->
  lineAt nl (scan_i st) = glyph :: rest -> isSubGlyph glyph = true ->
  rest <> [] ->
  scanStep nl st
  = (if codeCommitted nl (scan_i st)
     then mkScan (scan_i st + length (codeGroupAt nl (scan_i st))) 0
            (introIndex nl st)
            (content st
             ++ [codeItem (codeGroupAt nl (scan_i st)) (codeProbAt nl (scan_i st))])
     else if (70 <=? headerProbAt nl (scan_i st))%Z
     then mkScan (scan_i st + 1) 0 (introIndex nl st)
            (content st
             ++ [textItem (scoredLevel (glyph :: rest) (prevOf nl (scan_i st)))
                   (Some (glyph :: rest)) (headerProbAt nl (scan_i st))])
     else if hasType bullet (lastOf (content st))
     then mkScan (scan_i st + 1) (numberedListCounter st) (introIndex nl st)
            (content st ++ [textItem sub_bullet (Some (afterMarker rest)) 90])
     else if (60 <=? bulletProbAt nl st)%Z && (jslength (glyph :: rest) <? 120)%Z
     then mkScan (scan_i st + 1) (numberedListCounter st) (introIndex nl st)
            (content st ++ [textItem bullet (Some (glyph :: rest)) (bulletProbAt nl st)])
     else mkScan (scan_i st + 1) 0 (introIndex nl st)
            (content st
             ++ [textItem paragraph (Some (glyph :: rest))
                   (100 - headerProbAt nl (scan_i st) - bulletProbAt nl st)])).
Proof.
  intros nl Hi Htext Hg Hrest.
  assert (Htrim : Trimmed (lineAt nl (scan_i st))).
  { eapply Forall_forall; [apply nonEmptyLinesOf_trimmed|]. now apply nth_In. }
  now apply scanStep_sub_glyph.
Qed.

(** X13. A line that is exactly one of the header keywords is always
    pushed as a heading of confidence 90 when the scan reaches it,
    whatever the lines around it and whatever was pushed before: its own
    code signals are too weak for a code block to be committed there
    even with code around it, it has no heading level of its own, and
    its header-probability is 90 regardless of its neighbours. The
    numbered-run counter goes back to 0. *)
Theorem keyword_line_is_heading (input : list jsstring) (st : ScanState) :
  let nl := nonEmptyLinesOf input in
  scan_i st < length nl -> In (lineAt nl (scan_i st)) HEADER_KEYWORDS ->
  codeCommitted nl (scan_i st) = false
  /\ headerProbAt nl (scan_i st) = 90%Z
  /\ scanStep nl st
     = mkScan (scan_i st + 1) 0 (introIndex nl st)
         (content st
          ++ [textItem (scoredLevel (lineAt nl (scan_i st)) (prevOf nl (scan_i st)))
                (Some (lineAt nl (scan_i st))) 90]).
Proof. intros nl. apply scanStep_keyword. Qed.

(** X14. A line that starts with a header keyword and a colon has
    header-probability 85 whatever follows the colon and whatever its
    neighbours are, and it has no heading level of its own. So when the
    scan reaches it, that is, when an iteration of the loop starts at
    it, whatever the state, and no code block is committed there, the
    iteration pushes it whole as a heading of confidence 85, however
    long the sentence after the colon is. A line the scan does not
    reach, one absorbed into a code block opened at an earlier line, is
    not concerned. *)
Theorem keyword_colon_line_is_heading (input : list jsstring) (st : ScanState)
        (keyword tail : jsstring) :
  let nl := nonEmptyLinesOf input in
  scan_i st < length nl -> In keyword HEADER_KEYWORDS ->
  lineAt nl (scan_i st) = keyword ++ str ":" ++ tail ->
  codeCommitted nl (scan_i st) = false ->
  getHeadingLevel (lineAt nl (scan_i st)) = None
  /\ headerProbAt nl (scan_i st) = 85%Z
  /\ scanStep nl st
     = mkScan (scan_i st + 1) 0 (introIndex nl st)
         (content st
          ++ [textItem (scoredLevel (lineAt nl (scan_i st)) (prevOf nl (scan_i st)))
                (Some (lineAt nl (scan_i st))) 85]).
Proof.
  intros nl Hi Hin Hline Hcode.
  assert (Htrim : Trimmed (lineAt nl (scan_i st))).
  { eapply Forall_forall; [apply nonEmptyLinesOf_trimmed|]. now apply nth_In. }
  assert (Htrim' : Trimmed (keyword ++ str ":" ++ tail)) by now rewrite <- Hline.
  destruct (keyword_colon_facts tail Hin Htrim') as [Hlvl Hprob].
  split; [now rewrite Hline|]. split.
  - unfold headerProbAt. rewrite Hline. apply Hprob.
  - now apply (scanStep_keyword_colon nl st tail Htrim Hin).
Qed.

End MarkedLineRules.

(* ------------------------------------------------------------------ *)
(** ** The statistics and the file name                                *)
(* ------------------------------------------------------------------ *)

(** X15. The five counts of [handleFormat] count every item once:
    each item is a heading, a bullet or sub-bullet, a numbered item, a
    code block or a paragraph, so the counts add up to the number of
    items. *)
Theorem stats_count_every_item (content : list ContentItem) :
  headings (computeStats content) + bullets (computeStats content)
  + numberedItems (computeStats content) + codeBlocks (computeStats content)
  + paragraphs (computeStats content) = length content.
Proof. apply computeStats_total. Qed.

(** X16. The corrective pass only moves items from the paragraphs to
    the bullets: the numbers of headings, of numbered items and of code
    blocks are the same before and after [postProcessContent], the
    number of bullets does not go down, the number of paragraphs does
    not go up, and their sum stays the same. *)
Theorem postProcess_moves_paragraphs_to_bullets (content : list ContentItem) :
  headings (computeStats (postProcessContent content)) = headings (computeStats content)
  /\ numberedItems (computeStats (postProcessContent content))
     = numberedItems (computeStats content)
  /\ codeBlocks (computeStats (postProcessContent content))
     = codeBlocks (computeStats content)
  /\ bullets (computeStats content) <= bullets (computeStats (postProcessContent content))
  /\ paragraphs (computeStats (postProcessContent content))
     <= paragraphs (computeStats content)
  /\ bullets (computeStats (postProcessContent content))
     + paragraphs (computeStats (postProcessContent content))
     = bullets (computeStats content) + paragraphs (computeStats content).
Proof. apply computeStats_retyped, postProcessContent_retyped. Qed.

Section StatsOfOutput.

Context `{UnicodeCase}.

(** X17. The items [extractContent] returns account for every
    non-empty line of the input: counting each code block for the lines
    it holds and every other item for one line gives the number of
    lines. So there are never more items than lines, and the five
    counts shown to the user never add up to more than the number of
    non-empty lines. *)
Theorem stats_account_for_lines (input : list jsstring) :
  let content := extractContent input in
  list_sum (map linesHeld content) = length (nonEmptyLinesOf input)
  /\ length content <= length (nonEmptyLinesOf input)
  /\ headings (computeStats content) + bullets (computeStats content)
     + numberedItems (computeStats content) + codeBlocks (computeStats content)
     + paragraphs (computeStats content) <= length (nonEmptyLinesOf input).
Proof.
  intros content.
  destruct (Covers_linesHeld (extractContent_holds_lines input)) as [Hsum Hle].
  split; [exact Hsum|]. split; [exact Hle|].
  now rewrite computeStats_total.
Qed.

End StatsOfOutput.

(** X18. The name under which the document is saved holds only ASCII
    letters, digits, underscores and hyphens before its fixed ending
    [_Formatted.docx]: whatever the title, the cleaned title has no
    white space, no dot, no slash and no other punctuation. *)
Theorem download_name_is_safe (docTitle : jsstring) :
  forallb titleUnit (cleanTitle docTitle) = true
  /\ downloadName docTitle = cleanTitle docTitle ++ str "_Formatted.docx"
  /\ forallb (fun c => titleUnit c || N.eqb c 46) (downloadName docTitle) = true.
Proof.
  pose proof (cleanTitle_units docTitle) as Hu.
  split; [exact Hu|]. split; [reflexivity|].
  unfold downloadName. rewrite forallb_app. apply andb_true_iff. split.
  - eapply forallb_impl; [|exact Hu]. intros x ->. reflexivity.
  - reflexivity.
Qed.

(** X19. Cleaning a title is idempotent, and a title made only of
    letters, digits, underscores and hyphens is its own cleaned form. *)
Theorem cleanTitle_idempotent (docTitle : jsstring) :
  cleanTitle (cleanTitle docTitle) = cleanTitle docTitle
  /\ (forallb titleUnit docTitle = true <-> cleanTitle docTitle = docTitle).
Proof.
  split; [apply cleanTitle_fixed, cleanTitle_units|]. split.
  - apply cleanTitle_fixed.
  - intros <-. apply cleanTitle_units.
Qed.

(* ------------------------------------------------------------------ *)
(** ** The formatted document                                          *)
(* ------------------------------------------------------------------ *)

Section DocumentOfOutput.

Context `{UnicodeCase}.

(** X20. The document shows every item [extractContent] returns, in
    order, and nothing of the body is lost in the rendering: read block
    by block, the main content shows the text of each item (a numbered
    item with its number and a dot before it), and one row for each line
    of a code block; the spacer paragraphs show nothing. No code block
    is skipped and no text is replaced by the empty string, since every
    item has content. So the main content shows one text for each
    non-empty line of the input. The texts of the whole document are the
    title, the subtitle if there is one, the organization (TechTorch
    Inc. when the field is empty), the date line, the version line, the
    title of the table of contents, the items, and the closing line. *)
Theorem document_shows_every_item (input : list jsstring)
        (docTitle subtitle organization author currentDate : jsstring) :
  let content := extractContent input in
  flat_map blockTexts (mainContent None content) = flat_map shownTexts content
  /\ length (flat_map blockTexts (mainContent None content))
     = length (nonEmptyLinesOf input)
  /\ flat_map blockTexts
       (formatDocument content docTitle subtitle organization author currentDate)
     = [docTitle]
       ++ (if truthy (Some subtitle) then [subtitle] else [])
       ++ [if truthy (Some organization) then organization
           else str "TechTorch Inc.";
           str "As of " ++ currentDate;
           if truthy (Some author)
           then str "Version 1.0 (" ++ author ++ str ")" else str "Version 1.0";
           str "Table of Contents"]
       ++ flat_map shownTexts content
       ++ [str "End of Document"].
Proof.
  intros content.
  assert (Hall : Forall HasContent content).
  { unfold content, extractContent.
    apply postProcessContent_Forall; [exact HasContent_retyped|].
    apply scanContent_pushed. intros st st' item.
    apply pushed_has_content, nonEmptyLinesOf_trimmed. }
  pose proof (mainContent_texts Hall None) as Hbody.
  split; [exact Hbody|]. split.
  - rewrite Hbody, length_flat_map.
    destruct (Covers_linesHeld (extractContent_holds_lines input)) as [Hsum _].
    fold content in Hsum. rewrite <- Hsum. f_equal.
    apply map_ext_in. intros item Hin. apply shownTexts_length.
    rewrite Forall_forall in Hall. now apply Hall.
  - now apply formatDocument_texts.
Qed.

End DocumentOfOutput.

(** X21. The paragraphs of the document that carry a heading level,
    which are what its table of contents lists, are exactly the heading
    items of the content, in order, each at its level and with its text:
    the title page, the title of the table of contents, the spacers, the
    list items, the code blocks and the closing line add no entry. So
    the table of contents has as many entries as the statistics count
    headings. *)
Theorem toc_lists_the_headings (content : list ContentItem)
        (docTitle subtitle organization author currentDate : jsstring) :
  tocEntries (createFormattedDocument content docTitle subtitle organization author
                                      currentDate)
  = flat_map headingOf content
  /\ length (tocEntries (createFormattedDocument content docTitle subtitle
                                                 organization author currentDate))
     = headings (computeStats content).
Proof.
  assert (Htoc : tocEntries (createFormattedDocument content docTitle subtitle
                               organization author currentDate)
                 = flat_map headingOf content).
  { unfold createFormattedDocument, tocEntries. rewrite !flat_map_app.
    fold (tocEntries (mainContent None content)). rewrite mainContent_toc.
    unfold titlePage. rewrite !flat_map_app.
    destruct (truthy (Some subtitle)); cbn; now rewrite app_nil_r. }
  split; [exact Htoc|]. rewrite Htoc. apply headingOf_count.
Qed.

(** X22. The table of a code block has one row for each line, in
    order, each row one cell holding the line; every cell has the accent
    border on the left and the thin border on the right, the first row
    alone has a top border and the last row alone a bottom border, so
    the rows form one box (a single line has both). *)
Theorem code_table_is_one_box (lines : list jsstring) (k : nat) (line : jsstring) :
  nth_error lines k = Some line ->
  length (rows (createCodeBlockTable lines)) = length lines
  /\ exists cell,
       nth_error (rows (createCodeBlockTable lines)) k = Some [cell]
       /\ cell_children cell = [codeLine line]
       /\ border_left cell = accentBorder /\ border_right cell = tableBorder
       /\ border_top cell = (if Nat.eqb k 0 then tableBorder else noBorder)
       /\ border_bottom cell
          = (if Nat.eqb (S k) (length lines) then tableBorder else noBorder).
Proof.
  intros Hk. cbn [createCodeBlockTable rows]. split; [apply mapIndexed_length|].
  eexists. split; [exact (mapIndexed_nth _ lines 0 k Hk)|].
  cbn [cell_children border_left border_right border_top border_bottom Nat.add].
  repeat split.
  assert (Hlt : k < length lines) by (apply nth_error_Some; congruence).
  destruct (Nat.eqb_spec (S k) (length lines)) as [He|Hne].
  - rewrite (proj2 (Z.eqb_eq _ _)) by lia. reflexivity.
  - rewrite (proj2 (Z.eqb_neq _ _)) by lia. reflexivity.
Qed.

(* ------------------------------------------------------------------ *)
(** ** The further properties on concrete inputs                       *)
(* ------------------------------------------------------------------ *)

Section FurtherExamples.

#[local] Existing Instance asciiCase.

Lemma plain_text_both_ways_witness :
  let t := str "Setup" ++ LF ++ str "  Install the tool " ++ LF in
  forallb (fun c => negb (isMarkup c)) t = true
  /\ parseHtmlToLines t = nonEmptyLinesOf (splitLines t)
  /\ extractContentOfFile (mkFile (Some t) t) = extractContentOfFile (mkFile None t).
Proof.
  intros t.
  assert (H1 : forallb (fun c => negb (isMarkup c)) t = true)
    by (vm_compute; reflexivity).
  split; [exact H1|]. exact (plain_text_both_ways t H1).
Defined.

Lemma entities_decoded_twice_witness :
  let pre := str "if a " in
  let s := str " b then" in
  forallb (fun a => negb (isMarkup a)) pre = true
  /\ forallb (fun a => negb (isMarkup a)) s = true
  /\ In (str "lt;", 60%N) laterEntities
  /\ decodeEntities (pre ++ str "&" ++ str "lt;" ++ s) = pre ++ 60%N :: s
  /\ decodeEntities (pre ++ str "&amp;" ++ str "lt;" ++ s) = pre ++ 60%N :: s
  /\ parseHtmlToLines (pre ++ str "&amp;" ++ str "lt;" ++ s)
     = nonEmptyLinesOf (splitLines (pre ++ 60%N :: s)).
Proof.
  intros pre s.
  assert (H1 : forallb (fun a => negb (isMarkup a)) pre = true) by reflexivity.
  assert (H2 : forallb (fun a => negb (isMarkup a)) s = true) by reflexivity.
  assert (H3 : In (str "lt;", 60%N) laterEntities) by (left; reflexivity).
  split; [exact H1|]. split; [exact H2|]. split; [exact H3|].
  exact (entities_decoded_twice pre s H1 H2 H3).
Defined.

Lemma numbered_items_from_paren_lines_witness :
  let input := [str "1) apple"] in
  let item := numberedItem (Some (str "apple")) 1 in
  In item (extractContent input) /\ type item = numbered
  /\ FromParenLine (nonEmptyLinesOf input) item.
Proof.
  intros input item.
  assert (H1 : In item (extractContent input)) by (vm_compute; left; reflexivity).
  assert (H2 : type item = numbered) by reflexivity.
  split; [exact H1|]. split; [exact H2|].
  exact (numbered_items_from_paren_lines input item H1 H2).
Defined.

Lemma bullet_glyph_line_is_bullet_witness :
  let input := [8226%N :: str " first point"] in
  let nl := nonEmptyLinesOf input in
  scan_i initialScan < length nl
  /\ lineAt nl (scan_i initialScan) = 8226%N :: str " first point"
  /\ isBulletGlyph 8226 = true /\ str " first point" <> []
  /\ getHeadingLevel (8226%N :: str " first point") = None
  /\ content (scanStep nl initialScan)
     = [textItem bullet (Some (str "first point")) 95].
Proof.
  intros input nl.
  assert (H1 : scan_i initialScan < length nl) by (vm_compute; lia).
  assert (H2 : lineAt nl (scan_i initialScan) = 8226%N :: str " first point")
    by (vm_compute; reflexivity).
  assert (H3 : isBulletGlyph 8226 = true) by reflexivity.
  assert (H4 : str " first point" <> []) by discriminate.
  split; [exact H1|]. split; [exact H2|]. split; [exact H3|]. split; [exact H4|].
  pose proof (bullet_glyph_line_is_bullet input initialScan H1 H2 H3 H4) as [Hl Hs].
  split; [exact Hl|]. vm_compute. reflexivity.
Defined.

Lemma sub_glyph_line_needs_bullet_witness :
  let input := [str "- a"; 9702%N :: str " b"; 9702%N :: str " c"] in
  let nl := nonEmptyLinesOf input in
  let st := scanStep nl (scanStep nl initialScan) in
  scan_i st < length nl
  /\ lineAt nl (scan_i st) = 9702%N :: str " c"
  /\ isSubGlyph 9702 = true /\ str " c" <> []
  /\ map type (content st) = [bullet; sub_bullet]
  /\ scanStep nl st
     = (if codeCommitted nl (scan_i st)
        then mkScan (scan_i st + length (codeGroupAt nl (scan_i st))) 0
               (introIndex nl st)
               (content st
                ++ [codeItem (codeGroupAt nl (scan_i st)) (codeProbAt nl (scan_i st))])
        else if (70 <=? headerProbAt nl (scan_i st))%Z
        then mkScan (scan_i st + 1) 0 (introIndex nl st)
               (content st
                ++ [textItem (scoredLevel (9702%N :: str " c") (prevOf nl (scan_i st)))
                      (Some (9702%N :: str " c")) (headerProbAt nl (scan_i st))])
        else if hasType bullet (lastOf (content st))
        then mkScan (scan_i st + 1) (numberedListCounter st) (introIndex nl st)
               (content st ++ [textItem sub_bullet (Some (afterMarker (str " c"))) 90])
        else if (60 <=? bulletProbAt nl st)%Z
                && (jslength (9702%N :: str " c") <? 120)%Z
        then mkScan (scan_i st + 1) (numberedListCounter st) (introIndex nl st)
               (content st
                ++ [textItem bullet (Some (9702%N :: str " c")) (bulletProbAt nl st)])
        else mkScan (scan_i st + 1) 0 (introIndex nl st)
               (content st
                ++ [textItem paragraph (Some (9702%N :: str " c"))
                      (100 - headerProbAt nl (scan_i st) - bulletProbAt nl st)]))
  /\ map type (content (scanStep nl st)) = [bullet; sub_bullet; bullet]
  /\ map text (content (scanStep nl st))
     = [Some (str "a"); Some (str "b"); Some (9702%N :: str " c")].
Proof.
  intros input nl st.
  assert (H1 : scan_i st < length nl) by (vm_compute; lia).
  assert (H2 : lineAt nl (scan_i st) = 9702%N :: str " c")
    by (vm_compute; reflexivity).
  assert (H3 : isSubGlyph 9702 = true) by reflexivity.
  assert (H4 : str " c" <> []) by discriminate.
  split; [exact H1|]. split; [exact H2|]. split; [exact H3|]. split; [exact H4|].
  split; [vm_compute; reflexivity|].
  split; [exact (sub_glyph_line_needs_bullet input st H1 H2 H3 H4)|].
  split; vm_compute; reflexivity.
Defined.

Lemma keyword_line_is_heading_witness :
  let input := [str "var total = 0;"; str "Overview"; str "var count = 1;"] in
  let nl := nonEmptyLinesOf input in
  let st := mkScan 1 0 (-10) [] in
  scan_i st < length nl /\ In (lineAt nl (scan_i st)) HEADER_KEYWORDS
  /\ codeCommitted nl (scan_i st) = false
  /\ headerProbAt nl (scan_i st) = 90%Z
  /\ scanStep nl st
     = mkScan (scan_i st + 1) 0 (introIndex nl st)
         (content st
          ++ [textItem (scoredLevel (lineAt nl (scan_i st)) (prevOf nl (scan_i st)))
                (Some (lineAt nl (scan_i st))) 90]).
Proof.
  intros input nl st.
  assert (H1 : scan_i st < length nl) by (vm_compute; lia).
  assert (H2 : In (lineAt nl (scan_i st)) HEADER_KEYWORDS)
    by (vm_compute; do 4 right; left; reflexivity).
  split; [exact H1|]. split; [exact H2|].
  exact (keyword_line_is_heading input st H1 H2).
Defined.

Lemma keyword_colon_line_is_heading_witness :
  let input :=
    [str "Summary: the project went well and every milestone was reached on time by the team."] in
  let nl := nonEmptyLinesOf input in
  let tail := str " the project went well and every milestone was reached on time by the team." in
  scan_i initialScan < length nl /\ In (str "Summary") HEADER_KEYWORDS
  /\ lineAt nl (scan_i initialScan) = str "Summary" ++ str ":" ++ tail
  /\ codeCommitted nl (scan_i initialScan) = false
  /\ getHeadingLevel (lineAt nl (scan_i initialScan)) = None
  /\ headerProbAt nl (scan_i initialScan) = 85%Z
  /\ map type (extractContent input) = [heading1].
Proof.
  intros input nl tail.
  assert (H1 : scan_i initialScan < length nl) by (vm_compute; lia).
  assert (H2 : In (str "Summary") HEADER_KEYWORDS)
    by (vm_compute; do 3 right; left; reflexivity).
  assert (H3 : lineAt nl (scan_i initialScan) = str "Summary" ++ str ":" ++ tail)
    by (vm_compute; reflexivity).
  assert (H4 : codeCommitted nl (scan_i initialScan) = false)
    by (vm_compute; reflexivity).
  split; [exact H1|]. split; [exact H2|]. split; [exact H3|]. split; [exact H4|].
  pose proof (keyword_colon_line_is_heading input initialScan tail H1 H2 H3 H4)
    as (Hl & Hp & _).
  split; [exact Hl|]. split; [exact Hp|]. vm_compute. reflexivity.
Defined.

Lemma code_table_is_one_box_witness :
  let lines := [str "a = 1;"; str "b = 2;"] in
  nth_error lines 1 = Some (str "b = 2;")
  /\ length (rows (createCodeBlockTable lines)) = length lines
  /\ exists cell,
       nth_error (rows (createCodeBlockTable lines)) 1 = Some [cell]
       /\ cell_children cell = [codeLine (str "b = 2;")]
       /\ border_left cell = accentBorder /\ border_right cell = tableBorder
       /\ border_top cell = (if Nat.eqb 1 0 then tableBorder else noBorder)
       /\ border_bottom cell
          = (if Nat.eqb 2 (length lines) then tableBorder else noBorder).
Proof.
  intros lines.
  assert (H1 : nth_error lines 1 = Some (str "b = 2;")) by reflexivity.
  split; [exact H1|]. exact (code_table_is_one_box lines 1 H1).
Defined.

Lemma parseHtmlToLines_of_tags_witness :
  let segs :=
    [TagSeg (str "h1"); TextSeg (str "Title"); TagSeg (str "/h1");
     TagSeg (str "p class=x"); TextSeg (str "Hello "); TagSeg (str "strong");
     TextSeg (str "world"); TagSeg (str "/strong"); TagSeg (str "/p");
     TagSeg (str "ul"); TagSeg (str "li"); TextSeg (str "one"); TagSeg (str "/li");
     TagSeg (str "LI"); TextSeg (str " two "); TagSeg (str "/LI"); TagSeg (str "/ul")] in
  forallb segmentOk segs = true
  /\ parseHtmlToLines (htmlOf segs)
     = nonEmptyLinesOf (splitLines (flat_map renderSegment segs))
  /\ parseHtmlToLines (htmlOf segs)
     = [str "Title"; str "Hello world"; str "one"; str "two"].
Proof.
  intros segs.
  assert (H1 : forallb segmentOk segs = true) by (vm_compute; reflexivity).
  split; [exact H1|]. split; [exact (parseHtmlToLines_of_tags segs H1)|].
  vm_compute. reflexivity.
Defined.

End FurtherExamples.
